(** * Voting-board client: session establishment, derived state, funding
      gate and interactive driver

    A shallow embedding of
    - [examples/bboard/api/src/index.ts] (class [BBoardAPI]),
    - [examples/bboard/contract/src/witnesses.ts] and the common types,
    - [examples/bboard/bboard-cli/src/index.ts] and
      [examples/extra/bboard-cli/src/index.ts] (the two interactive drivers),
    - [examples/questions/api/src/utils/index.ts] ([randomBytes]),
    followed by the properties established about them.

    Asynchronous code is embedded by explicit state passing: a [World] holds
    everything the provider bundle gives access to, and an awaited call is a
    function from worlds to a new world and a completion (normal return or
    thrown value). *)

From Stdlib Require Import ZArith List String Ascii Lia.
From Stdlib.Strings Require Import Byte.
From stdpp Require Import base option strings gmap list pretty.

#[local] Open Scope string_scope.

(** ** JavaScript values and completions *)

Module Js.

(** A value that may be [null] or [undefined]. *)
Inductive nullable (A : Type) : Type :=
| null
| undefined
| val (a : A).
Arguments null {A}.
Arguments undefined {A}.
Arguments val {A} a.

(** [x != null]: loose inequality, false on both [null] and [undefined]. *)
Definition not_nullish {A} (x : nullable A) : bool :=
  match x with val _ => true | _ => false end.

(** [x === null]: strict equality, true on [null] only. *)
Definition is_null {A} (x : nullable A) : bool :=
  match x with null => true | _ => false end.

(** [x ?? d] for an already evaluated right operand. *)
Definition nullish {A} (x : nullable A) (d : A) : A :=
  match x with val a => a | _ => d end.

(** [x?.f]: the member access is skipped on [null] and [undefined]. *)
Definition chain {A B} (x : nullable A) (f : A -> B) : nullable B :=
  match x with val a => val (f a) | _ => undefined end.

(** A thrown value: an instance of [Error] or anything else. *)
Inductive thrown : Type :=
| JsError (message : string)
| NotAnError (value : string).

Definition instanceof_Error (e : thrown) : bool :=
  match e with JsError _ => true | NotAnError _ => false end.

(** How an evaluation ends. *)
Inductive completion (A : Type) : Type :=
| Return (a : A)
| Throw (e : thrown).
Arguments Return {A} a.
Arguments Throw {A} e.

Definition returns {A} (c : completion A) : Prop :=
  exists a, c = Return a.

#[global] Instance completion_ret : MRet completion := fun A a => Return a.
#[global] Instance completion_bind : MBind completion :=
  fun A B f m => match m with Return a => f a | Throw e => Throw e end.

(** Reading a property of [null] or [undefined] throws a [TypeError]. *)
Definition member {A B} (x : nullable A) (f : A -> B) : completion B :=
  match x with
  | val a => Return (f a)
  | _ => Throw (JsError "TypeError: Cannot read properties of null")
  end.

End Js.
Import Js.

(** ** The contract package: private state, ledger and derived state *)

Definition ContractAddress : Type := string.

(** [witnesses.ts]: [BBoardPrivateState]. *)
Record BBoardPrivateState : Type := {
  secretKey : list byte;
}.

Definition createBBoardPrivateState (secretKey : list byte) : BBoardPrivateState :=
  {| secretKey := secretKey |}.

(** The raw contract state the public data provider hands out. *)
Record ContractState : Type := {
  data : list byte;
}.

(** The typed ledger of the voting board, as the drivers read it. *)
Record Ledger : Type := {
  authorizedCommitments : list (list byte);
  authorizedNullifiers : list (list byte);
  restrictedCounter1 : Z;
  restrictedCounter2 : Z;
  restrictedCounter3 : Z;
}.

(** [witnesses.secret_key]: hands the secret to a circuit and leaves the
    private state as it is. *)
Definition secret_key (privateState : BBoardPrivateState)
  : BBoardPrivateState * list byte :=
  (privateState, secretKey privateState).

(** [common-types]: [BBoardDerivedState]. *)
Record BBoardDerivedState : Type := {
  derivedCounter1 : Z;
  derivedCounter2 : Z;
  derivedCounter3 : Z;
}.

(** [FoundContract]: only the address of the deployment is read here
    ([deployTxData.public.contractAddress]). *)
Record DeployedBBoardContract : Type := {
  contractAddress : ContractAddress;
}.

(** ** The world behind the provider bundle *)

(** The levels of the logger, and [console] for what goes to
    [console.log]. *)
Inductive Level : Type := trace | debug | info | error | console.

Record LogEntry : Type := {
  level : Level;
  message : string;
}.

Record World : Type := {
  (** the private state store, keyed by private-state key *)
  privateStates : gmap string BBoardPrivateState;
  (** what the indexer answers to [queryContractState] *)
  indexer : ContractAddress -> completion (nullable ContractState);
  (** the bytes [crypto.getRandomValues] will hand out, and how many of
      them were handed out already *)
  entropy : nat -> byte;
  drawn : nat;
  (** the state of the network and of the wallet, opaque to this code *)
  network : nat;
  (** what the logger was given, oldest first *)
  logged : list LogEntry;
}.

Definition with_drawn (n : nat) (w : World) : World :=
  {| privateStates := privateStates w; indexer := indexer w;
     entropy := entropy w; drawn := n; network := network w;
     logged := logged w |}.

Definition with_logged (l : list LogEntry) (w : World) : World :=
  {| privateStates := privateStates w; indexer := indexer w;
     entropy := entropy w; drawn := drawn w; network := network w;
     logged := l |}.

(** An awaited computation. *)
Definition M (A : Type) : Type := World -> World * completion A.

#[global] Instance M_ret : MRet M := fun A a w => (w, Return a).
#[global] Instance M_bind : MBind M :=
  fun A B f m w =>
    match m w with
    | (w', Return a) => f a w'
    | (w', Throw e) => (w', Throw e)
    end.

Definition lift {A} (c : completion A) : M A := fun w => (w, c).

Module logger.
Definition log (l : Level) (msg : string) : M unit :=
  fun w =>
    (with_logged (logged w ++ [{| level := l; message := msg |}])%list w,
     Return tt).
End logger.

Module privateStateProvider.
(** [get(key)]: the record, or [null] when the key is missing.  The read
    is taken as one that answers; a store that rejects the read is not
    part of this world, and what is proved of a read is proved of a read
    that answered. *)
Definition get (key : string) : M (nullable BBoardPrivateState) :=
  fun w =>
    (w, Return match privateStates w !! key with
               | Some ps => val ps
               | None => null
               end).
End privateStateProvider.

Module publicDataProvider.
Definition queryContractState (address : ContractAddress)
  : M (nullable ContractState) :=
  fun w => (w, indexer w address).
End publicDataProvider.

Module utils.
(** [randomBytes(length)]: a fresh buffer filled by
    [crypto.getRandomValues]. *)
Definition randomBytes (length : nat) : M (list byte) :=
  fun w =>
    (with_drawn (drawn w + length) w,
     Return (map (entropy w) (seq (drawn w) length))).
End utils.

(** ** Collaborators of the API *)

(** The generated contract code.  [ledger] decodes raw contract state into
    the typed ledger [L] of the contract at hand and throws on bytes of
    another layout. *)
Class LedgerDecoder (L : Type) : Type := {
  ledger : list byte -> completion L;
}.

(** The voting contract: its decoder, its pure circuits (each may throw, a
    run-time type error on an ill-sized argument) and the string
    conversion of a ledger collection in a template literal. *)
Class ContractPackage : Type := {
  voting_ledger :: LedgerDecoder Ledger;
  public_key : list byte -> completion (list byte);
  nullifier : list byte -> completion (list byte);
  collection_toString : list (list byte) -> string;
}.

Record DeployContractOptions : Type := {
  deploy_privateStateKey : string;
  deploy_initialPrivateState : BBoardPrivateState;
}.

Record FindDeployedContractOptions : Type := {
  find_contractAddress : ContractAddress;
  find_privateStateKey : string;
  find_initialPrivateState : BBoardPrivateState;
}.

(** The circuits a driver submits through [callTx]. *)
Inductive CircuitCall : Type :=
| call_add_authority (pk : list byte)
| call_increment1
| call_increment2
| call_increment3
| call_post (message : string)
| call_take_down.

(** The contract helpers of the SDK: deployment, attachment and call
    submission.  They act on the world as they see fit. *)
Class ContractHelpers : Type := {
  deployContract : DeployContractOptions -> M DeployedBBoardContract;
  findDeployedContract : FindDeployedContractOptions -> M DeployedBBoardContract;
  callTx : DeployedBBoardContract -> CircuitCall -> M unit;
}.

(** ** Observables

    What the sources of a [state$] subscription can do, and what its
    subscriber is told. *)

Inductive SourceEvent : Type :=
| ContractStateNext (contractState : ContractState)
| ContractStateError (e : thrown)
| ContractStateComplete
| PrivateStateSettled.

Inductive Notification (D : Type) : Type :=
| Next (state : D)
| Failed (e : thrown)
| Completed.
Arguments Next {D} state.
Arguments Failed {D} e.
Arguments Completed {D}.

(** The derived states among the notifications. *)
Definition emissions {D} (out : list (Notification D)) : list D :=
  omap (fun n => match n with Next d => Some d | _ => None end) out.

(** ** [BBoardAPI] *)

Module BBoardAPI.
Section Api.
Context `{ContractPackage} `{ContractHelpers}.

(** An instance.  [privateRead] is the promise the constructor creates
    with [privateStateProvider.get('bboardPrivateState')]; [state$] is
    the pipeline below, built from these fields. *)
Record t : Type := {
  deployedContract : DeployedBBoardContract;
  deployedContractAddress : ContractAddress;
  privateRead : nullable BBoardPrivateState;
}.

(** The result selector given to [combineLatest]. *)
Definition stateProjection (ledgerState : Ledger)
    (privateState : nullable BBoardPrivateState)
  : completion BBoardDerivedState :=
  sk ← member privateState secretKey;
  hashedSecretKey ← public_key sk;
  sk' ← member privateState secretKey;
  nullifySecretKey ← nullifier sk';
  mret {| derivedCounter1 := restrictedCounter1 ledgerState;
          derivedCounter2 := restrictedCounter2 ledgerState;
          derivedCounter3 := restrictedCounter3 ledgerState |}.

Definition constructor (deployed : DeployedBBoardContract) : M t :=
  promised ← privateStateProvider.get "bboardPrivateState";
  mret {| deployedContract := deployed;
          deployedContractAddress := contractAddress deployed;
          privateRead := promised |}.

Definition getPrivateState : M BBoardPrivateState :=
  existingPrivateState ← privateStateProvider.get "bboardPrivateState";
  match existingPrivateState with
  | val ps => mret ps
  | _ => bytes ← utils.randomBytes 32; mret (createBBoardPrivateState bytes)
  end.

Definition deploy : M t :=
  logger.log info "deployContract";;
  initialPrivateState ← getPrivateState;
  deployedBBoardContract ←
    deployContract {| deploy_privateStateKey := "bboardPrivateState";
                      deploy_initialPrivateState := initialPrivateState |};
  logger.log trace
    ("contractDeployed: " +:+ contractAddress deployedBBoardContract);;
  constructor deployedBBoardContract.

Definition join (address : ContractAddress) : M t :=
  logger.log info ("joinContract: " +:+ address);;
  initialPrivateState ← getPrivateState;
  deployedBBoardContract ←
    findDeployedContract
      {| find_contractAddress := address;
         find_privateStateKey := "bboardPrivateState";
         find_initialPrivateState := initialPrivateState |};
  logger.log trace
    ("contractJoined: " +:+ contractAddress deployedBBoardContract);;
  constructor deployedBBoardContract.

Definition add_authority (api : t) (pk : list byte) : M unit :=
  callTx (deployedContract api) (call_add_authority pk).
Definition increment1 (api : t) : M unit :=
  callTx (deployedContract api) call_increment1.
Definition increment2 (api : t) : M unit :=
  callTx (deployedContract api) call_increment2.
Definition increment3 (api : t) : M unit :=
  callTx (deployedContract api) call_increment3.

End Api.

(** *** The observable [state$]

    [combineLatest([chain$.pipe(map(ledger)), from(promise)], selector)]:
    the operator keeps the latest value of each source, calls the selector
    on every arrival once each source has produced a value, forwards an
    error of a source or of the selector and then stops, and completes when
    both sources have completed.  [from(promise)] produces the settled value
    and completes at once. *)
Section State.
Context `{ContractPackage}.

Record Subscription : Type := {
  latestLedger : option Ledger;
  latestPrivate : option (nullable BBoardPrivateState);
  ledgerDone : bool;
  privateDone : bool;
  closed : bool;
}.

Definition subscribe : Subscription :=
  {| latestLedger := None; latestPrivate := None;
     ledgerDone := false; privateDone := false; closed := false |}.

Definition unsubscribe (s : Subscription) : Subscription :=
  {| latestLedger := latestLedger s; latestPrivate := latestPrivate s;
     ledgerDone := ledgerDone s; privateDone := privateDone s;
     closed := true |}.

Definition set_ledger (l : Ledger) (s : Subscription) : Subscription :=
  {| latestLedger := Some l; latestPrivate := latestPrivate s;
     ledgerDone := ledgerDone s; privateDone := privateDone s;
     closed := closed s |}.

Definition set_private (p : nullable BBoardPrivateState) (s : Subscription)
  : Subscription :=
  {| latestLedger := latestLedger s; latestPrivate := Some p;
     ledgerDone := ledgerDone s; privateDone := privateDone s;
     closed := closed s |}.

Definition finish_ledger (s : Subscription) : Subscription :=
  {| latestLedger := latestLedger s; latestPrivate := latestPrivate s;
     ledgerDone := true; privateDone := privateDone s;
     closed := closed s |}.

Definition finish_private (s : Subscription) : Subscription :=
  {| latestLedger := latestLedger s; latestPrivate := latestPrivate s;
     ledgerDone := ledgerDone s; privateDone := true;
     closed := closed s |}.

(** Call the selector when both slots are filled. *)
Definition emit (s : Subscription) : Subscription * list (Notification BBoardDerivedState) :=
  match latestLedger s, latestPrivate s with
  | Some l, Some p =>
      match stateProjection l p with
      | Return d => (s, [Next d])
      | Throw e => (unsubscribe s, [Failed e])
      end
  | _, _ => (s, [])
  end.

(** Complete once both sources are done. *)
Definition settle (s : Subscription) : Subscription * list (Notification BBoardDerivedState) :=
  if closed s then (s, [])
  else if ledgerDone s && privateDone s then (unsubscribe s, [Completed])
  else (s, []).

Definition deliver (api : t) (ev : SourceEvent) (s : Subscription)
  : Subscription * list (Notification BBoardDerivedState) :=
  if closed s then (s, [])
  else
    match ev with
    | ContractStateNext contractState =>
        if ledgerDone s then (s, [])
        else
          match ledger (data contractState) with
          | Return l => emit (set_ledger l s)
          | Throw e => (unsubscribe s, [Failed e])
          end
    | ContractStateError e =>
        if ledgerDone s then (s, []) else (unsubscribe s, [Failed e])
    | ContractStateComplete =>
        if ledgerDone s then (s, []) else settle (finish_ledger s)
    | PrivateStateSettled =>
        if privateDone s then (s, [])
        else
          let '(s1, out1) := emit (set_private (privateRead api) s) in
          let '(s2, out2) := settle (finish_private s1) in
          (s2, (out1 ++ out2)%list)
    end.

(** A run of source events through one subscription. *)
Fixpoint feed (api : t) (evs : list SourceEvent) (s : Subscription)
  : Subscription * list (Notification BBoardDerivedState) :=
  match evs with
  | [] => (s, [])
  | ev :: rest =>
      let '(s1, out1) := deliver api ev s in
      let '(s2, out2) := feed api rest s1 in
      (s2, (out1 ++ out2)%list)
  end.

End State.
End BBoardAPI.

(** ** Helpers of the drivers *)

Definition hexDigit (n : nat) : ascii :=
  match n with
  | 0 => "0" | 1 => "1" | 2 => "2" | 3 => "3" | 4 => "4" | 5 => "5"
  | 6 => "6" | 7 => "7" | 8 => "8" | 9 => "9" | 10 => "a" | 11 => "b"
  | 12 => "c" | 13 => "d" | 14 => "e" | _ => "f"
  end%char.

(** [toHex] of [midnight-js-utils]: two lower-case digits per byte. *)
Definition toHex (bytes : list byte) : string :=
  fold_right
    (fun b acc =>
       String (hexDigit (Byte.to_nat b / 16))
         (String (hexDigit (Byte.to_nat b mod 16)) acc))
    "" bytes.

(** The API package as a driver imports it: the static [deploy] and [join],
    the address and contract of an instance, and its [state$].  The two
    drivers are written against two versions of it, with derived states
    [D] of their own. *)
Class ApiPackage (D : Type) : Type := {
  Api : Type;
  Subscr : Type;
  api_deploy : M Api;
  api_join : ContractAddress -> M Api;
  api_deployedContractAddress : Api -> ContractAddress;
  api_deployedContract : Api -> DeployedBBoardContract;
  api_subscribe : Subscr;
  api_unsubscribe : Subscr -> Subscr;
  api_deliver : Api -> SourceEvent -> Subscr -> Subscr * list (Notification D);
}.

(** The package of [examples/bboard/api]. *)
Definition votingApi `{ContractPackage} `{ContractHelpers}
  : ApiPackage BBoardDerivedState :=
  {| Api := BBoardAPI.t;
     Subscr := BBoardAPI.Subscription;
     api_deploy := BBoardAPI.deploy;
     api_join := BBoardAPI.join;
     api_deployedContractAddress := BBoardAPI.deployedContractAddress;
     api_deployedContract := BBoardAPI.deployedContract;
     api_subscribe := BBoardAPI.subscribe;
     api_unsubscribe := BBoardAPI.unsubscribe;
     api_deliver := BBoardAPI.deliver |}.

(** ** What the two drivers share

    [getBBoardLedgerState], [deployOrJoin], [displayPrivateState] and the
    frame of [mainLoop] are the same text in both [index.ts]. *)

Module Driver.

Section Ledger.
Context {L : Type} `{LedgerDecoder L}.

Definition getBBoardLedgerState (contractAddress : ContractAddress)
  : M (nullable L) :=
  contractState ← publicDataProvider.queryContractState contractAddress;
  match contractState with
  | val cs => l ← lift (ledger (data cs)); mret (val l)
  | _ => mret null
  end.
End Ledger.

(** [displayPrivateState]; [what] is the wording of the driver ("voting
    board", "bulletin board"). *)
Definition displayPrivateState (what : string) : M unit :=
  privateState ← privateStateProvider.get "bboardPrivateState";
  if is_null privateState
  then logger.log info ("There is no existing " +:+ what +:+ " private state")
  else
    key ← lift (member privateState secretKey);
    logger.log info ("Current secret key is: " +:+ toHex key).

Section Loop.
Context {D : Type} {P : ApiPackage D}.

(** How the body of one iteration of the menu loop leaves the [switch]:
    [break] or [return]. *)
Inductive Control : Type := Continue | Leave.

(** What a menu choice starts: a body that runs to its end, or one that
    first asks the user a further question. *)
Inductive Prompted : Type :=
| Now (body : M Control)
| Ask (question : string) (k : string -> M Control).

(** The locals of [mainLoop] once a contract is at hand.  [observed] is
    a ghost record of every state handed to [stateObserver.next]. *)
Record Session : Type := {
  bboardApi : Api;
  subscription : Subscr;
  currentState : option D;
  observed : list D;
}.

(** Where the driver is suspended. *)
Inductive Phase : Type :=
| DeployOrJoin
| JoinAddress
| MainMenu
| Answering (question : string) (k : string -> M Control)
| Finished (c : completion unit).

Record Loop : Type := {
  world : World;
  phase : Phase;
  session : option Session;
}.

(** What happens while the driver is suspended: the user answers the
    pending question, the pending question is rejected, or a source of
    the subscription acts. *)
Inductive Input : Type :=
| Line (text : string)
| Aborted (e : thrown)
| Source (ev : SourceEvent).

Definition stateObserver_next (state : D) (s : Session) : Session :=
  {| bboardApi := bboardApi s; subscription := subscription s;
     currentState := Some state; observed := (observed s ++ [state])%list |}.

(** The observer has a [next] handler only: an error of the stream is not
    its business (the library hands it to the host as an unhandled error,
    outside this model), nor is the completion. *)
Definition notify (s : Session) (n : Notification D) : Session :=
  match n with
  | Next state => stateObserver_next state s
  | _ => s
  end.

Definition observe (ev : SourceEvent) (s : Session) : Session :=
  let '(sub, out) := api_deliver (bboardApi s) ev (subscription s) in
  fold_left notify out
    {| bboardApi := bboardApi s; subscription := sub;
       currentState := currentState s; observed := observed s |}.

(** [subscription.unsubscribe()] in the [finally] of [mainLoop]. *)
Definition finally_unsubscribe (s : Session) : Session :=
  {| bboardApi := bboardApi s;
     subscription := api_unsubscribe (subscription s);
     currentState := currentState s; observed := observed s |}.

Definition subscribed (a : Api) : Session :=
  {| bboardApi := a; subscription := api_subscribe;
     currentState := None; observed := [] |}.

(** The end of [deployOrJoin] on choices 1 and 2, and the start of the
    menu loop. *)
Definition established (verb : string) (r : World * completion Api) : Loop :=
  match r with
  | (w, Return a) =>
      {| world :=
           fst (logger.log info
                  (verb +:+ " contract at address: "
                   +:+ api_deployedContractAddress a) w);
         phase := MainMenu;
         session := Some (subscribed a) |}
  | (w, Throw e) =>
      {| world := w; phase := Finished (Throw e); session := None |}
  end.

Definition deployOrJoin (choice : string) (w : World) : Loop :=
  match choice with
  | "1" => established "Deployed" (api_deploy w)
  | "2" => {| world := w; phase := JoinAddress; session := None |}
  | "3" =>
      {| world := fst (logger.log info "Exiting..." w);
         phase := Finished (Return tt); session := None |}
  | _ =>
      {| world := fst (logger.log error ("Invalid choice: " +:+ choice) w);
         phase := DeployOrJoin; session := None |}
  end.

(** One body of the menu loop, inside [try ... finally]. *)
Definition iteration (body : M Control) (st : Loop) : Loop :=
  match body (world st) with
  | (w, Return Continue) =>
      {| world := w; phase := MainMenu; session := session st |}
  | (w, Return Leave) =>
      {| world := w; phase := Finished (Return tt);
         session := finally_unsubscribe <$> session st |}
  | (w, Throw e) =>
      {| world := w; phase := Finished (Throw e);
         session := finally_unsubscribe <$> session st |}
  end.

Section Menu.
(** The [switch] of a driver's menu loop. *)
Variable menu : string -> Api -> option D -> Prompted.

Definition mainLoop_step (st : Loop) (inp : Input) : Loop :=
  match inp, phase st with
  | Source ev, _ =>
      {| world := world st; phase := phase st;
         session := observe ev <$> session st |}
  | _, Finished _ => st
  | Line choice, DeployOrJoin => deployOrJoin choice (world st)
  | Line address, JoinAddress =>
      established "Joined" (api_join address (world st))
  | Line choice, MainMenu =>
      match session st with
      | Some s =>
          match menu choice (bboardApi s) (currentState s) with
          | Now body => iteration body st
          | Ask q k =>
              {| world := world st; phase := Answering q k;
                 session := session st |}
          end
      | None => st
      end
  | Line text, Answering _ k => iteration (k text) st
  | Aborted e, (DeployOrJoin | JoinAddress) =>
      {| world := world st; phase := Finished (Throw e);
         session := None |}
  | Aborted e, (MainMenu | Answering _ _) =>
      {| world := world st; phase := Finished (Throw e);
         session := finally_unsubscribe <$> session st |}
  end.

(** The question on display while the driver is suspended. *)
Definition asked (deployOrJoinQuestion mainLoopQuestion : string)
    (st : Loop) : option string :=
  match phase st with
  | DeployOrJoin => Some deployOrJoinQuestion
  | JoinAddress => Some "What is the contract address (in hex)? "
  | MainMenu => Some mainLoopQuestion
  | Answering q _ => Some q
  | Finished _ => None
  end.

(** [mainLoop] from its call up to the end of the script. *)
Definition mainLoop (script : list Input) (w : World) : Loop :=
  fold_left mainLoop_step script
    {| world := w; phase := DeployOrJoin; session := None |}.
End Menu.

End Loop.
End Driver.

(** ** The driver of the voting board, [examples/bboard/bboard-cli] *)

Module VotingCli.
Section Voting.
Context `{ContractPackage} `{ContractHelpers}.
#[local] Existing Instance votingApi.

Definition DEPLOY_OR_JOIN_QUESTION : string := "
You can do one of the following:
  1. Deploy a new voting contract
  2. Join an existing voting contract
  3. Exit
Which would you like to do? ".

Definition displayLedgerState (deployedBBoardContract : DeployedBBoardContract)
  : M unit :=
  let contractAddress := contractAddress deployedBBoardContract in
  ledgerState ← Driver.getBBoardLedgerState contractAddress;
  if is_null ledgerState
  then
    logger.log info
      ("There is no voting board contract deployed at " +:+ contractAddress)
  else
    authorizedCommitments ← lift (member ledgerState authorizedCommitments);
    authorizedNullifiers ← lift (member ledgerState authorizedNullifiers);
    restrictedCounter1 ← lift (member ledgerState restrictedCounter1);
    restrictedCounter2 ← lift (member ledgerState restrictedCounter2);
    restrictedCounter3 ← lift (member ledgerState restrictedCounter3);
    logger.log info
      ("Current authorizedCommitments is: '"
       +:+ collection_toString authorizedCommitments +:+ "'");;
    logger.log info
      ("Current authorizedNullifiers is: '"
       +:+ collection_toString authorizedNullifiers +:+ "'");;
    logger.log info
      ("Current restrictedCounter1 is: " +:+ pretty restrictedCounter1);;
    logger.log info
      ("Current restrictedCounter2 is: " +:+ pretty restrictedCounter2);;
    logger.log info
      ("Current restrictedCounter3 is: " +:+ pretty restrictedCounter3).

Definition displayPrivateState : M unit :=
  Driver.displayPrivateState "voting board".

Definition MAIN_LOOP_QUESTION : string := "
You can do one of the following:
  1. Add an authority
  2. Vote for option 1
  3. Vote for option 2
  4. Vote for option 3
  5. Display the current ledger state (known by everyone)
  6. Display the current private state (known only to this DApp instance)  
  8. Exit
Which would you like to do? ".

(** The [switch] of [mainLoop]. *)
Definition menu (choice : string) (bboardApi : BBoardAPI.t)
    (currentState : option BBoardDerivedState) : Driver.Prompted :=
  match choice with
  | "1" =>
      Driver.Now
        (sk ← privateStateProvider.get "bboardPrivateState";
         key ← lift (member sk secretKey);
         pk ← lift (public_key key);
         logger.log console
           ("{ sk: " +:+ toHex key +:+ ", pk: " +:+ toHex pk +:+ " }");;
         BBoardAPI.add_authority bboardApi pk;;
         mret Driver.Continue)
  | "2" => Driver.Now (BBoardAPI.increment1 bboardApi;; mret Driver.Continue)
  | "3" => Driver.Now (BBoardAPI.increment2 bboardApi;; mret Driver.Continue)
  | "4" => Driver.Now (BBoardAPI.increment3 bboardApi;; mret Driver.Continue)
  | "5" =>
      Driver.Now
        (displayLedgerState (BBoardAPI.deployedContract bboardApi);;
         mret Driver.Continue)
  | "6" => Driver.Now (displayPrivateState;; mret Driver.Continue)
  | _ =>
      Driver.Now
        (logger.log error ("Invalid choice: " +:+ choice);;
         mret Driver.Continue)
  end.

Definition mainLoop_step : Driver.Loop -> Driver.Input -> Driver.Loop :=
  Driver.mainLoop_step menu.

Definition mainLoop : list Driver.Input -> World -> Driver.Loop :=
  Driver.mainLoop menu.

Definition asked : Driver.Loop -> option string :=
  Driver.asked DEPLOY_OR_JOIN_QUESTION MAIN_LOOP_QUESTION.

End Voting.
End VotingCli.

(** ** The driver of the bulletin board, [examples/extra/bboard-cli] *)

Module BoardCli.

(** [bboard.compact]: [STATE] and the ledger fields the driver reads. *)
Inductive STATE : Type := vacant | occupied.

Record Maybe (A : Type) : Type := {
  is_some : bool;
  value : A;
}.
Arguments is_some {A} _.
Arguments value {A} _.

Record BoardLedger : Type := {
  state : STATE;
  message : Maybe string;
  instance : Z;
  poster : list byte;
}.

(** The derived state of this version of the API, as
    [displayDerivedState] reads it. *)
Record BoardDerivedState : Type := {
  derived_state : STATE;
  derived_message : nullable string;
  derived_instance : Z;
  isOwner : bool;
}.

(** A value in a template literal. *)
Definition interpolate (x : nullable string) : string :=
  match x with
  | val s => s
  | null => "null"
  | undefined => "undefined"
  end.

Section Board.
Context `{LedgerDecoder BoardLedger} {P : ApiPackage BoardDerivedState}.
(** The two calls of this version of the API. *)
Variable post : Api -> string -> M unit.
Variable takeDown : Api -> M unit.

Definition DEPLOY_OR_JOIN_QUESTION : string := "
You can do one of the following:
  1. Deploy a new bulletin board contract
  2. Join an existing bulletin board contract
  3. Exit
Which would you like to do? ".

Definition displayLedgerState (deployedBBoardContract : DeployedBBoardContract)
  : M unit :=
  let contractAddress := contractAddress deployedBBoardContract in
  ledgerState ← Driver.getBBoardLedgerState contractAddress;
  if is_null ledgerState
  then
    logger.log info
      ("There is no bulletin board contract deployed at "
       +:+ contractAddress)
  else
    l ← lift (member ledgerState id);
    let boardState :=
      match state l with occupied => "occupied" | vacant => "vacant" end in
    let latestMessage :=
      if negb (is_some (message l)) then "none" else value (message l) in
    logger.log info ("Current state is: '" +:+ boardState +:+ "'");;
    logger.log info ("Current message is: '" +:+ latestMessage +:+ "'");;
    logger.log info ("Current instance is: " +:+ pretty (instance l));;
    logger.log info ("Current poster is: '" +:+ toHex (poster l) +:+ "'").

Definition displayPrivateState : M unit :=
  Driver.displayPrivateState "bulletin board".

Definition displayDerivedState (ledgerState : option BoardDerivedState)
  : M unit :=
  match ledgerState with
  | None => logger.log info "No bulletin board state currently available"
  | Some d =>
      let boardState :=
        match derived_state d with
        | occupied => "occupied"
        | vacant => "vacant"
        end in
      let latestMessage :=
        match derived_state d with
        | occupied => interpolate (derived_message d)
        | vacant => "none"
        end in
      logger.log info ("Current state is: '" +:+ boardState +:+ "'");;
      logger.log info ("Current message is: '" +:+ latestMessage +:+ "'");;
      logger.log info
        ("Current instance is: " +:+ pretty (derived_instance d));;
      logger.log info
        ("Current poster is: '"
         +:+ (if isOwner d then "you" else "not you") +:+ "'")
  end.

Definition MAIN_LOOP_QUESTION : string := "
You can do one of the following:
  1. Post a message
  2. Take down your message
  3. Display the current ledger state (known by everyone)
  4. Display the current private state (known only to this DApp instance)
  5. Display the current derived state (known only to this DApp instance)
  6. Exit
Which would you like to do? ".

(** The [switch] of [mainLoop]. *)
Definition menu (choice : string) (bboardApi : Api)
    (currentState : option BoardDerivedState) : Driver.Prompted :=
  match choice with
  | "1" =>
      Driver.Ask "What message do you want to post? "
        (fun message => post bboardApi message;; mret Driver.Continue)
  | "2" => Driver.Now (takeDown bboardApi;; mret Driver.Continue)
  | "3" =>
      Driver.Now
        (displayLedgerState (api_deployedContract bboardApi);;
         mret Driver.Continue)
  | "4" => Driver.Now (displayPrivateState;; mret Driver.Continue)
  | "5" =>
      Driver.Now (displayDerivedState currentState;; mret Driver.Continue)
  | "6" => Driver.Now (logger.log info "Exiting...";; mret Driver.Leave)
  | _ =>
      Driver.Now
        (logger.log error ("Invalid choice: " +:+ choice);;
         mret Driver.Continue)
  end.

Definition mainLoop_step : Driver.Loop -> Driver.Input -> Driver.Loop :=
  Driver.mainLoop_step menu.

Definition mainLoop : list Driver.Input -> World -> Driver.Loop :=
  Driver.mainLoop menu.

Definition asked : Driver.Loop -> option string :=
  Driver.asked DEPLOY_OR_JOIN_QUESTION MAIN_LOOP_QUESTION.

End Board.
End BoardCli.

(** ** Streams of timed values

    A source is the list of the values it has produced so far, each with
    its time of arrival in milliseconds. *)

Module Rx.
Section Operators.
Context {A B : Type}.

(** [throttleTime(duration)] with its default configuration (leading
    edge only): a value passes when no window is open and opens one of
    [duration] milliseconds; a value arriving in an open window is
    dropped. *)
Fixpoint throttle (duration : Z) (openUntil : option Z)
    (source : list (Z * A)) : list (Z * A) :=
  match source with
  | [] => []
  | (t, a) :: rest =>
      match openUntil with
      | Some u =>
          if bool_decide (t < u)%Z
          then throttle duration openUntil rest
          else (t, a) :: throttle duration (Some (t + duration)%Z) rest
      | None => (t, a) :: throttle duration (Some (t + duration)%Z) rest
      end
  end.

Definition throttleTime (duration : Z) (source : list (Z * A))
  : list (Z * A) :=
  throttle duration None source.

(** [tap(f)]: the values pass unchanged; [f] is run on each for its
    effect. *)
Definition tap (f : A -> LogEntry) (source : list (Z * A)) : list (Z * A) :=
  source.

Definition filter (p : A -> bool) (source : list (Z * A)) : list (Z * A) :=
  List.filter (fun x => p (snd x)) source.

Definition map (f : A -> B) (source : list (Z * A)) : list (Z * B) :=
  List.map (fun x => (fst x, f (snd x))) source.

(** [firstValueFrom]: resolved with the first value, pending ([None])
    while there is none. *)
Definition firstValueFrom (source : list (Z * A)) : option A :=
  snd <$> head source.
End Operators.
End Rx.

(** ** The wallet and the wait for funds (the same text in both drivers) *)

Module Wallet.

Record SyncProgress : Type := {
  synced : Z;
  total : Z;
}.

Record WalletState : Type := {
  syncProgress : nullable SyncProgress;
  balances : gmap string Z;
  address : string;
}.

Section Funds.
(** [nativeToken()] of the ledger package. *)
Variable nativeToken : string.

(** [balances[nativeToken()]] *)
Definition nativeBalance (state : WalletState) : nullable Z :=
  match balances state !! nativeToken with
  | Some b => val b
  | None => undefined
  end.

(** The callback of [tap] in [waitForFunds]. *)
Definition scanLog (state : WalletState) : LogEntry :=
  let scanned := nullish (chain (syncProgress state) synced) 0%Z in
  let total :=
    nullish (chain (syncProgress state) (fun p => pretty (total p)))
      "unknown number" in
  {| level := info;
     message :=
       "Wallet scanned " +:+ pretty scanned +:+ " blocks out of " +:+ total |}.

(** The callback of the first [filter] in [waitForFunds]. *)
Definition closeEnough (state : WalletState) : bool :=
  let synced := nullish (chain (syncProgress state) synced) 0%Z in
  let total := nullish (chain (syncProgress state) total) 1000%Z in
  bool_decide (total - synced < 100)%Z.

Definition waitForFunds (states : list (Z * WalletState)) : option Z :=
  Rx.firstValueFrom
    (Rx.filter (fun balance => bool_decide (balance > 0)%Z)
       (Rx.map (fun s => nullish (nativeBalance s) 0%Z)
          (Rx.filter closeEnough
             (Rx.tap scanLog
                (Rx.throttleTime 10000 states))))).

(** What the logger is given while [waitForFunds] waits on [states]: one
    line per value that reaches [tap], up to the one that resolves the
    wait. *)
Fixpoint scanned (throttled : list (Z * WalletState)) : list LogEntry :=
  match throttled with
  | [] => []
  | (_, s) :: rest =>
      scanLog s ::
      (if closeEnough s && bool_decide (nullish (nativeBalance s) 0 > 0)%Z
       then [] else scanned rest)
  end.

(** [buildWalletAndWaitForFunds] from the first state of the wallet on:
    [state] is that first state, [states] what a second subscription to
    [wallet.state()] produces.  The result is the log and the balance
    the function goes on with, [None] while it waits. *)
Definition buildWalletAndWaitForFunds (seed : string) (state : WalletState)
    (states : list (Z * WalletState)) : list LogEntry * option Z :=
  let opening :=
    [ {| level := info; message := "Your wallet seed is: " +:+ seed |};
      {| level := info;
         message := "Your wallet address is: " +:+ address state |} ] in
  let waiting :=
    [ {| level := info; message := "Your wallet balance is: 0" |};
      {| level := info; message := "Waiting to receive tokens..." |} ] in
  let awaited :=
    match waitForFunds states with
    | Some b =>
        ((opening ++ waiting ++ scanned (Rx.throttleTime 10000 states)
          ++ [ {| level := info;
                  message := "Your wallet balance is: " +:+ pretty b |} ])%list,
         Some b)
    | None =>
        ((opening ++ waiting
          ++ scanned (Rx.throttleTime 10000 states))%list, None)
    end in
  (* [balance === undefined || balance === 0n] *)
  match balances state !! nativeToken with
  | None => awaited
  | Some balance =>
      if bool_decide (balance = 0)%Z then awaited
      else
        ((opening
          ++ [ {| level := info;
                  message :=
                    "Your wallet balance is: " +:+ pretty balance |} ])%list,
         Some balance)
  end.

End Funds.
End Wallet.

(** ** [run], the entry point (the same text in both drivers) *)

Module Top.

Inductive Resource : Type :=
| InputInterface
| Environment
| WalletHandle.

(** What [run] does to its resources, and what [run] itself logs (the
    lines its callees log are theirs, in the world, not here). *)
Inductive RunEvent : Type :=
| Acquired (r : Resource)
| Releasing (r : Resource)
| Released (r : Resource)
| Logged (entry : LogEntry).

(** How a piece of [run] ends: normally, by a thrown value, or with the
    process gone. *)
Inductive Ending (A : Type) : Type :=
| Normal (a : A)
| Abrupt (e : thrown)
| ProcessExit (code : Z).
Arguments Normal {A} a.
Arguments Abrupt {A} e.
Arguments ProcessExit {A} code.

(** A piece of [run]: the events so far and the ending. *)
Definition Proc (A : Type) : Type := list RunEvent * Ending A.

#[global] Instance Proc_bind : MBind Proc :=
  fun A B f m =>
    match m with
    | (t1, Normal a) => let '(t2, r) := f a in ((t1 ++ t2)%list, r)
    | (t1, Abrupt e) => (t1, Abrupt e)
    | (t1, ProcessExit c) => (t1, ProcessExit c)
    end.

Definition ret {A} (a : A) : Proc A := ([], Normal a).

Definition bind {A B} (m : Proc A) (f : A -> Proc B) : Proc B :=
  mbind f m.

Notation "'const' x := m 'in' k" := (bind m (fun x => k))
  (at level 10, x name, m at level 100, k at level 200, only parsing).

Definition event (ev : RunEvent) : Proc unit := ([ev], Normal tt).

Definition log (l : Level) (msg : string) : Proc unit :=
  event (Logged {| level := l; message := msg |}).

Definition await {A} (c : completion A) : Proc A :=
  match c with
  | Return a => ([], Normal a)
  | Throw e => ([], Abrupt e)
  end.

Definition throw {A} (e : thrown) : Proc A := ([], Abrupt e).

Definition process_exit {A} (code : Z) : Proc A := ([], ProcessExit code).

(** [try { body } catch (e) { handler e }] *)
Definition try_catch {A} (body : Proc A) (handler : thrown -> Proc A)
  : Proc A :=
  match body with
  | (t1, Abrupt e) => let '(t2, r) := handler e in ((t1 ++ t2)%list, r)
  | other => other
  end.

(** [try { body } finally { cleanup }]: the cleanup runs however the body
    ends, short of the end of the process, and the ending of the body
    stands unless the cleanup ends abruptly itself. *)
Definition try_finally {A} (body : Proc A) (cleanup : Proc unit) : Proc A :=
  match body with
  | (t1, ProcessExit c) => (t1, ProcessExit c)
  | (t1, r) =>
      match cleanup with
      | (t2, Normal _) => ((t1 ++ t2)%list, r)
      | (t2, Abrupt e) => ((t1 ++ t2)%list, Abrupt e)
      | (t2, ProcessExit c) => ((t1 ++ t2)%list, ProcessExit c)
      end
  end.

(** How each awaited step of [run] completes, in the order of the
    text. *)
Record Steps : Type := {
  dockerEnv : bool;                      (* [dockerEnv !== undefined] *)
  up : completion unit;                  (* [dockerEnv.up()] and the port mapping *)
  buildWallet : completion (nullable unit);
  createWalletAndMidnightProvider : completion unit;
  mainLoop : completion unit;
  rli_close : completion unit;
  rli_removeAllListeners : completion unit;
  wallet_close : completion unit;
  env_down : completion unit;
}.

(** The message and the stack of a thrown [Error]. *)
Definition message_of (e : thrown) : string :=
  match e with JsError m => m | NotAnError v => v end.

Definition run (o : Steps) : Proc unit :=
  event (Acquired InputInterface);;
  const env :=
    (if dockerEnv o
     then await (up o);; event (Acquired Environment);; ret true
     else ret false) in
  const wallet :=
    (const w := await (buildWallet o) in
     if is_null w then ret false
     else event (Acquired WalletHandle);; ret true) in
  try_finally
    (try_catch
       (if wallet
        then await (createWalletAndMidnightProvider o);; await (mainLoop o)
        else ret tt)
       (fun e =>
          if instanceof_Error e
          then
            log error ("Found error '" +:+ message_of e +:+ "'");;
            log info "Exiting...";;
            log debug (message_of e)
          else throw e))
    (try_finally
       (try_catch
          (event (Releasing InputInterface);;
           await (rli_close o);;
           await (rli_removeAllListeners o);;
           event (Released InputInterface))
          (fun _ => ret tt))
       (try_finally
          (try_catch
             (if wallet
              then
                event (Releasing WalletHandle);;
                await (wallet_close o);;
                event (Released WalletHandle)
              else ret tt)
             (fun _ => ret tt))
          (try_catch
             (if env
              then
                event (Releasing Environment);;
                await (env_down o);;
                event (Released Environment);;
                log info "Goodbye";;
                process_exit 0
              else ret tt)
             (fun _ => ret tt)))).

(** The resources in the order [run] acquired them, and in the order it
    set out to release them. *)
Definition acquisitions (t : list RunEvent) : list Resource :=
  omap (fun ev => match ev with Acquired r => Some r | _ => None end) t.

Definition releases (t : list RunEvent) : list Resource :=
  omap (fun ev => match ev with Releasing r => Some r | _ => None end) t.

Definition completed_releases (t : list RunEvent) : list Resource :=
  omap (fun ev => match ev with Released r => Some r | _ => None end) t.

End Top.

(** ** The bulletin-board contract, [examples/questions/contract/src/bboard.compact] *)

Module BBoardContract.

#[global] Instance byte_eq_dec : EqDecision byte := Byte.byte_eq_dec.

(** What the language gives the contract: the hash of a vector of two
    [Bytes<32>], the cast [x as Field as Bytes<32>] of a counter value,
    and what an increment of a counter does when the sum leaves
    [Uint<64>]. *)
Class CompactRuntime : Type := {
  persistent_hash : list byte -> list byte -> list byte;
  field_as_bytes : Z -> list byte;
  counter_overflow : Z -> Z -> option Z;
}.

(** How a circuit ends: with its result and the new ledger, or on a
    failed [assert] (or a failed ledger operation), nothing written. *)
Inductive Outcome (A : Type) : Type :=
| Done (result : A)
| Fails (reason : string).
Arguments Done {A} result.
Arguments Fails {A} reason.

(** The exported ledger fields. *)
Record LedgerState : Type := {
  state : BoardCli.STATE;
  title : string;
  message : BoardCli.Maybe string;
  instance : Z;
  poster : list byte;
}.

(** [none<Opaque<"string">>()] and [some<Opaque<"string">>(v)]. *)
Definition none : BoardCli.Maybe string :=
  {| BoardCli.is_some := false; BoardCli.value := "" |}.

Definition some (v : string) : BoardCli.Maybe string :=
  {| BoardCli.is_some := true; BoardCli.value := v |}.

(** The ledger before the constructor has run: every field at the default
    of its type. *)
Definition initial : LedgerState :=
  {| state := BoardCli.vacant;
     title := "";
     message := none;
     instance := 0;
     poster := replicate 32 Byte.x00 |}.

(** [pad(n, s)]: the bytes of [s], filled with zeros up to [n]. *)
Definition pad (n : nat) (s : string) : list byte :=
  (list_byte_of_string s ++ replicate (n - String.length s) Byte.x00)%list.

Section Circuits.
Context `{CompactRuntime}.

(** [Counter.increment(amount)]. *)
Definition increment (amount : Z) (counter : Z) : Outcome Z :=
  if bool_decide (counter + amount < 2 ^ 64)%Z then Done (counter + amount)%Z
  else
    match counter_overflow counter amount with
    | Some c => Done c
    | None => Fails "counter overflow"
    end.

Definition public_key (sk instance : list byte) : list byte :=
  persistent_hash (persistent_hash (pad 32 "bboard:pk:") instance) sk.

(** [constructor(titleprop)], on the default ledger. *)
Definition constructor (titleprop : string) : Outcome LedgerState :=
  match increment 1 (instance initial) with
  | Done i =>
      Done {| state := BoardCli.vacant;
              title := titleprop;
              message := none;
              instance := i;
              poster := poster initial |}
  | Fails reason => Fails reason
  end.

(** [post(messageprop)]; [sk] is what the witness [local_secret_key]
    returns. *)
Definition post (sk : list byte) (messageprop : string) (l : LedgerState)
  : Outcome (LedgerState * unit) :=
  match state l with
  | BoardCli.vacant =>
      Done ({| state := BoardCli.occupied;
               title := title l;
               message := some messageprop;
               instance := instance l;
               poster := public_key sk (field_as_bytes (instance l)) |},
            tt)
  | BoardCli.occupied => Fails "Attempted to post to an occupied board"
  end.

(** [take_down()], returning the message taken down. *)
Definition take_down (sk : list byte) (l : LedgerState)
  : Outcome (LedgerState * string) :=
  match state l with
  | BoardCli.vacant => Fails "Attempted to take down post from an empty board"
  | BoardCli.occupied =>
      if bool_decide (poster l = public_key sk (field_as_bytes (instance l)))
      then
        let former_msg := BoardCli.value (message l) in
        match increment 1 (instance l) with
        | Done i =>
            Done ({| state := BoardCli.vacant;
                     title := title l;
                     message := none;
                     instance := i;
                     poster := poster l |},
                  former_msg)
        | Fails reason => Fails reason
        end
      else Fails "Attempted to take down post, but not the current poster"
  end.

(** A call of an exported circuit with the secret key its witness hands
    out. *)
Inductive Call : Type :=
| Post (sk : list byte) (messageprop : string)
| TakeDown (sk : list byte).

(** The ledger after a call: a call that fails is rejected and writes
    nothing. *)
Definition submit (l : LedgerState) (c : Call) : LedgerState :=
  match c with
  | Post sk m =>
      match post sk m l with Done (l', _) => l' | Fails _ => l end
  | TakeDown sk =>
      match take_down sk l with Done (l', _) => l' | Fails _ => l end
  end.

Definition accepted (l : LedgerState) (c : Call) : bool :=
  match c with
  | Post sk m => match post sk m l with Done _ => true | Fails _ => false end
  | TakeDown sk =>
      match take_down sk l with Done _ => true | Fails _ => false end
  end.

(** The ledger after a run of calls, and how many take-downs went
    through. *)
Definition history (calls : list Call) (l : LedgerState) : LedgerState :=
  fold_left submit calls l.

Fixpoint taken_down (calls : list Call) (l : LedgerState) : nat :=
  match calls with
  | [] => 0
  | c :: rest =>
      (match c with
       | TakeDown _ => if accepted l c then 1 else 0
       | Post _ _ => 0
       end + taken_down rest (submit l c))%nat
  end.

End Circuits.
End BBoardContract.

(** ** Starting up: the wallet choice and the port mapping (the same text
    in both drivers) *)

Module Startup.

Definition GENESIS_MINT_WALLET_SEED : string :=
  "0000000000000000000000000000000000000000000000000000000000000042".

Definition WALLET_LOOP_QUESTION : string := "
You can do one of the following:
  1. Build a fresh wallet
  2. Build wallet from a seed
  3. Exit
Which would you like to do? ".

(** Where [buildWallet] stands at the end of the answers it was given:
    suspended at a question, waiting for funds on the wallet it built,
    returned without a wallet ([null]), or returned with the wallet built
    from [seed], whose balance it logged. *)
Inductive Built : Type :=
| AwaitingAnswer (question : string)
| AwaitingFunds (seed : string)
| NoWallet
| Ready (seed : string) (balance : Z).

Section BuildWallet.
(** [nativeToken()] of the ledger package. *)
Variable nativeToken : string.
(** [WalletBuilder.buildFromSeed] and the wallet it gives: it throws on a
    seed it cannot use, and otherwise the wallet reports a first state
    and, to a later subscription, further states at their times. *)
Variable buildFromSeed :
  string -> completion (Wallet.WalletState * list (Z * Wallet.WalletState)).

Definition buildWalletAndWaitForFunds (seed : string) : M Built :=
  fun w =>
    match buildFromSeed seed with
    | Throw e => (w, Throw e)
    | Return (state, states) =>
        let '(lines, balance) :=
          Wallet.buildWalletAndWaitForFunds nativeToken seed state states in
        (with_logged (logged w ++ lines)%list w,
         Return match balance with
                | Some b => Ready seed b
                | None => AwaitingFunds seed
                end)
    end.

Definition buildFreshWallet : M Built :=
  bytes ← utils.randomBytes 32;
  buildWalletAndWaitForFunds (toHex bytes).

(** [buildWalletFromSeed], the seed being the next answer. *)
Definition buildWalletFromSeed (answers : list string) : M Built :=
  match answers with
  | [] => mret (AwaitingAnswer "Enter your wallet seed: ")
  | seed :: _ => buildWalletAndWaitForFunds seed
  end.

(** The loop of [buildWallet] on the answers the user gives. *)
Fixpoint chooseWallet (answers : list string) : M Built :=
  match answers with
  | [] => mret (AwaitingAnswer WALLET_LOOP_QUESTION)
  | choice :: rest =>
      match choice with
      | "1" => buildFreshWallet
      | "2" => buildWalletFromSeed rest
      | "3" => logger.log info "Exiting...";; mret NoWallet
      | _ =>
          logger.log error ("Invalid choice: " +:+ choice);;
          chooseWallet rest
      end
  end.

(** [buildWallet]; [standalone] is [config instanceof StandaloneConfig]. *)
Definition buildWallet (standalone : bool) (answers : list string) : M Built :=
  if standalone then buildWalletAndWaitForFunds GENESIS_MINT_WALLET_SEED
  else chooseWallet answers.

End BuildWallet.

(** [s.replace(/\/+$/, '')]: the run of slashes at the end of [s], if
    any, is removed. *)
Fixpoint onlySlashes (s : string) : bool :=
  match s with
  | EmptyString => true
  | String c rest => bool_decide (c = "/"%char) && onlySlashes rest
  end.

Fixpoint dropTrailingSlashes (s : string) : string :=
  match s with
  | EmptyString => EmptyString
  | String c rest =>
      if onlySlashes s then EmptyString
      else String c (dropTrailingSlashes rest)
  end.

(** The [URL] class of the host and the containers of the environment. *)
Class Host : Type := {
  URL : Type;
  new_URL : string -> completion URL;
  set_port : URL -> string -> URL;
  URL_toString : URL -> string;
  getFirstMappedPort : string -> completion N;
}.

Definition mapContainerPort `{Host} (url containerName : string)
  : completion string :=
  mappedUrl ← new_URL url;
  port ← getFirstMappedPort containerName;
  mret (dropTrailingSlashes (URL_toString (set_port mappedUrl (pretty port)))).

End Startup.

(** ** Vocabulary of the properties *)

(** The secret [getPrivateState] draws in world [w] when the store has
    none: the next 32 bytes of the random source. *)
Definition freshSecret (w : World) : BBoardPrivateState :=
  createBBoardPrivateState (map (entropy w) (seq (drawn w) 32)).

Section Vocabulary.
Context `{ContractPackage} `{ContractHelpers}.

(** A failed [deploy] from a store without a record leaves the generated
    private state in the store, where the next retrieval finds it. *)
Definition persisted_on_failure (w : World) : Prop :=
  privateStates w !! "bboardPrivateState" = None ->
  forall w' e,
    BBoardAPI.deploy w = (w', Throw e) ->
    privateStates w' !! "bboardPrivateState" = Some (freshSecret w)
    /\ snd (BBoardAPI.getPrivateState w') = Return (freshSecret w).

(** The helpers leave under the private-state key what was there or
    what they were given as initial private state. *)
Definition keeps_private_state : Prop :=
  (forall opts w,
     let k := deploy_privateStateKey opts in
     let w' := fst (deployContract opts w) in
     privateStates w' !! k = privateStates w !! k
     \/ privateStates w' !! k = Some (deploy_initialPrivateState opts))
  /\ (forall opts w,
        let k := find_privateStateKey opts in
        let w' := fst (findDeployedContract opts w) in
        privateStates w' !! k = privateStates w !! k
        \/ privateStates w' !! k = Some (find_initialPrivateState opts)).

(** What [deploy] does once it has its initial private state. *)
Definition deploy_with (ps : BBoardPrivateState) : M BBoardAPI.t :=
  deployedBBoardContract ←
    deployContract {| deploy_privateStateKey := "bboardPrivateState";
                      deploy_initialPrivateState := ps |};
  logger.log trace
    ("contractDeployed: " +:+ contractAddress deployedBBoardContract);;
  BBoardAPI.constructor deployedBBoardContract.

(** What [join] does once it has its initial private state. *)
Definition join_with (address : ContractAddress) (ps : BBoardPrivateState)
  : M BBoardAPI.t :=
  deployedBBoardContract ←
    findDeployedContract
      {| find_contractAddress := address;
         find_privateStateKey := "bboardPrivateState";
         find_initialPrivateState := ps |};
  logger.log trace
    ("contractJoined: " +:+ contractAddress deployedBBoardContract);;
  BBoardAPI.constructor deployedBBoardContract.

(** The derived state of a ledger: its three counters. *)
Definition counters (l : Ledger) : BBoardDerivedState :=
  {| derivedCounter1 := restrictedCounter1 l;
     derivedCounter2 := restrictedCounter2 l;
     derivedCounter3 := restrictedCounter3 l |}.

(** A ledger snapshot arrives in [evs]: the chain-state source produces
    a contract state that the decoder accepts. *)
Definition snapshot_arrives (evs : list SourceEvent) : Prop :=
  exists cs (l : Ledger),
    ContractStateNext cs ∈ evs /\ ledger (data cs) = Return l.

(** A private state arrives in [evs]: the read of the constructor
    settles, and what it read is a record. *)
Definition private_state_arrives (api : BBoardAPI.t)
    (evs : list SourceEvent) : Prop :=
  PrivateStateSettled ∈ evs
  /\ exists ps, BBoardAPI.privateRead api = val ps.

(** Both sources have produced a value, and the subscription and the
    chain-state source are still live. *)
Definition both_arrived (s : BBoardAPI.Subscription) : Prop :=
  BBoardAPI.closed s = false
  /\ BBoardAPI.ledgerDone s = false
  /\ is_Some (BBoardAPI.latestLedger s)
  /\ is_Some (BBoardAPI.latestPrivate s).

(** The snapshots that the contract states [css] decode to. *)
Definition decoded (css : list ContractState) (ls : list Ledger) : Prop :=
  Forall2 (fun cs l => ledger (data cs) = Return l) css ls.

(** What holds of every subscription state reached from [subscribe]: the
    private slot holds what the constructor read, and a live
    subscription with both slots filled has passed the selector. *)
Definition consistent (api : BBoardAPI.t) (s : BBoardAPI.Subscription)
  : Prop :=
  (forall p, BBoardAPI.latestPrivate s = Some p ->
             p = BBoardAPI.privateRead api)
  /\ (BBoardAPI.closed s = false ->
      is_Some (BBoardAPI.latestLedger s) ->
      forall p, BBoardAPI.latestPrivate s = Some p ->
      exists ps, p = val ps
                 /\ returns (public_key (secretKey ps))
                 /\ returns (nullifier (secretKey ps))).

End Vocabulary.

Section DriverVocabulary.
Context `{ContractPackage} `{ContractHelpers}.
#[local] Existing Instance votingApi.

(** A driver that has finished holds no live subscription. *)
Definition closed_when_finished (st : Driver.Loop) : Prop :=
  forall c, Driver.phase st = Driver.Finished c ->
  forall s, Driver.session st = Some s ->
  BBoardAPI.closed (Driver.subscription s) = true.

(** A body that can only [break]. *)
Definition only_continues (body : M Driver.Control) : Prop :=
  forall w w' ctl, body w = (w', Return ctl) -> ctl = Driver.Continue.

(** What the voting driver is, short of a normal return with a contract
    at hand. *)
Definition never_returned (st : Driver.Loop) : Prop :=
  (Driver.phase st = Driver.Finished (Return tt) -> Driver.session st = None)
  /\ (forall q k, Driver.phase st <> Driver.Answering q k).

End DriverVocabulary.

Section FundsVocabulary.
Variable nativeToken : string.

(** A wallet state that resolves the wait: close enough to the tip and
    with a positive balance of the native token. *)
Definition funded (state : Wallet.WalletState) : bool :=
  Wallet.closeEnough state
  && bool_decide
       (nullish (Wallet.nativeBalance nativeToken state) 0 > 0)%Z.

(** Session work starts only on a balance that some observed state of
    the wallet reported while close enough to the tip and funded. *)
Definition gate_precedes_session (seed : string)
    (first : Wallet.WalletState)
    (states : list (Z * Wallet.WalletState)) : Prop :=
  forall b,
    snd (Wallet.buildWalletAndWaitForFunds nativeToken seed first states)
    = Some b ->
    exists st,
      (st = first \/ st ∈ (snd <$> states))
      /\ Wallet.closeEnough st = true
      /\ Wallet.balances st !! nativeToken = Some b
      /\ (b > 0)%Z.

End FundsVocabulary.

(** The resources are released in the reverse of the order of their
    acquisition. *)
Definition reverse_acquisition_teardown (o : Top.Steps) : Prop :=
  Top.releases (fst (Top.run o)) = rev (Top.acquisitions (fst (Top.run o))).

(** How the guarded part of [run] ends: the [try] with its [catch]. *)
Definition guarded_ending (o : Top.Steps) (wallet : nullable unit)
  : Top.Ending unit :=
  if is_null wallet then Top.Normal tt
  else
    match
      (Top.createWalletAndMidnightProvider o ≫= fun _ => Top.mainLoop o)
    with
    | Return _ => Top.Normal tt
    | Throw e => if instanceof_Error e then Top.Normal tt else Top.Abrupt e
    end.

Definition is_return {A} (c : completion A) : bool :=
  match c with Return _ => true | Throw _ => false end.

Section ContractVocabulary.
Context `{BBoardContract.CompactRuntime}.

(** What the circuits keep of a ledger with title [t]: the title, no
    message exactly on a vacant board, a poster made from some secret at
    the current instance while the board is occupied, and an instance
    counter that has left zero. *)
Definition well_formed (t : string) (l : BBoardContract.LedgerState) : Prop :=
  BBoardContract.title l = t
  /\ (BBoardContract.state l = BoardCli.vacant
      <-> BoardCli.is_some (BBoardContract.message l) = false)
  /\ (BBoardContract.state l = BoardCli.occupied ->
      exists sk,
        BBoardContract.poster l
        = BBoardContract.public_key sk
            (BBoardContract.field_as_bytes (BBoardContract.instance l)))
  /\ (1 <= BBoardContract.instance l)%Z.

End ContractVocabulary.

(** The digits of [toHex]. *)
Definition hexDigits : list ascii :=
  ["0"; "1"; "2"; "3"; "4"; "5"; "6"; "7"; "8"; "9";
   "a"; "b"; "c"; "d"; "e"; "f"]%char.

(** A string of [n] hexadecimal digits. *)
Definition hex_string (n : nat) (s : string) : Prop :=
  String.length s = n /\ Forall (fun c => c ∈ hexDigits) (list_ascii_of_string s).

(** The world after the logger was given [lines]. *)
Definition having_logged (lines : list LogEntry) (w : World) : World :=
  with_logged (logged w ++ lines)%list w.

(** One "Invalid choice" line per answer. *)
Definition invalid_choices (answers : list string) : list LogEntry :=
  (fun choice =>
     {| level := error; message := "Invalid choice: " +:+ choice |})
  <$> answers.

(** The last character of a string. *)
Fixpoint lastChar (s : string) : option ascii :=
  match s with
  | EmptyString => None
  | String c EmptyString => Some c
  | String _ rest => lastChar rest
  end.

(** [n] slashes. *)
Fixpoint slashes (n : nat) : string :=
  match n with
  | 0 => EmptyString
  | S k => String "/"%char (slashes k)
  end.

(** The private state [getPrivateState] comes back with in world [w], the
    world it leaves, and what a read of the store gives. *)
Definition retrieved (w : World) : BBoardPrivateState :=
  match privateStates w !! "bboardPrivateState" with
  | Some ps => ps
  | None => freshSecret w
  end.

Definition after_retrieval (w : World) : World :=
  match privateStates w !! "bboardPrivateState" with
  | Some _ => w
  | None => with_drawn (drawn w + 32) w
  end.

Definition stored (w : World) : nullable BBoardPrivateState :=
  match privateStates w !! "bboardPrivateState" with
  | Some ps => val ps
  | None => null
  end.

(** The worlds [w] and [w'] differ in the log at most. *)
Definition same_but_log (w w' : World) : Prop :=
  privateStates w' = privateStates w
  /\ indexer w' = indexer w
  /\ entropy w' = entropy w
  /\ drawn w' = drawn w
  /\ network w' = network w.

(** The circuit a choice of the voting menu submits. *)
Definition vote_of (choice : string) : option CircuitCall :=
  match choice with
  | "2" => Some call_increment1
  | "3" => Some call_increment2
  | "4" => Some call_increment3
  | _ => None
  end.

Section IterationVocabulary.
Context {D : Type} {P : ApiPackage D}.

(** The driver after one pass through the menu loop that ended as [r]
    did: at the menu again, or out of the loop through the [finally]. *)
Definition after_iteration (st : Driver.Loop) (r : World * completion unit)
  : Driver.Loop :=
  match r with
  | (w, Return _) =>
      {| Driver.world := w; Driver.phase := Driver.MainMenu;
         Driver.session := Driver.session st |}
  | (w, Throw e) =>
      {| Driver.world := w; Driver.phase := Driver.Finished (Throw e);
         Driver.session := Driver.finally_unsubscribe <$> Driver.session st |}
  end.

(** What the user types, as opposed to what the sources deliver. *)
Definition typed (inp : Driver.Input) : bool :=
  match inp with Driver.Source _ => false | _ => true end.

End IterationVocabulary.

Section SessionVocabulary.
Context `{ContractPackage} `{ContractHelpers}.
#[local] Existing Instance votingApi.

(** A derived state is the view of a contract state that the chain-state
    source delivered in [script]. *)
Definition delivered_in (script : list Driver.Input)
    (d : BBoardDerivedState) : Prop :=
  exists cs (l : Ledger),
    Driver.Source (ContractStateNext cs) ∈ script
    /\ ledger (data cs) = Return l
    /\ d = counters l.

End SessionVocabulary.

Section TrackingVocabulary.
Context `{ContractPackage} `{ContractHelpers}.
#[local] Existing Instance votingApi.

(** What holds of the driver after the inputs [script]: no session before
    a contract is at hand; in a session, the current state is the last
    one observed, and the ledger in the subscription and every state
    observed come from contract states delivered in [script]. *)
Definition tracked (script : list Driver.Input) (st : Driver.Loop) : Prop :=
  (Driver.phase st = Driver.DeployOrJoin
   \/ Driver.phase st = Driver.JoinAddress ->
   Driver.session st = None)
  /\ forall s,
       Driver.session st = Some s ->
       Driver.currentState s = last (Driver.observed s)
       /\ Forall (delivered_in script) (Driver.observed s)
       /\ forall l,
            BBoardAPI.latestLedger (Driver.subscription s) = Some l ->
            exists cs,
              Driver.Source (ContractStateNext cs) ∈ script
              /\ ledger (data cs) = Return l.

End TrackingVocabulary.

(** What an observer may be told: values, then at most one error or
    completion, and nothing after it. *)
Definition terminal {D} (n : Notification D) : bool :=
  match n with Next _ => false | _ => true end.

Fixpoint values_then_one_end {D} (out : list (Notification D)) : bool :=
  match out with
  | [] => true
  | n :: rest =>
      if terminal n then match rest with [] => true | _ => false end
      else values_then_one_end rest
  end.

(** The last thing told was an error or a completion. *)
Definition ended {D} (out : list (Notification D)) : bool :=
  match last out with Some n => terminal n | None => false end.

(** ** Concrete collaborators, for running the definitions *)

Module Samples.

(** A contract package whose ledger is three counter bytes and whose
    circuits insist on 32-byte keys. *)
Definition contract : ContractPackage :=
  {| voting_ledger :=
       {| ledger bytes :=
            match bytes with
            | [a; b; c] =>
                Return {| authorizedCommitments := [];
                          authorizedNullifiers := [];
                          restrictedCounter1 := Z.of_nat (Byte.to_nat a);
                          restrictedCounter2 := Z.of_nat (Byte.to_nat b);
                          restrictedCounter3 := Z.of_nat (Byte.to_nat c) |}
            | _ => Throw (JsError "expected a cell layout of three counters")
            end |};
     public_key sk :=
       if bool_decide (length sk = 32) then Return (rev sk)
       else Throw (JsError "type error: expected Bytes<32>");
     nullifier sk :=
       if bool_decide (length sk = 32) then Return sk
       else Throw (JsError "type error: expected Bytes<32>");
     collection_toString _ := "[object Object]" |}.

Definition store (ps : BBoardPrivateState) (key : string) (w : World) : World :=
  {| privateStates := <[key := ps]> (privateStates w); indexer := indexer w;
     entropy := entropy w; drawn := drawn w; network := network w;
     logged := logged w |}.

(** Helpers that always succeed and record the private state they were
    given under the key they were given. *)
Definition helpers : ContractHelpers :=
  {| deployContract opts w :=
       (store (deploy_initialPrivateState opts) (deploy_privateStateKey opts) w,
        Return {| contractAddress := "0200c0ffee" |});
     findDeployedContract opts w :=
       (store (find_initialPrivateState opts) (find_privateStateKey opts) w,
        Return {| contractAddress := find_contractAddress opts |});
     callTx _ _ w := (w, Return tt) |}.

(** Helpers whose every submission is rejected, the world left as it
    was. *)
Definition rejecting : ContractHelpers :=
  {| deployContract _ w := (w, Throw (JsError "DeploymentError"));
     findDeployedContract _ w := (w, Throw (JsError "NotFound"));
     callTx _ _ w := (w, Throw (JsError "CallRejected")) |}.

(** Helpers that deploy and attach like [helpers] and reject every
    call. *)
Definition flaky : ContractHelpers :=
  {| deployContract := @deployContract helpers;
     findDeployedContract := @findDeployedContract helpers;
     callTx _ _ w := (w, Throw (JsError "CallRejected")) |}.

(** A world with an empty store and no contract anywhere. *)
Definition fresh : World :=
  {| privateStates := ∅;
     indexer _ := Return null;
     entropy n := default Byte.x00 (Byte.of_nat (n mod 256));
     drawn := 0;
     network := 0;
     logged := [] |}.

Definition secret : BBoardPrivateState :=
  createBBoardPrivateState (replicate 32 Byte.x2a).

(** A world whose store holds a record and whose indexer knows one
    contract. *)
Definition settled : World :=
  {| privateStates := {[ "bboardPrivateState" := secret ]};
     indexer a :=
       if bool_decide (a = "0200c0ffee")
       then Return (val {| data := [Byte.x01; Byte.x02; Byte.x03] |})
       else if bool_decide (a = "0200bad")
       then Return (val {| data := [Byte.x01] |})
       else Return null;
     entropy n := default Byte.x00 (Byte.of_nat (n mod 256));
     drawn := 0;
     network := 0;
     logged := [] |}.

Definition api : BBoardAPI.t :=
  {| BBoardAPI.deployedContract := {| contractAddress := "0200c0ffee" |};
     BBoardAPI.deployedContractAddress := "0200c0ffee";
     BBoardAPI.privateRead := val secret |}.

Definition synced_state (balance : Z) : Wallet.WalletState :=
  {| Wallet.syncProgress := val {| Wallet.synced := 950; Wallet.total := 1000 |};
     Wallet.balances := {[ "native" := balance ]};
     Wallet.address := "addr1" |}.

Definition unsynced_state (balance : Z) : Wallet.WalletState :=
  {| Wallet.syncProgress := undefined;
     Wallet.balances := {[ "native" := balance ]};
     Wallet.address := "addr1" |}.

(** A run of [run] in which every step completes normally. *)
Definition smooth : Top.Steps :=
  {| Top.dockerEnv := true;
     Top.up := Return tt;
     Top.buildWallet := Return (val tt);
     Top.createWalletAndMidnightProvider := Return tt;
     Top.mainLoop := Return tt;
     Top.rli_close := Return tt;
     Top.rli_removeAllListeners := Return tt;
     Top.wallet_close := Return tt;
     Top.env_down := Return tt |}.

(** A run in which the menu loop and every teardown step throw. *)
Definition stormy : Top.Steps :=
  {| Top.dockerEnv := true;
     Top.up := Return tt;
     Top.buildWallet := Return (val tt);
     Top.createWalletAndMidnightProvider := Return tt;
     Top.mainLoop := Throw (JsError "CallRejected");
     Top.rli_close := Throw (JsError "readline closed");
     Top.rli_removeAllListeners := Return tt;
     Top.wallet_close := Throw (JsError "wallet gone");
     Top.env_down := Throw (JsError "compose down failed") |}.

End Samples.

(** ** Further concrete collaborators *)

Module Scenarios.

(** A runtime whose hash is concatenation, whose cast keeps the low byte
    and whose counters fail past [Uint<64>]. *)
Definition runtime : BBoardContract.CompactRuntime :=
  {| BBoardContract.persistent_hash a b := (a ++ b)%list;
     BBoardContract.field_as_bytes n :=
       [default Byte.x00 (Byte.of_nat (Z.to_nat n mod 256))];
     BBoardContract.counter_overflow _ _ := None |}.

Definition alice : list byte := replicate 32 Byte.x2a.
Definition bob : list byte := replicate 32 Byte.x07.

(** The board as the constructor leaves it, and with a message of
    [alice]. *)
Definition vacant_board : BBoardContract.LedgerState :=
  {| BBoardContract.state := BoardCli.vacant;
     BBoardContract.title := "Notices";
     BBoardContract.message := BBoardContract.none;
     BBoardContract.instance := 1;
     BBoardContract.poster := replicate 32 Byte.x00 |}.

Definition occupied_board : BBoardContract.LedgerState :=
  @BBoardContract.submit runtime vacant_board
    (BBoardContract.Post alice "hello").

(** A wallet builder that insists on seeds of 64 characters. *)
Definition buildFromSeed (seed : string)
  : completion (Wallet.WalletState * list (Z * Wallet.WalletState)) :=
  if bool_decide (String.length seed = 64)
  then Return (Samples.synced_state 5, [])
  else Throw (JsError "invalid seed").

(** A host whose URLs are kept as written, the port appended. *)
Definition host : Startup.Host :=
  {| Startup.URL := string;
     Startup.new_URL url :=
       if bool_decide (url = "") then Throw (JsError "Invalid URL")
       else Return url;
     Startup.set_port url port := url +:+ ":" +:+ port +:+ "//";
     Startup.URL_toString url := url;
     Startup.getFirstMappedPort name :=
       if bool_decide (name = "bboard-node") then Return 32768%N
       else Throw (JsError "no such container") |}.

(** An API instance made while the store had no record. *)
Definition unkeyed : BBoardAPI.t :=
  {| BBoardAPI.deployedContract := {| contractAddress := "0200c0ffee" |};
     BBoardAPI.deployedContractAddress := "0200c0ffee";
     BBoardAPI.privateRead := null |}.

(** A run of [run] in which [buildWallet] throws. *)
Definition walletless : Top.Steps :=
  {| Top.dockerEnv := true;
     Top.up := Return tt;
     Top.buildWallet := Throw (JsError "invalid seed");
     Top.createWalletAndMidnightProvider := Return tt;
     Top.mainLoop := Return tt;
     Top.rli_close := Return tt;
     Top.rli_removeAllListeners := Return tt;
     Top.wallet_close := Return tt;
     Top.env_down := Return tt |}.

(** A board API that deploys at once, whose stream is silent, and whose
    subscription is a flag. *)
Definition boardDecoder : LedgerDecoder BoardCli.BoardLedger :=
  {| ledger _ := Throw (JsError "expected the layout of a board") |}.

Definition boardApi : ApiPackage BoardCli.BoardDerivedState :=
  {| Api := DeployedBBoardContract;
     Subscr := bool;
     api_deploy w := (w, Return {| contractAddress := "0200c0ffee" |});
     api_join address w := (w, Return {| contractAddress := address |});
     api_deployedContractAddress := contractAddress;
     api_deployedContract a := a;
     api_subscribe := false;
     api_unsubscribe _ := true;
     api_deliver _ _ s := (s, []) |}.

(** [post] that rejects the empty message, and [takeDown] that always
    goes through. *)
Definition post (a : @Api _ boardApi) (message : string) : M unit :=
  fun w =>
    if bool_decide (message = "") then (w, Throw (JsError "CallRejected"))
    else (w, Return tt).

Definition takeDown (a : @Api _ boardApi) : M unit :=
  fun w => (w, Return tt).

(** The drivers at their menus, on the contract at 0200c0ffee. *)
Definition voting_at_menu
  : @Driver.Loop _ (@votingApi Samples.contract Samples.flaky) :=
  {| Driver.world := Samples.settled;
     Driver.phase := Driver.MainMenu;
     Driver.session :=
       Some (@Driver.subscribed _ (@votingApi Samples.contract Samples.flaky)
               Samples.api) |}.

Definition board_at_menu : @Driver.Loop _ boardApi :=
  {| Driver.world := Samples.fresh;
     Driver.phase := Driver.MainMenu;
     Driver.session :=
       Some (@Driver.subscribed _ boardApi
               {| contractAddress := "0200c0ffee" |}) |}.

End Scenarios.

(** * Properties *)

(** ** Session establishment and the private state store *)

Section Establishment.
Context `{ContractPackage} `{ContractHelpers}.

Lemma getPrivateState_existing (w : World) (ps : BBoardPrivateState) :
  privateStates w !! "bboardPrivateState" = Some ps ->
  BBoardAPI.getPrivateState w = (w, Return ps).
Proof.
  intros Hps. unfold BBoardAPI.getPrivateState, mbind, M_bind.
  unfold privateStateProvider.get. rewrite Hps. reflexivity.
Qed.

Lemma getPrivateState_absent (w : World) :
  privateStates w !! "bboardPrivateState" = None ->
  BBoardAPI.getPrivateState w
  = (with_drawn (drawn w + 32) w, Return (freshSecret w)).
Proof.
  intros Hps. unfold BBoardAPI.getPrivateState, mbind, M_bind.
  unfold privateStateProvider.get. rewrite Hps. reflexivity.
Qed.

Lemma freshSecret_length (w : World) : length (secretKey (freshSecret w)) = 32.
Proof.
  unfold freshSecret, createBBoardPrivateState. cbn [secretKey].
  by rewrite length_map, length_seq.
Qed.

(** [getPrivateState] never writes the store. *)
Lemma getPrivateState_store (w : World) :
  privateStates (fst (BBoardAPI.getPrivateState w)) = privateStates w.
Proof.
  destruct (privateStates w !! "bboardPrivateState") as [ps|] eqn:Hps.
  - by rewrite (getPrivateState_existing w ps).
  - by rewrite getPrivateState_absent.
Qed.

End Establishment.

Section EstablishmentClaims.
Context `{ContractPackage} `{ContractHelpers}.

Lemma deploy_existing (w : World) (ps : BBoardPrivateState) :
  privateStates w !! "bboardPrivateState" = Some ps ->
  BBoardAPI.deploy w
  = deploy_with ps (fst (logger.log info "deployContract" w)).
Proof.
  intros Hps. unfold BBoardAPI.deploy, deploy_with.
  unfold mbind at 1, M_bind at 1. cbn [logger.log fst].
  unfold mbind at 1, M_bind at 1.
  rewrite (getPrivateState_existing _ ps); [reflexivity | exact Hps].
Qed.

Lemma join_existing (address : ContractAddress) (w : World)
    (ps : BBoardPrivateState) :
  privateStates w !! "bboardPrivateState" = Some ps ->
  BBoardAPI.join address w
  = join_with address ps
      (fst (logger.log info ("joinContract: " +:+ address) w)).
Proof.
  intros Hps. unfold BBoardAPI.join, join_with.
  unfold mbind at 1, M_bind at 1. cbn [logger.log fst].
  unfold mbind at 1, M_bind at 1.
  rewrite (getPrivateState_existing _ ps); [reflexivity | exact Hps].
Qed.

Lemma deploy_absent (w : World) :
  privateStates w !! "bboardPrivateState" = None ->
  BBoardAPI.deploy w
  = deploy_with (freshSecret (fst (logger.log info "deployContract" w)))
      (with_drawn (drawn w + 32) (fst (logger.log info "deployContract" w))).
Proof.
  intros Hps. unfold BBoardAPI.deploy, deploy_with.
  unfold mbind at 1, M_bind at 1. cbn [logger.log fst].
  unfold mbind at 1, M_bind at 1.
  rewrite getPrivateState_absent; [reflexivity | exact Hps].
Qed.

Lemma constructor_world (dc : DeployedBBoardContract) (w : World) :
  fst (BBoardAPI.constructor dc w) = w.
Proof. reflexivity. Qed.

(** A [deploy] or [join] that got as far as the helper leaves the record
    under the key as it found it, when the helpers do. *)
Lemma deploy_with_keeps (ps : BBoardPrivateState) (w : World) :
  keeps_private_state ->
  privateStates w !! "bboardPrivateState" = Some ps ->
  privateStates (fst (deploy_with ps w)) !! "bboardPrivateState" = Some ps.
Proof.
  intros [Hd _] Hps. unfold deploy_with, mbind, M_bind.
  specialize (Hd {| deploy_privateStateKey := "bboardPrivateState";
                    deploy_initialPrivateState := ps |} w).
  cbn [deploy_privateStateKey deploy_initialPrivateState] in Hd.
  destruct (deployContract _ w) as [w1 [dc|e]]; cbn [fst] in *.
  - cbn. rewrite constructor_world. cbn. destruct Hd as [-> | ->]; done.
  - destruct Hd as [-> | ->]; done.
Qed.

Lemma join_with_keeps (address : ContractAddress) (ps : BBoardPrivateState)
    (w : World) :
  keeps_private_state ->
  privateStates w !! "bboardPrivateState" = Some ps ->
  privateStates (fst (join_with address ps w)) !! "bboardPrivateState"
  = Some ps.
Proof.
  intros [_ Hf] Hps. unfold join_with, mbind, M_bind.
  specialize (Hf {| find_contractAddress := address;
                    find_privateStateKey := "bboardPrivateState";
                    find_initialPrivateState := ps |} w).
  cbn [find_privateStateKey find_initialPrivateState] in Hf.
  destruct (findDeployedContract _ w) as [w1 [dc|e]]; cbn [fst] in *.
  - cbn. rewrite constructor_world. cbn. destruct Hf as [-> | ->]; done.
  - destruct Hf as [-> | ->]; done.
Qed.

(** C1, as the code has it.  When [deploy] fails after drawing a fresh
    private state, the failure is the failure of the [deployContract]
    helper, which was handed the fresh state; [deploy] wrote nothing to
    the store before the call and the world it ends in is the one the
    helper left.  The fresh state is in the store only if the helper put
    it there, and when the key is still missing the next retrieval (of a
    later [deploy] or [join]) draws the next 32 bytes of the random
    source. *)
Theorem failed_deploy_leaves_the_store_to_the_helper
    (w w' : World) (e : thrown) :
  privateStates w !! "bboardPrivateState" = None ->
  BBoardAPI.deploy w = (w', Throw e) ->
  let w0 :=
    with_drawn (drawn w + 32) (fst (logger.log info "deployContract" w)) in
  deployContract
    {| deploy_privateStateKey := "bboardPrivateState";
       deploy_initialPrivateState := freshSecret w |} w0
  = (w', Throw e)
  /\ privateStates w0 = privateStates w
  /\ (privateStates w' !! "bboardPrivateState" = None ->
      BBoardAPI.getPrivateState w'
      = (with_drawn (drawn w' + 32) w', Return (freshSecret w'))).
Proof.
  intros Hps Hfail w0. split; [| split].
  - rewrite (deploy_absent w Hps) in Hfail.
    unfold deploy_with, mbind, M_bind in Hfail.
    change (freshSecret (fst (logger.log info "deployContract" w)))
      with (freshSecret w) in Hfail.
    fold w0 in Hfail.
    destruct (deployContract _ w0) as [w1 [dc|e1]].
    + cbn in Hfail. discriminate Hfail.
    + by injection Hfail as -> ->.
  - reflexivity.
  - apply getPrivateState_absent.
Qed.

(** C3.  When the store holds a record under ["bboardPrivateState"],
    [getPrivateState] returns it and leaves the world, and with it the
    random source, untouched; [deploy] and [join] hand that very record
    to their helper as the initial private state of the session.  A
    fresh secret, the next 32 bytes of the random source, is made when
    the store has no record.  With helpers that leave the record under
    the key in place, the retrieval after a [deploy] or a [join] returns
    the same record again. *)
Theorem existing_private_state_is_reused
    (w : World) (ps : BBoardPrivateState) (address : ContractAddress) :
  privateStates w !! "bboardPrivateState" = Some ps ->
  keeps_private_state ->
  BBoardAPI.getPrivateState w = (w, Return ps)
  /\ BBoardAPI.deploy w
     = deploy_with ps (fst (logger.log info "deployContract" w))
  /\ BBoardAPI.join address w
     = join_with address ps
         (fst (logger.log info ("joinContract: " +:+ address) w))
  /\ (forall w0,
        privateStates w0 !! "bboardPrivateState" = None ->
        BBoardAPI.getPrivateState w0
        = (with_drawn (drawn w0 + 32) w0, Return (freshSecret w0))
        /\ length (secretKey (freshSecret w0)) = 32)
  /\ (forall w0,
        drawn (fst (BBoardAPI.getPrivateState w0)) <> drawn w0 ->
        privateStates w0 !! "bboardPrivateState" = None)
  /\ (let w1 := fst (BBoardAPI.deploy w) in
      BBoardAPI.getPrivateState w1 = (w1, Return ps))
  /\ (let w1 := fst (BBoardAPI.join address w) in
      BBoardAPI.getPrivateState w1 = (w1, Return ps)).
Proof.
  intros Hps Hkeep.
  split; [by apply getPrivateState_existing |].
  split; [by apply deploy_existing |].
  split; [by apply join_existing |].
  split.
  { intros w0 Habsent. split; [by apply getPrivateState_absent |].
    apply freshSecret_length. }
  split.
  { intros w0 Hdrawn.
    destruct (privateStates w0 !! "bboardPrivateState") as [ps0|] eqn:Hw0;
      [| reflexivity].
    rewrite (getPrivateState_existing w0 ps0 Hw0) in Hdrawn. done. }
  split.
  - intros w1. apply getPrivateState_existing. subst w1.
    rewrite (deploy_existing w ps Hps). by apply deploy_with_keeps.
  - intros w1. apply getPrivateState_existing. subst w1.
    rewrite (join_existing address w ps Hps). by apply join_with_keeps.
Qed.

(** The value of the selector, when it returns one. *)
Lemma stateProjection_value (l : Ledger) (p : nullable BBoardPrivateState)
    (d : BBoardDerivedState) :
  BBoardAPI.stateProjection l p = Return d -> d = counters l.
Proof.
  unfold BBoardAPI.stateProjection, mbind, completion_bind, mret,
    completion_ret.
  destruct p as [| |ps]; cbn; try discriminate.
  destruct (public_key (secretKey ps)); [| discriminate].
  destruct (nullifier (secretKey ps)); [| discriminate].
  by intros [= <-].
Qed.

Lemma stateProjection_returns (l : Ledger) (ps : BBoardPrivateState) :
  returns (public_key (secretKey ps)) ->
  returns (nullifier (secretKey ps)) ->
  BBoardAPI.stateProjection l (val ps) = Return (counters l).
Proof.
  intros [pk Hpk] [nf Hnf].
  unfold BBoardAPI.stateProjection, mbind, completion_bind, mret,
    completion_ret. cbn. by rewrite Hpk, Hnf.
Qed.

(** The selector returns on a private state exactly when both circuits
    return on its secret key. *)
Lemma stateProjection_returns_inv (l : Ledger)
    (p : nullable BBoardPrivateState) (d : BBoardDerivedState) :
  BBoardAPI.stateProjection l p = Return d ->
  exists ps, p = val ps
             /\ returns (public_key (secretKey ps))
             /\ returns (nullifier (secretKey ps)).
Proof.
  unfold BBoardAPI.stateProjection, mbind, completion_bind, mret,
    completion_ret.
  destruct p as [| |ps]; cbn; try discriminate.
  destruct (public_key (secretKey ps)) as [pk|] eqn:Hpk; [| discriminate].
  destruct (nullifier (secretKey ps)) as [nf|] eqn:Hnf; [| discriminate].
  intros _. exists ps. unfold returns. eauto.
Qed.

(** C9.  For one ledger snapshot and any two private states on whose
    secret keys the two pure circuits return, the selector of [state$]
    returns the same derived state, the three counters of the snapshot:
    the hashed key and the nullifier it computes do not reach the
    record it returns. *)
Theorem derived_state_ignores_private_state
    (l : Ledger) (ps1 ps2 : BBoardPrivateState) :
  returns (public_key (secretKey ps1)) ->
  returns (nullifier (secretKey ps1)) ->
  returns (public_key (secretKey ps2)) ->
  returns (nullifier (secretKey ps2)) ->
  BBoardAPI.stateProjection l (val ps1) = BBoardAPI.stateProjection l (val ps2)
  /\ BBoardAPI.stateProjection l (val ps1)
     = Return {| derivedCounter1 := restrictedCounter1 l;
                 derivedCounter2 := restrictedCounter2 l;
                 derivedCounter3 := restrictedCounter3 l |}.
Proof.
  intros Hp1 Hn1 Hp2 Hn2.
  rewrite (stateProjection_returns l ps1 Hp1 Hn1).
  rewrite (stateProjection_returns l ps2 Hp2 Hn2).
  split; reflexivity.
Qed.

End EstablishmentClaims.

(** The helpers of [Samples.helpers] record what they are given. *)
Lemma sample_helpers_keep :
  @keeps_private_state Samples.helpers.
Proof.
  split; intros opts w; right; cbn; apply lookup_insert_eq.
Qed.

(** With helpers that reject the deployment and leave the world alone, a
    [deploy] from an empty store fails and the store is still empty: the
    secret it generated is lost. *)
Lemma failed_deploy_loses_the_secret :
  ~ @persisted_on_failure Samples.rejecting Samples.fresh.
Proof.
  intros Hp.
  destruct (Hp eq_refl
              (fst (@BBoardAPI.deploy Samples.rejecting
                      Samples.fresh))
              (JsError "DeploymentError") eq_refl) as [Hstore _].
  vm_compute in Hstore. discriminate Hstore.
Qed.

(** The secret a second [deploy] draws after such a failure is another
    one. *)
Example second_deploy_draws_another_secret :
  let w' :=
    fst (@BBoardAPI.deploy Samples.rejecting Samples.fresh) in
  snd (@BBoardAPI.getPrivateState w') <> Return (freshSecret Samples.fresh).
Proof. vm_compute. discriminate. Qed.

Lemma failed_deploy_leaves_the_store_to_the_helper_witness :
  let w := Samples.fresh in
  let w' := fst (@BBoardAPI.deploy Samples.rejecting w) in
  let e := JsError "DeploymentError" in
  privateStates w !! "bboardPrivateState" = None
  /\ @BBoardAPI.deploy Samples.rejecting w = (w', Throw e)
  /\ (let w0 :=
        with_drawn (drawn w + 32)
          (fst (logger.log info "deployContract" w)) in
      @deployContract Samples.rejecting
        {| deploy_privateStateKey := "bboardPrivateState";
           deploy_initialPrivateState := freshSecret w |} w0
      = (w', Throw e)
      /\ privateStates w0 = privateStates w
      /\ (privateStates w' !! "bboardPrivateState" = None ->
          BBoardAPI.getPrivateState w'
          = (with_drawn (drawn w' + 32) w', Return (freshSecret w')))).
Proof.
  intros w w' e.
  split; [reflexivity |]. split; [reflexivity |].
  apply (@failed_deploy_leaves_the_store_to_the_helper
           Samples.rejecting w w' e); reflexivity.
Defined.

Lemma existing_private_state_is_reused_witness :
  let w := Samples.settled in
  let ps := Samples.secret in
  let address := "0200c0ffee" in
  privateStates w !! "bboardPrivateState" = Some ps
  /\ @keeps_private_state Samples.helpers
  /\ (BBoardAPI.getPrivateState w = (w, Return ps)
      /\ @BBoardAPI.deploy Samples.helpers w
         = @deploy_with Samples.helpers ps
             (fst (logger.log info "deployContract" w))
      /\ @BBoardAPI.join Samples.helpers address w
         = @join_with Samples.helpers address ps
             (fst (logger.log info ("joinContract: " +:+ address) w))
      /\ (forall w0,
            privateStates w0 !! "bboardPrivateState" = None ->
            BBoardAPI.getPrivateState w0
            = (with_drawn (drawn w0 + 32) w0, Return (freshSecret w0))
            /\ length (secretKey (freshSecret w0)) = 32)
      /\ (forall w0,
            drawn (fst (BBoardAPI.getPrivateState w0)) <> drawn w0 ->
            privateStates w0 !! "bboardPrivateState" = None)
      /\ (let w1 :=
            fst (@BBoardAPI.deploy Samples.helpers w) in
          BBoardAPI.getPrivateState w1 = (w1, Return ps))
      /\ (let w1 :=
            fst (@BBoardAPI.join Samples.helpers address w) in
          BBoardAPI.getPrivateState w1 = (w1, Return ps))).
Proof.
  intros w ps address.
  split; [reflexivity |]. split; [exact sample_helpers_keep |].
  apply (@existing_private_state_is_reused
           Samples.helpers w ps address);
    [reflexivity | exact sample_helpers_keep].
Defined.

Lemma derived_state_ignores_private_state_witness :
  let l :=
    {| authorizedCommitments := []; authorizedNullifiers := [];
       restrictedCounter1 := 4; restrictedCounter2 := 0;
       restrictedCounter3 := 7 |} in
  let ps1 := Samples.secret in
  let ps2 := createBBoardPrivateState (replicate 32 Byte.x07) in
  returns (@public_key Samples.contract (secretKey ps1))
  /\ returns (@nullifier Samples.contract (secretKey ps1))
  /\ returns (@public_key Samples.contract (secretKey ps2))
  /\ returns (@nullifier Samples.contract (secretKey ps2))
  /\ (@BBoardAPI.stateProjection Samples.contract l (val ps1)
      = @BBoardAPI.stateProjection Samples.contract l (val ps2)
      /\ @BBoardAPI.stateProjection Samples.contract l (val ps1)
         = Return {| derivedCounter1 := 4; derivedCounter2 := 0;
                     derivedCounter3 := 7 |}).
Proof.
  intros l ps1 ps2.
  assert (H1 : returns (@public_key Samples.contract (secretKey ps1)))
    by (eexists; reflexivity).
  assert (H2 : returns (@nullifier Samples.contract (secretKey ps1)))
    by (eexists; reflexivity).
  assert (H3 : returns (@public_key Samples.contract (secretKey ps2)))
    by (eexists; reflexivity).
  assert (H4 : returns (@nullifier Samples.contract (secretKey ps2)))
    by (eexists; reflexivity).
  repeat (split; [assumption |]).
  exact (@derived_state_ignores_private_state
           Samples.contract l ps1 ps2 H1 H2 H3 H4).
Defined.

(** ** The derived-state pipeline *)

Section Pipeline.
Context `{ContractPackage}.
Import BBoardAPI.

Implicit Types (api : BBoardAPI.t) (s : Subscription) (ev : SourceEvent).

(** Closes the cases of [deliver] in which nothing changes. *)
Ltac quiet := cbn; split; [auto | split; [auto | done]].

Lemma emissions_app {D} (a b : list (Notification D)) :
  emissions (a ++ b) = (emissions a ++ emissions b)%list.
Proof. unfold emissions. apply omap_app. Qed.

Lemma emit_spec s :
  (exists l p d, latestLedger s = Some l /\ latestPrivate s = Some p
                 /\ stateProjection l p = Return d
                 /\ emit s = (s, [Next d]))
  \/ (exists l p e, latestLedger s = Some l /\ latestPrivate s = Some p
                    /\ stateProjection l p = Throw e
                    /\ emit s = (unsubscribe s, [Failed e]))
  \/ ((latestLedger s = None \/ latestPrivate s = None) /\ emit s = (s, [])).
Proof.
  unfold emit.
  destruct (latestLedger s) as [l|]; [| right; right; eauto].
  destruct (latestPrivate s) as [p|]; [| right; right; eauto].
  destruct (stateProjection l p) as [d|e] eqn:Hp.
  - left. by exists l, p, d.
  - right. left. by exists l, p, e.
Qed.

Lemma settle_slots s :
  latestLedger (fst (settle s)) = latestLedger s
  /\ latestPrivate (fst (settle s)) = latestPrivate s
  /\ (closed (fst (settle s)) = false -> closed s = false)
  /\ emissions (snd (settle s)) = [].
Proof.
  unfold settle. destruct (closed s) eqn:Hc.
  - cbn. repeat split; congruence.
  - destruct (ledgerDone s && privateDone s); cbn; repeat split; congruence.
Qed.

Lemma deliver_consistent api ev s :
  consistent api s -> consistent api (fst (deliver api ev s)).
Proof.
  intros Hs. pose proof Hs as [Hread Hpass]. unfold deliver.
  destruct (closed s) eqn:Hc; [exact Hs |].
  destruct ev as [cs|e| |].
  - destruct (ledgerDone s); [exact Hs |].
    destruct (ledger (data cs)) as [l|e] eqn:Hl.
    + destruct (emit_spec (set_ledger l s))
        as [(l' & p & d & Hl' & Hp' & Hd & ->)
           |[(l' & p & e & Hl' & Hp' & Hd & ->)|[Hnone ->]]]; cbn [fst].
      * split; [exact Hread |]. intros _ _ p0 Hp0.
        cbn in Hl', Hp', Hp0. simplify_eq.
        eapply stateProjection_returns_inv; eassumption.
      * split; [exact Hread | done].
      * split; [exact Hread |]. cbn. intros _ _ p0 Hp0.
        destruct Hnone as [Hn|Hn]; cbn in Hn; congruence.
    + split; [exact Hread | done].
  - destruct (ledgerDone s); [exact Hs |]. split; [exact Hread | done].
  - destruct (ledgerDone s); [exact Hs |].
    destruct (settle_slots (finish_ledger s)) as (Hsl & Hsp & Hsc & _).
    split.
    + intros p. rewrite Hsp. apply Hread.
    + intros Hcl. rewrite Hsl, Hsp. intros Hsome p Hp.
      apply Hpass; auto.
  - destruct (privateDone s); [exact Hs |].
    destruct (emit (set_private (privateRead api) s)) as [s1 out1] eqn:He.
    destruct (settle (finish_private s1)) as [s2 out2] eqn:Hst. cbn [fst].
    destruct (settle_slots (finish_private s1)) as (Hsl & Hsp & Hsc & _).
    rewrite Hst in Hsl, Hsp, Hsc. cbn in Hsl, Hsp, Hsc.
    destruct (emit_spec (set_private (privateRead api) s))
      as [(l' & p & d & Hl' & Hp' & Hd & Heq)
         |[(l' & p & e & Hl' & Hp' & Hd & Heq)|[Hnone Heq]]];
      rewrite Heq in He; injection He as <- <-.
    * cbn in Hl', Hp', Hsl, Hsp. simplify_eq. split.
      -- intros p0. rewrite Hsp. by intros [= <-].
      -- intros _ _ p0. rewrite Hsp. intros [= <-].
         eapply stateProjection_returns_inv; eassumption.
    * split.
      -- intros p0. rewrite Hsp. cbn. by intros [= <-].
      -- intros Hcl. apply Hsc in Hcl. cbn in Hcl. discriminate.
    * split.
      -- intros p0. rewrite Hsp. cbn. by intros [= <-].
      -- intros _. rewrite Hsl. cbn. intros [l0 Hl0].
         destruct Hnone as [Hn|Hn]; cbn in Hn; congruence.
Qed.

Lemma subscribe_consistent api : consistent api subscribe.
Proof.
  split; [intros p Hp; discriminate Hp | intros _ [l Hl]; discriminate Hl].
Qed.

Lemma feed_cons api ev evs s :
  feed api (ev :: evs) s
  = ((fst (feed api evs (fst (deliver api ev s)))),
     (snd (deliver api ev s)
      ++ snd (feed api evs (fst (deliver api ev s))))%list).
Proof.
  cbn [feed]. destruct (deliver api ev s) as [s1 out1]. cbn [fst snd].
  by destruct (feed api evs s1) as [s2 out2].
Qed.

Lemma feed_consistent api evs s :
  consistent api s -> consistent api (fst (feed api evs s)).
Proof.
  revert s. induction evs as [|ev evs IH]; intros s Hs; [exact Hs |].
  rewrite feed_cons. cbn [fst]. apply IH. by apply deliver_consistent.
Qed.

(** Where the slots of a subscription come from, and what an emission
    takes. *)
Lemma deliver_slots api ev s :
  let s1 := fst (deliver api ev s) in
  (is_Some (latestLedger s1) ->
   is_Some (latestLedger s)
   \/ exists cs (l : Ledger),
        ev = ContractStateNext cs /\ ledger (data cs) = Return l)
  /\ (is_Some (latestPrivate s1) ->
      is_Some (latestPrivate s) \/ ev = PrivateStateSettled)
  /\ (emissions (snd (deliver api ev s)) <> [] ->
      is_Some (latestLedger s1) /\ is_Some (latestPrivate s1)
      /\ exists ps, privateRead api = val ps \/ latestPrivate s = Some (val ps)).
Proof.
  cbv zeta. unfold deliver.
  destruct (closed s) eqn:Hc; [quiet |].
  destruct ev as [cs|e| |].
  - destruct (ledgerDone s); [quiet |].
    destruct (ledger (data cs)) as [l|e] eqn:Hl; [| quiet].
    destruct (emit_spec (set_ledger l s))
      as [(l' & p & d & Hl' & Hp' & Hd & ->)
         |[(l' & p & e & Hl' & Hp' & Hd & ->)|[Hnone ->]]]; cbn.
    + split; [eauto |]. split; [auto |]. intros _.
      cbn in Hp'. split; [eauto |]. split; [eauto |].
      destruct (stateProjection_returns_inv _ _ _ Hd) as (ps & -> & _).
      eauto.
    + split; [eauto |]. split; [auto |]. done.
    + split; [eauto |]. split; [auto |]. done.
  - destruct (ledgerDone s); quiet.
  - destruct (ledgerDone s); [quiet |].
    destruct (settle_slots (finish_ledger s)) as (Hsl & Hsp & _ & Hem).
    cbn [fst]. rewrite Hsl, Hsp, Hem. quiet.
  - destruct (privateDone s); [quiet |].
    destruct (emit (set_private (privateRead api) s)) as [s1 out1] eqn:He.
    destruct (settle (finish_private s1)) as [s2 out2] eqn:Hst.
    destruct (settle_slots (finish_private s1)) as (Hsl & Hsp & _ & Hem).
    rewrite Hst in Hsl, Hsp, Hem.
    cbn [fst snd latestLedger latestPrivate finish_private]
      in Hsl, Hsp, Hem.
    cbn [fst snd].
    rewrite emissions_app, Hem, app_nil_r, Hsl, Hsp.
    destruct (emit_spec (set_private (privateRead api) s))
      as [(l' & p & d & Hl' & Hp' & Hd & Heq)
         |[(l' & p & e & Hl' & Hp' & Hd & Heq)|[Hnone Heq]]];
      rewrite Heq in He; injection He as <- <-; cbn in *.
    + split; [auto |]. split; [auto |]. intros _.
      split; [eauto |]. split; [eauto |]. simplify_eq.
      destruct (stateProjection_returns_inv _ _ _ Hd) as (ps & Hps & _).
      exists ps. by left.
    + split; [auto |]. split; [auto |]. done.
    + split; [auto |]. split; [auto |]. done.
Qed.

Lemma private_slot_kept api ev s p :
  latestPrivate s = Some p ->
  consistent api s ->
  latestPrivate (fst (deliver api ev s)) = Some p.
Proof.
  intros Hp Hs.
  pose proof (deliver_consistent api ev s Hs) as [Hread _].
  destruct (deliver_slots api ev s) as (_ & _ & _).
  destruct Hs as [Hread0 _]. pose proof (Hread0 p Hp) as ->.
  unfold deliver in *.
  destruct (closed s); [done |].
  destruct ev as [cs|e| |].
  - destruct (ledgerDone s); [done |].
    destruct (ledger (data cs)) as [l|e]; [| done].
    unfold emit. cbn. rewrite Hp.
    by destruct (stateProjection l (privateRead api)).
  - by destruct (ledgerDone s).
  - destruct (ledgerDone s); [done |].
    destruct (settle_slots (finish_ledger s)) as (_ & -> & _). done.
  - destruct (privateDone s); [done |].
    destruct (emit (set_private (privateRead api) s)) as [s1 out1] eqn:He.
    destruct (settle (finish_private s1)) as [s2 out2] eqn:Hst.
    destruct (settle_slots (finish_private s1)) as (_ & Hsp & _).
    rewrite Hst in Hsp. cbn in Hsp. cbn [fst]. rewrite Hsp.
    unfold emit in He. cbn in He.
    destruct (latestLedger s); [| by injection He as <- <-].
    destruct (stateProjection l (privateRead api));
      by injection He as <- <-.
Qed.

(** No derived state comes out of a run of source events unless the
    ledger slot was filled before or a snapshot arrives in the run, and
    the private slot was filled before or the read settles in the run
    with a record. *)
Lemma emissions_need_both api evs s :
  consistent api s ->
  emissions (snd (feed api evs s)) <> [] ->
  (is_Some (latestLedger s) \/ snapshot_arrives evs)
  /\ (is_Some (latestPrivate s) \/ private_state_arrives api evs).
Proof.
  revert s. induction evs as [|ev evs IH]; intros s Hs; [done |].
  rewrite feed_cons. cbn [snd]. rewrite emissions_app. intros Hne.
  pose proof (deliver_consistent api ev s Hs) as Hs1.
  destruct (deliver_slots api ev s) as (Hl & Hp & Hem).
  assert (Hboth :
    (is_Some (latestLedger (fst (deliver api ev s)))
     \/ snapshot_arrives evs)
    /\ (is_Some (latestPrivate (fst (deliver api ev s)))
        \/ private_state_arrives api evs)).
  { destruct (emissions (snd (deliver api ev s))) eqn:Hout.
    - apply IH; [exact Hs1 | exact Hne].
    - destruct Hem as (? & ? & _); [done | auto]. }
  assert (Hrec : is_Some (latestPrivate (fst (deliver api ev s)))
                 \/ private_state_arrives api evs ->
                 exists ps, privateRead api = val ps).
  { intros [[p Hp1]|[_ Hps]]; [| exact Hps].
    clear IH. destruct Hs1 as [Hread1 Hpass1].
    pose proof (Hread1 p Hp1) as ->.
    destruct (emissions (snd (deliver api ev s))) eqn:Hout.
    - (* the emission comes later; it passes the selector then *)
      revert Hne Hp1. generalize (deliver_consistent api ev s Hs).
      generalize (fst (deliver api ev s)). clear.
      induction evs as [|ev' evs IH']; intros s1 Hc1 Hne Hp1; [done |].
      rewrite feed_cons in Hne. cbn [snd] in Hne.
      rewrite emissions_app in Hne.
      destruct (deliver_slots api ev' s1) as (_ & _ & Hem').
      destruct (emissions (snd (deliver api ev' s1))) eqn:Hout'.
      + apply (IH' (fst (deliver api ev' s1)));
          [by apply deliver_consistent | exact Hne |].
        by apply private_slot_kept.
      + destruct Hem' as (_ & _ & ps & [Hps|Hps]); [done | eauto |].
        rewrite Hp1 in Hps. injection Hps as ->. eauto.
    - destruct Hem as (_ & _ & ps & [Hps|Hps]); [done | eauto |].
      destruct Hs as [Hread0 _]. pose proof (Hread0 _ Hps) as <-. eauto. }
  destruct Hboth as [HL HP]. split.
  - destruct HL as [HL|(cs & l & Hin & Hdec)].
    + destruct (Hl HL) as [?|(cs & l & -> & Hdec)]; [by left |].
      right. exists cs, l. split; [apply list_elem_of_here | exact Hdec].
    + right. exists cs, l. split; [by apply list_elem_of_further | exact Hdec].
  - destruct (Hrec HP) as [ps Hps].
    destruct HP as [HP|[Hin _]].
    + destruct (Hp HP) as [?| ->]; [by left |].
      right. split; [apply list_elem_of_here | eauto].
    + right. split; [by apply list_elem_of_further | eauto].
Qed.

(** On a live subscription that holds a record on which the circuits
    return, a snapshot that arrives is answered by one derived state,
    made of that snapshot and that record. *)
Lemma deliver_snapshot api s cs (l : Ledger) ps :
  closed s = false ->
  ledgerDone s = false ->
  latestPrivate s = Some (val ps) ->
  returns (public_key (secretKey ps)) ->
  returns (nullifier (secretKey ps)) ->
  ledger (data cs) = Return l ->
  deliver api (ContractStateNext cs) s
  = (set_ledger l s, [Next (counters l)]).
Proof.
  intros Hc Hd Hp Hpk Hnf Hl. unfold deliver. rewrite Hc, Hd, Hl.
  unfold emit. cbn [latestLedger latestPrivate set_ledger]. rewrite Hp.
  by rewrite (stateProjection_returns l ps Hpk Hnf).
Qed.

Lemma feed_snapshots api s css ls ps :
  closed s = false ->
  ledgerDone s = false ->
  latestPrivate s = Some (val ps) ->
  returns (public_key (secretKey ps)) ->
  returns (nullifier (secretKey ps)) ->
  decoded css ls ->
  snd (feed api (map ContractStateNext css) s)
  = map (fun l => Next (counters l)) ls
  /\ closed (fst (feed api (map ContractStateNext css) s)) = false
  /\ ledgerDone (fst (feed api (map ContractStateNext css) s)) = false
  /\ latestPrivate (fst (feed api (map ContractStateNext css) s))
     = Some (val ps).
Proof.
  intros Hc Hd Hp Hpk Hnf Hdec. revert s Hc Hd Hp.
  induction Hdec as [|cs l css ls Hl Hdec IH]; intros s Hc Hd Hp; [done |].
  cbn [map]. rewrite feed_cons.
  rewrite (deliver_snapshot api s cs l ps Hc Hd Hp Hpk Hnf Hl).
  cbn [fst snd].
  destruct (IH (set_ledger l s) Hc Hd Hp) as (-> & ? & ? & ?). done.
Qed.

Lemma feed_snapshots_ledger api s css ls ps :
  closed s = false ->
  ledgerDone s = false ->
  latestPrivate s = Some (val ps) ->
  returns (public_key (secretKey ps)) ->
  returns (nullifier (secretKey ps)) ->
  decoded css ls ->
  is_Some (latestLedger s) ->
  is_Some (latestLedger (fst (feed api (map ContractStateNext css) s))).
Proof.
  intros Hc Hd Hp Hpk Hnf Hdec. revert s Hc Hd Hp.
  induction Hdec as [|cs l css ls Hl Hdec IH]; intros s Hc Hd Hp Hsome;
    [exact Hsome |].
  cbn [map]. rewrite feed_cons.
  rewrite (deliver_snapshot api s cs l ps Hc Hd Hp Hpk Hnf Hl).
  cbn [fst]. apply IH; try done; by eexists.
Qed.

Lemma feed_app api (evs more : list SourceEvent) s :
  feed api (evs ++ more) s
  = (fst (feed api more (fst (feed api evs s))),
     (snd (feed api evs s)
      ++ snd (feed api more (fst (feed api evs s))))%list).
Proof.
  revert s. induction evs as [|ev evs IH]; intros s.
  - cbn. by destruct (feed api more s).
  - cbn [app]. rewrite !feed_cons, IH. cbn [fst snd].
    by rewrite app_assoc.
Qed.

(** While the private read has not settled, snapshots that arrive fill
    the ledger slot and nothing is handed out. *)
Lemma feed_before_private api s css ls :
  closed s = false ->
  ledgerDone s = false ->
  latestPrivate s = None ->
  decoded css ls ->
  let s' := fst (feed api (map ContractStateNext css) s) in
  snd (feed api (map ContractStateNext css) s) = []
  /\ closed s' = false
  /\ ledgerDone s' = false
  /\ privateDone s' = privateDone s
  /\ latestPrivate s' = None
  /\ latestLedger s' = from_option Some (latestLedger s) (last ls).
Proof.
  intros Hc Hd Hp Hdec. revert s Hc Hd Hp.
  induction Hdec as [|cs l css ls Hl Hdec IH]; intros s Hc Hd Hp; [done |].
  cbn [map]. rewrite feed_cons.
  assert (Hstep : deliver api (ContractStateNext cs) s
                  = (set_ledger l s, [])).
  { unfold deliver. rewrite Hc, Hd, Hl. unfold emit.
    cbn [latestLedger latestPrivate set_ledger]. by rewrite Hp. }
  rewrite Hstep. cbn [fst snd app].
  destruct (IH (set_ledger l s) Hc Hd Hp) as (Ho & Hc' & Hd' & Hpd & Hp' & Hl').
  repeat split; try done.
  rewrite Hl'. cbn [latestLedger set_ledger].
  destruct ls as [|l' ls]; [reflexivity |]. rewrite last_cons_cons.
  destruct (last (l' :: ls)) eqn:Hlast; [reflexivity |].
  by apply last_None in Hlast.
Qed.

(** The private read settles on a live subscription with a record on
    which the circuits return: the record fills its slot, and the latest
    snapshot, if there is one, is answered by one derived state. *)
Lemma deliver_private api s ps :
  closed s = false ->
  ledgerDone s = false ->
  privateDone s = false ->
  privateRead api = val ps ->
  returns (public_key (secretKey ps)) ->
  returns (nullifier (secretKey ps)) ->
  deliver api PrivateStateSettled s
  = (finish_private (set_private (val ps) s),
     match latestLedger s with
     | Some l => [Next (counters l)]
     | None => []
     end).
Proof.
  intros Hc Hd Hpd Hps Hpk Hnf. unfold deliver. rewrite Hc, Hpd, Hps.
  unfold emit. cbn [latestLedger latestPrivate set_private].
  destruct (latestLedger s) as [l|] eqn:Hl.
  - rewrite (stateProjection_returns l ps Hpk Hnf).
    unfold settle. cbn [closed finish_private set_private ledgerDone].
    by rewrite Hc, Hd.
  - unfold settle. cbn [closed finish_private set_private ledgerDone].
    by rewrite Hc, Hd.
Qed.

(** From the subscription on, with a record on which the circuits
    return: snapshots before the read settles, the read, snapshots
    after. *)
Lemma feed_around_private api ps css1 ls1 css2 ls2 :
  privateRead api = val ps ->
  returns (public_key (secretKey ps)) ->
  returns (nullifier (secretKey ps)) ->
  decoded css1 ls1 ->
  decoded css2 ls2 ->
  let evs :=
    (map ContractStateNext css1
     ++ PrivateStateSettled :: map ContractStateNext css2)%list in
  snd (feed api evs subscribe)
  = map (fun l => Next (counters l)) (option_list (last ls1) ++ ls2)%list
  /\ ((ls1 ++ ls2)%list <> [] -> both_arrived (fst (feed api evs subscribe))).
Proof.
  intros Hps Hpk Hnf Hdec1 Hdec2. cbn zeta.
  destruct (feed_before_private api subscribe css1 ls1)
    as (Ho1 & Hc1 & Hd1 & Hpd1 & Hp1 & Hl1); try done.
  set (s1 := fst (feed api (map ContractStateNext css1) subscribe)) in *.
  pose proof (deliver_private api s1 ps Hc1 Hd1 Hpd1 Hps Hpk Hnf) as Hsettle.
  set (s2 := finish_private (set_private (val ps) s1)) in *.
  destruct (feed_snapshots api s2 css2 ls2 ps) as (Ho2 & Hc2 & Hd2 & Hp2);
    try done.
  rewrite feed_app, feed_cons. fold s1. rewrite Hsettle.
  cbn [fst snd]. fold s2. rewrite Ho1, Ho2. cbn [app]. split.
  - rewrite map_app. f_equal. rewrite Hl1. cbn [latestLedger subscribe].
    by destruct (last ls1).
  - intros Hne. split; [exact Hc2 |]. split; [exact Hd2 |].
    split; [| by rewrite Hp2].
    destruct (decide (ls2 = [])) as [->|Hls2].
    + inversion Hdec2; subst. cbn. rewrite Hl1.
      rewrite app_nil_r in Hne.
      destruct (last ls1) as [l|] eqn:Hlast; [by eexists |].
      by apply last_None in Hlast.
    + inversion Hdec2 as [|cs l css ls Hl Hrest]; subst; [done |].
      cbn [map]. rewrite feed_cons.
      rewrite (deliver_snapshot api s2 cs l ps); try done.
      cbn [fst].
      by apply (feed_snapshots_ledger api _ css ls ps).
Qed.

(** C2.  From its subscription on, [state$] hands out no derived state
    in a run of source events in which no ledger snapshot arrives or the
    private state does not arrive.  Once both have arrived and the
    subscription and the chain-state source are live, a run of contract
    states that decode to the snapshots [ls] is answered by one derived
    state per snapshot, in order, each the value of the selector on that
    snapshot and the private state in the slot; the subscription is then
    in the same condition again.  Both have arrived, in this sense, as
    soon as the events say so, in either order: when the read settles,
    with a record on which the circuits return, after the snapshots
    [ls1] and before the snapshots [ls2], what is handed out is one
    derived state for the last of [ls1], if there is one, made at the
    moment the read settles, and then one for each of [ls2]; none of the
    earlier snapshots of [ls1] is ever shown, and a read that settles
    before the first snapshot is kept for it. *)
Theorem derived_state_needs_both_and_follows_the_ledger api :
  (forall evs,
     ~ (snapshot_arrives evs /\ private_state_arrives api evs) ->
     emissions (snd (feed api evs subscribe)) = [])
  /\ (forall pre css ls,
        let s := fst (feed api pre subscribe) in
        both_arrived s ->
        decoded css ls ->
        exists ps,
          latestPrivate s = Some (val ps)
          /\ Forall
               (fun l => stateProjection l (val ps) = Return (counters l)) ls
          /\ snd (feed api (map ContractStateNext css) s)
             = map (fun l => Next (counters l)) ls
          /\ both_arrived (fst (feed api (map ContractStateNext css) s)))
  /\ (forall ps css1 ls1 css2 ls2,
        privateRead api = val ps ->
        returns (public_key (secretKey ps)) ->
        returns (nullifier (secretKey ps)) ->
        decoded css1 ls1 ->
        decoded css2 ls2 ->
        let evs :=
          (map ContractStateNext css1
           ++ PrivateStateSettled :: map ContractStateNext css2)%list in
        snd (feed api evs subscribe)
        = map (fun l => Next (counters l))
            (option_list (last ls1) ++ ls2)%list
        /\ ((ls1 ++ ls2)%list <> [] ->
            both_arrived (fst (feed api evs subscribe)))).
Proof.
  split; [| split].
  - intros evs Hnot.
    destruct (emissions (snd (feed api evs subscribe))) as [|d ds] eqn:Hout;
      [reflexivity |].
    exfalso. apply Hnot.
    destruct (emissions_need_both api evs subscribe) as [HL HP].
    + apply subscribe_consistent.
    + by rewrite Hout.
    + split.
      * destruct HL as [[l Hl]|HL]; [discriminate Hl | exact HL].
      * destruct HP as [[p Hp]|HP]; [discriminate Hp | exact HP].
  - intros pre css ls s (Hc & Hd & HL & [p Hp]) Hdec.
    pose proof (feed_consistent api pre subscribe (subscribe_consistent api))
      as [_ Hpass].
    fold s in Hpass.
    destruct (Hpass Hc HL p Hp) as (ps & -> & Hpk & Hnf).
    exists ps. split; [exact Hp |]. split.
    { apply Forall_forall. intros l _. by apply stateProjection_returns. }
    destruct (feed_snapshots api s css ls ps Hc Hd Hp Hpk Hnf Hdec)
      as (Hout & Hc' & Hd' & Hp').
    split; [exact Hout |].
    repeat split; try done.
    by apply (feed_snapshots_ledger api s css ls ps).
  - intros ps css1 ls1 css2 ls2 Hps Hpk Hnf Hdec1 Hdec2.
    exact (feed_around_private api ps css1 ls1 css2 ls2
             Hps Hpk Hnf Hdec1 Hdec2).
Qed.

End Pipeline.

(** ** The interactive drivers *)

Section Drivers.
Context `{ContractPackage} `{ContractHelpers}.
#[local] Existing Instance votingApi.
Import Driver.

Implicit Types (st : Loop) (s : Session) (inp : Input).

(** A closed subscription of the voting API takes no notice of its
    sources. *)
Lemma observe_closed (ev : SourceEvent) s :
  BBoardAPI.closed (subscription s) = true -> observe ev s = s.
Proof.
  intros Hc. unfold observe. cbn [api_deliver votingApi].
  unfold BBoardAPI.deliver. rewrite Hc. cbn. by destruct s.
Qed.

Lemma finally_unsubscribe_closed s :
  BBoardAPI.closed (subscription (finally_unsubscribe s)) = true.
Proof. reflexivity. Qed.

(** Every way out of [deployOrJoin] without a contract leaves no
    session behind. *)
Lemma established_finished verb r (c : completion unit) :
  phase (established verb r) = Finished c ->
  session (established verb r) = None /\ exists e, c = Throw e.
Proof.
  unfold established. destruct r as [w [a|e]]; cbn; [done |].
  intros [= <-]. eauto.
Qed.

Lemma deployOrJoin_finished (choice : string) (w : World)
    (c : completion unit) :
  phase (deployOrJoin choice w) = Finished c ->
  session (deployOrJoin choice w) = None.
Proof.
  unfold deployOrJoin.
  repeat case_match; cbn; try done; intros Hf;
    by apply established_finished in Hf as [? _].
Qed.

Lemma deployOrJoin_not_answering (choice : string) (w : World) q k :
  phase (deployOrJoin choice w) <> Answering q k.
Proof.
  unfold deployOrJoin, established.
  repeat case_match; cbn; done.
Qed.

Section AnyMenu.
Variable menu : string -> Api -> option BBoardDerivedState -> Prompted.

Lemma iteration_closed body st :
  closed_when_finished (iteration body st).
Proof.
  unfold iteration. intros c Hc s Hs.
  destruct (body (world st)) as [w [[|]|e]]; cbn in Hc, Hs; [done | |];
    destruct (session st); cbn in Hs; by simplify_eq.
Qed.

Lemma step_closed st inp :
  closed_when_finished st ->
  closed_when_finished (mainLoop_step menu st inp).
Proof.
  intros Hst c Hc s Hs. unfold mainLoop_step in *.
  destruct inp as [text|e|ev].
  - destruct (phase st) eqn:Hp.
    + apply deployOrJoin_finished in Hc. congruence.
    + apply established_finished in Hc as [? _]. congruence.
    + destruct (session st) as [s0|] eqn:Hs0; [| by eapply Hst].
      destruct (menu text (bboardApi s0) (currentState s0));
        [by eapply iteration_closed | done].
    + by eapply iteration_closed.
    + by eapply Hst.
  - destruct (phase st) eqn:Hp; cbn in Hc, Hs; try done.
    + destruct (session st); cbn in Hs; by simplify_eq.
    + destruct (session st); cbn in Hs; by simplify_eq.
    + by eapply Hst.
  - cbn in Hc, Hs.
    destruct (session st) as [s0|] eqn:Hs0; cbn in Hs; [| done].
    injection Hs as <-.
    rewrite observe_closed; by eapply Hst.
Qed.

Lemma fold_closed script st :
  closed_when_finished st ->
  closed_when_finished (fold_left (mainLoop_step menu) script st).
Proof.
  revert st. induction script as [|inp script IH]; intros st Hst;
    [exact Hst |].
  cbn [fold_left]. apply IH. by apply step_closed.
Qed.

(** Once finished, the driver is deaf to everything. *)
Lemma step_after_finish st inp c :
  closed_when_finished st ->
  phase st = Finished c ->
  mainLoop_step menu st inp = st.
Proof.
  intros Hst Hc. unfold mainLoop_step. rewrite Hc.
  destruct inp as [text|e|ev]; try done.
  destruct st as [w p [s|]]; cbn in *; subst p; [| done].
  rewrite observe_closed; [done |]. by eapply Hst.
Qed.

Lemma fold_after_finish script st c :
  closed_when_finished st ->
  phase st = Finished c ->
  fold_left (mainLoop_step menu) script st = st.
Proof.
  intros Hst Hc. induction script as [|inp script IH]; [done |].
  cbn [fold_left]. by rewrite (step_after_finish st inp c).
Qed.
End AnyMenu.

(** C7.  However the menu loop of the voting driver is left, by a
    return or by a thrown value, the subscription to [state$] made
    before the loop is unsubscribed; from then on the driver is deaf:
    whatever the sources of the subscription and the user do next,
    nothing more is handed to the observer, whose record of observed
    states and current state stay as they were at the exit. *)
Theorem leaving_the_loop_unsubscribes
    (script more : list Input) (w : World) (c : completion unit) :
  let st := VotingCli.mainLoop script w in
  phase st = Finished c ->
  (forall s, session st = Some s ->
             BBoardAPI.closed (subscription s) = true)
  /\ VotingCli.mainLoop (script ++ more) w = st
  /\ (forall s s',
        session st = Some s ->
        session (VotingCli.mainLoop (script ++ more) w) = Some s' ->
        observed s' = observed s /\ currentState s' = currentState s).
Proof.
  intros st Hc.
  assert (Hst : closed_when_finished st).
  { apply fold_closed. intros c0 Hc0. discriminate Hc0. }
  assert (Hmore : VotingCli.mainLoop (script ++ more) w = st).
  { unfold VotingCli.mainLoop, mainLoop. rewrite fold_left_app.
    by apply (fold_after_finish _ _ _ c). }
  split; [exact (Hst c Hc) |]. split; [exact Hmore |].
  intros s s' Hs Hs'. rewrite Hmore, Hs in Hs'. by injection Hs' as <-.
Qed.

Lemma only_continues_ret : only_continues (mret Continue).
Proof. intros w w' ctl [= _ <-]. reflexivity. Qed.

Lemma only_continues_bind {A} (m : M A) (f : A -> M Control) :
  (forall a, only_continues (f a)) -> only_continues (mbind f m).
Proof.
  intros Hf w w' ctl. unfold mbind, M_bind.
  destruct (m w) as [w1 [a|e]]; [apply Hf | discriminate].
Qed.

Ltac continues :=
  repeat (apply only_continues_bind; intros); apply only_continues_ret.

(** No case of the voting menu asks a question or returns. *)
Lemma voting_menu_only_continues (choice : string) (a : BBoardAPI.t)
    (cur : option BBoardDerivedState) :
  exists body,
    VotingCli.menu choice a cur = Now body /\ only_continues body.
Proof.
  unfold VotingCli.menu.
  repeat case_match; eexists; (split; [reflexivity |]); continues.
Qed.

Lemma voting_menu_default (choice : string) (a : BBoardAPI.t)
    (cur : option BBoardDerivedState) :
  choice ∉ ["1"; "2"; "3"; "4"; "5"; "6"] ->
  VotingCli.menu choice a cur
  = Now (logger.log error ("Invalid choice: " +:+ choice);;
         mret Continue).
Proof.
  intros Hnot. unfold VotingCli.menu.
  repeat case_match; try reflexivity; exfalso; apply Hnot; subst;
    set_solver.
Qed.

(** In the voting driver, an input that is none of the handled choices
    is reported and the menu is shown again. *)
Lemma voting_invalid_choice_is_reported st s (choice : string) :
  phase st = MainMenu ->
  session st = Some s ->
  choice ∉ ["1"; "2"; "3"; "4"; "5"; "6"] ->
  VotingCli.mainLoop_step st (Line choice)
  = {| world :=
         fst (logger.log error ("Invalid choice: " +:+ choice) (world st));
       phase := MainMenu;
       session := session st |}.
Proof.
  intros Hp Hs Hnot. unfold VotingCli.mainLoop_step, mainLoop_step.
  rewrite Hp, Hs. rewrite voting_menu_default by done.
  unfold iteration. cbn. by rewrite Hs.
Qed.

Lemma voting_iteration_never_returns body st :
  only_continues body ->
  never_returned (iteration body st).
Proof.
  intros Hb. unfold iteration.
  destruct (body (world st)) as [w [ctl|e]] eqn:Hbody.
  - apply Hb in Hbody as ->. by split.
  - by split.
Qed.

Lemma voting_step_never_returns st inp :
  never_returned st -> never_returned (VotingCli.mainLoop_step st inp).
Proof.
  intros Hst. unfold VotingCli.mainLoop_step, mainLoop_step.
  destruct inp as [text|e|ev].
  - destruct (phase st) as [| | |q0 k0|c0] eqn:Hp.
    + split.
      * apply deployOrJoin_finished.
      * intros q k. apply deployOrJoin_not_answering.
    + split.
      * intros Hf. by apply established_finished in Hf as [? _].
      * intros q k. unfold established.
        by destruct (api_join text (world st)) as [? [?|?]].
    + destruct (session st) as [s0|] eqn:Hs0; [| exact Hst].
      destruct (voting_menu_only_continues text (bboardApi s0)
                  (currentState s0)) as (body & -> & Hb).
      by apply voting_iteration_never_returns.
    + destruct Hst as [_ Hans]. by destruct (Hans q0 k0).
    + exact Hst.
  - destruct (phase st) as [| | |q0 k0|c0] eqn:Hp; try (by split).
    exact Hst.
  - destruct Hst as [Hret Hans]. split; cbn.
    + intros Hf. by rewrite (Hret Hf).
    + exact Hans.
Qed.

Lemma voting_fold_never_returns script st :
  never_returned st ->
  never_returned (fold_left VotingCli.mainLoop_step script st).
Proof.
  revert st. induction script as [|inp script IH]; intros st Hst;
    [exact Hst |].
  cbn [fold_left]. apply IH. by apply voting_step_never_returns.
Qed.

(** C5, on the voting driver.  The menu on display lists "8. Exit", yet
    the [switch] has no case for it: at the menu, the answer "8" is
    reported as an invalid choice and the menu is shown again, and no
    script whatever makes the loop return once a contract is at hand;
    the driver returns normally only from [deployOrJoin], with no
    session. *)
Theorem voting_exit_choice_is_not_handled :
  String.index 0 "8. Exit" VotingCli.MAIN_LOOP_QUESTION = Some 261
  /\ (forall st s,
        phase st = MainMenu ->
        session st = Some s ->
        VotingCli.asked st = Some VotingCli.MAIN_LOOP_QUESTION
        /\ VotingCli.mainLoop_step st (Line "8")
           = {| world :=
                  fst (logger.log error "Invalid choice: 8" (world st));
                phase := MainMenu;
                session := session st |})
  /\ (forall script w,
        phase (VotingCli.mainLoop script w) = Finished (Return tt) ->
        session (VotingCli.mainLoop script w) = None).
Proof.
  split; [reflexivity |]. split.
  - intros st s Hp Hs. split.
    + unfold VotingCli.asked, asked. by rewrite Hp.
    + apply (voting_invalid_choice_is_reported st s "8" Hp Hs).
      rewrite !not_elem_of_cons. repeat split; try discriminate.
      apply not_elem_of_nil.
  - intros script w.
    apply (voting_fold_never_returns script). split; [done |].
    intros q k. discriminate.
Qed.

End Drivers.

(** The bulletin-board driver, for comparison. *)
Section BoardDriver.
Context `{LedgerDecoder BoardCli.BoardLedger}
  {P : ApiPackage BoardCli.BoardDerivedState}.
Variable post : Api -> string -> M unit.
Variable takeDown : Api -> M unit.
Import Driver.

(** Choice 6, the exit on display, leaves the loop through the
    [finally]. *)
Lemma board_exit_choice_leaves (st : Loop) (s : Session) :
  phase st = MainMenu ->
  session st = Some s ->
  String.index 0 "6. Exit" BoardCli.MAIN_LOOP_QUESTION = Some 290
  /\ BoardCli.mainLoop_step post takeDown st (Line "6")
     = {| world := fst (logger.log info "Exiting..." (world st));
          phase := Finished (Return tt);
          session := Some (finally_unsubscribe s) |}.
Proof.
  intros Hp Hs. split; [reflexivity |].
  unfold BoardCli.mainLoop_step, mainLoop_step. rewrite Hp, Hs.
  cbn [BoardCli.menu]. unfold iteration. cbn. by rewrite Hs.
Qed.

Lemma board_invalid_choice_is_reported (st : Loop) (s : Session)
    (choice : string) :
  phase st = MainMenu ->
  session st = Some s ->
  choice ∉ ["1"; "2"; "3"; "4"; "5"; "6"] ->
  BoardCli.mainLoop_step post takeDown st (Line choice)
  = {| world :=
         fst (logger.log error ("Invalid choice: " +:+ choice) (world st));
       phase := MainMenu;
       session := session st |}.
Proof.
  intros Hp Hs Hnot. unfold BoardCli.mainLoop_step, mainLoop_step.
  rewrite Hp, Hs.
  assert (Hm : BoardCli.menu post takeDown choice (bboardApi s)
                 (currentState s)
               = Now (logger.log error ("Invalid choice: " +:+ choice);;
                      mret Continue)).
  { unfold BoardCli.menu.
    repeat case_match; try reflexivity; exfalso; apply Hnot; subst;
      set_solver. }
  rewrite Hm. unfold iteration. cbn. by rewrite Hs.
Qed.
End BoardDriver.

(** ** Reading the ledger *)

Section LedgerReads.
Context `{ContractPackage}.

(** C6.  When the public data provider reports no contract state at an
    address ([null] or [undefined]), [getBBoardLedgerState] resolves
    with [null], the decoder not being called, and [displayLedgerState]
    reports that no contract is deployed there.  A contract state the
    decoder rejects makes the read throw what the decoder threw, and one
    it accepts is returned decoded: the three cases are told apart. *)
Theorem absent_contract_reads_as_null
    (w : World) (address : ContractAddress)
    (answer : nullable ContractState) :
  indexer w address = Return answer ->
  not_nullish answer = false ->
  Driver.getBBoardLedgerState address w = (w, Return (null : nullable Ledger))
  /\ VotingCli.displayLedgerState {| contractAddress := address |} w
     = (fst (logger.log info
               ("There is no voting board contract deployed at "
                +:+ address) w),
        Return tt)
  /\ (forall w' cs e,
        indexer w' address = Return (val cs) ->
        ledger (data cs) = Throw e ->
        Driver.getBBoardLedgerState address w'
        = (w', Throw e : completion (nullable Ledger)))
  /\ (forall w' cs (l : Ledger),
        indexer w' address = Return (val cs) ->
        ledger (data cs) = Return l ->
        Driver.getBBoardLedgerState address w' = (w', Return (val l))).
Proof.
  intros Hq Hnull.
  assert (Hread : Driver.getBBoardLedgerState address w
                  = (w, Return (null : nullable Ledger))).
  { unfold Driver.getBBoardLedgerState, mbind, M_bind,
      publicDataProvider.queryContractState.
    rewrite Hq. by destruct answer. }
  split; [exact Hread |]. split.
  - unfold VotingCli.displayLedgerState. cbn [contractAddress].
    unfold mbind at 1, M_bind at 1. by rewrite Hread.
  - split.
    + intros w' cs e Hq' Hdec.
      unfold Driver.getBBoardLedgerState, mbind, M_bind,
        publicDataProvider.queryContractState, lift.
      by rewrite Hq', Hdec.
    + intros w' cs l Hq' Hdec.
      unfold Driver.getBBoardLedgerState, mbind, M_bind,
        publicDataProvider.queryContractState, lift.
      by rewrite Hq', Hdec.
Qed.
End LedgerReads.

(** ** The wait for funds *)

Section Funds.
Import Wallet.
Variable nativeToken : string.

Implicit Types (states : list (Z * WalletState)) (state : WalletState).

(** [waitForFunds] resolves with the balance of the first state, among
    those the throttle lets through, that is close enough to the tip and
    funded. *)
Lemma waitForFunds_first states :
  waitForFunds nativeToken states
  = (fun x => nullish (nativeBalance nativeToken (snd x)) 0%Z)
      <$> head (List.filter (fun x => funded nativeToken (snd x))
                  (Rx.throttleTime 10000 states)).
Proof.
  unfold waitForFunds, Rx.firstValueFrom, Rx.filter, Rx.map, Rx.tap.
  generalize (Rx.throttleTime 10000 states). intros l.
  induction l as [|[t st] l IH]; [reflexivity |].
  cbn [List.filter List.map snd fst]. unfold funded at 1.
  destruct (closeEnough st); cbn [andb List.map List.filter snd fst];
    [| exact IH].
  destruct (bool_decide (nullish (nativeBalance nativeToken st) 0 > 0)%Z);
    [reflexivity | exact IH].
Qed.

Lemma throttle_subset {A} (d : Z) (u : option Z) (xs : list (Z * A)) x :
  x ∈ Rx.throttle d u xs -> x ∈ xs.
Proof.
  revert u. induction xs as [|[t a] xs IH]; intros u; [done |].
  cbn [Rx.throttle].
  destruct u as [u|]; [destruct (bool_decide (t < u)%Z) |];
    rewrite ?elem_of_cons; intros Hx;
    try (destruct Hx as [->|Hx]; [by left |]); right; eauto.
Qed.

Lemma throttle_app {A} (d : Z) (u : option Z) (xs : list (Z * A)) :
  exists u', forall ys,
    Rx.throttle d u (xs ++ ys)
    = (Rx.throttle d u xs ++ Rx.throttle d u' ys)%list.
Proof.
  revert u. induction xs as [|[t a] xs IH]; intros u; [by exists u |].
  cbn [Rx.throttle app].
  destruct u as [u|]; [destruct (bool_decide (t < u)%Z) |].
  - apply IH.
  - destruct (IH (Some (t + d)%Z)) as [u' Hu']. exists u'. intros ys.
    by rewrite Hu'.
  - destruct (IH (Some (t + d)%Z)) as [u' Hu']. exists u'. intros ys.
    by rewrite Hu'.
Qed.

Lemma head_filter_app {A} (p : A -> bool) (l1 l2 : list A) (x : A) :
  head (List.filter p l1) = Some x ->
  head (List.filter p (l1 ++ l2)) = Some x.
Proof.
  induction l1 as [|a l1 IH]; [done |]. cbn [List.filter app].
  by destruct (p a).
Qed.

Lemma head_filter_Some {A} (p : A -> bool) (l : list A) (x : A) :
  head (List.filter p l) = Some x -> x ∈ l /\ p x = true.
Proof.
  induction l as [|a l IH]; [done |]. cbn [List.filter].
  destruct (p a) eqn:Hp.
  - intros [= ->]. split; [apply list_elem_of_here | exact Hp].
  - intros Hx. destruct (IH Hx). split; [by apply list_elem_of_further | done].
Qed.

Lemma head_filter_None {A} (p : A -> bool) (l : list A) :
  head (List.filter p l) = None <-> Forall (fun x => p x = false) l.
Proof.
  induction l as [|a l IH]; [by split |]. cbn [List.filter].
  destruct (p a) eqn:Hp.
  - split; [done |]. intros Hall. apply Forall_cons in Hall as [Ha _].
    congruence.
  - rewrite IH. split; [by constructor |].
    intros Hall. by apply Forall_cons in Hall as [_ ?].
Qed.

Lemma funded_balance state :
  funded nativeToken state = true ->
  closeEnough state = true
  /\ exists b, balances state !! nativeToken = Some b
               /\ nullish (nativeBalance nativeToken state) 0%Z = b
               /\ (b > 0)%Z.
Proof.
  unfold funded, nativeBalance. intros [Hc Hb]%andb_true_iff.
  split; [exact Hc |]. apply bool_decide_eq_true in Hb.
  destruct (balances state !! nativeToken) as [b|]; cbn in *; [eauto |].
  lia.
Qed.

Lemma waitForFunds_pending states :
  waitForFunds nativeToken states = None
  <-> Forall (fun x => funded nativeToken (snd x) = false)
        (Rx.throttleTime 10000 states).
Proof.
  rewrite waitForFunds_first, <- head_filter_None.
  by destruct (head _).
Qed.

(** C4, as the code has it.  [waitForFunds] resolves only with the
    positive balance of a state that the wallet reported, that the
    throttle let through and that was close enough to the tip; it stays
    pending exactly while no state let through is both close enough and
    funded; once resolved, nothing the wallet reports later changes the
    balance it returned.  [buildWalletAndWaitForFunds] calls it only
    when the first state of the wallet has no balance of the native
    token or a balance of zero, and goes on with the balance of that
    first state otherwise, whatever its sync progress. *)
Theorem funds_are_awaited_when_the_first_balance_is_empty
    (seed : string) (first : WalletState) states :
  (forall b,
     waitForFunds nativeToken states = Some b ->
     exists t st,
       (t, st) ∈ states
       /\ (t, st) ∈ Rx.throttleTime 10000 states
       /\ closeEnough st = true
       /\ balances st !! nativeToken = Some b
       /\ (b > 0)%Z)
  /\ (waitForFunds nativeToken states = None
      <-> Forall (fun x => funded nativeToken (snd x) = false)
            (Rx.throttleTime 10000 states))
  /\ (forall b more,
        waitForFunds nativeToken states = Some b ->
        waitForFunds nativeToken (states ++ more) = Some b)
  /\ snd (buildWalletAndWaitForFunds nativeToken seed first states)
     = match balances first !! nativeToken with
       | None => waitForFunds nativeToken states
       | Some b =>
           if bool_decide (b = 0)%Z then waitForFunds nativeToken states
           else Some b
       end.
Proof.
  split; [| split; [| split]].
  - intros b. rewrite waitForFunds_first.
    destruct (head _) as [[t st]|] eqn:Hh; [| done].
    cbn. intros [= <-].
    apply head_filter_Some in Hh as [Hin Hf]. cbn in Hf.
    apply funded_balance in Hf as (Hc & b & Hb & <- & Hpos).
    exists t, st. split; [by eapply throttle_subset |].
    rewrite Hb in *. cbn. eauto.
  - apply waitForFunds_pending.
  - intros b more. rewrite !waitForFunds_first. unfold Rx.throttleTime.
    destruct (throttle_app 10000 None states) as [u' ->].
    destruct (head (List.filter _ (Rx.throttle 10000 None states)))
      as [x|] eqn:Hh; [| done].
    intros Hb. by rewrite (head_filter_app _ _ _ x Hh).
  - unfold buildWalletAndWaitForFunds.
    destruct (waitForFunds nativeToken states) as [b|];
      destruct (balances first !! nativeToken) as [b0|];
      try destruct (bool_decide (b0 = 0)%Z); reflexivity.
Qed.

(** C10.  On a wallet state without [syncProgress], the filter of
    [waitForFunds] reads 0 for the synced count and 1000 for the total,
    finds the gap too wide and drops the state, and the callback of
    [tap] logs zero scanned blocks out of an unknown number: each
    evaluation ends normally.  A wallet that reports no sync progress in
    any of its states leaves the wait pending. *)
Theorem absent_sync_progress_never_passes state :
  not_nullish (syncProgress state) = false ->
  nullish (chain (syncProgress state) synced) 0%Z = 0%Z
  /\ nullish (chain (syncProgress state) total) 1000%Z = 1000%Z
  /\ closeEnough state = false
  /\ scanLog state
     = {| level := info;
          message := "Wallet scanned 0 blocks out of unknown number" |}
  /\ (forall states,
        Forall (fun x => not_nullish (syncProgress (snd x)) = false) states ->
        waitForFunds nativeToken states = None).
Proof.
  intros Habsent.
  assert (Hclose : forall st, not_nullish (syncProgress st) = false ->
                              closeEnough st = false).
  { intros st Hst. unfold closeEnough.
    by destruct (syncProgress st) as [| |p]. }
  repeat split.
  - by destruct (syncProgress state).
  - by destruct (syncProgress state).
  - by apply Hclose.
  - unfold scanLog. by destruct (syncProgress state).
  - intros states Hall.
    apply waitForFunds_pending. apply Forall_forall. intros [t st] Hin.
    unfold funded. cbn [snd]. rewrite Hclose; [done |].
    apply (proj1 (Forall_forall _ _) Hall (t, st)).
    by eapply throttle_subset.
Qed.

End Funds.

(** ** The entry point *)

Section EntryPoint.
Import Top.

(** C8, as the code has it.  Once [run] has its environment and the
    answer of [buildWallet], it sets out to release the input interface
    first, then the wallet if there is one, then the environment if
    there is one, in this order and however the guarded part and each
    of the release steps end: a release step that throws is swallowed
    and the later ones still run, each completing or not on its own.
    (The resources were acquired in the order input interface,
    environment, wallet.)  [run] then ends with
    the process exited when the environment was there and went down,
    and otherwise as its guarded part ended; no failure of a release
    step shows in its ending. *)
Theorem teardown_runs_every_step_in_order
    (o : Steps) (wallet : nullable unit) :
  (dockerEnv o = true -> up o = Return tt) ->
  buildWallet o = Return wallet ->
  let t := fst (run o) in
  acquisitions t
  = ([InputInterface]
     ++ (if dockerEnv o then [Environment] else [])
     ++ (if is_null wallet then [] else [WalletHandle]))%list
  /\ releases t
     = ([InputInterface]
        ++ (if is_null wallet then [] else [WalletHandle])
        ++ (if dockerEnv o then [Environment] else []))%list
  /\ completed_releases t
     = ((if is_return (rli_close o) && is_return (rli_removeAllListeners o)
         then [InputInterface] else [])
        ++ (if negb (is_null wallet) && is_return (wallet_close o)
            then [WalletHandle] else [])
        ++ (if dockerEnv o && is_return (env_down o)
            then [Environment] else []))%list
  /\ snd (run o)
     = if dockerEnv o && is_return (env_down o) then ProcessExit 0
       else guarded_ending o wallet.
Proof.
  intros Hup Hwallet.
  destruct o as [env up0 bw cp ml rc rr wc ed]. cbn in Hup, Hwallet.
  subst bw.
  destruct env; [rewrite (Hup eq_refl) |]; clear Hup;
    destruct wallet as [| |[]];
    destruct cp as [[]|[?|?]], ml as [[]|[?|?]], rc as [[]|?],
      rr as [[]|?], wc as [[]|?], ed as [[]|?];
    repeat split.
Qed.

(** The [try] of [run] starts after [buildWallet]: when that call throws,
    [run] throws the same and releases nothing. *)
Lemma nothing_is_released_when_buildWallet_throws (o : Steps) (e : thrown) :
  (dockerEnv o = true -> up o = Return tt) ->
  buildWallet o = Throw e ->
  releases (fst (run o)) = [] /\ snd (run o) = Abrupt e.
Proof.
  intros Hup Hwallet.
  destruct o as [env up0 bw cp ml rc rr wc ed]. cbn in Hup, Hwallet.
  subst bw. destruct env; [rewrite (Hup eq_refl) |]; by split.
Qed.

End EntryPoint.

(** ** The properties at work on concrete runs *)

Lemma derived_state_needs_both_and_follows_the_ledger_witness :
  let cs1 := {| data := [Byte.x01; Byte.x02; Byte.x03] |} in
  let cs2 := {| data := [Byte.x04; Byte.x00; Byte.x07] |} in
  let l1 :=
    {| authorizedCommitments := []; authorizedNullifiers := [];
       restrictedCounter1 := 1; restrictedCounter2 := 2;
       restrictedCounter3 := 3 |} in
  let l2 :=
    {| authorizedCommitments := []; authorizedNullifiers := [];
       restrictedCounter1 := 4; restrictedCounter2 := 0;
       restrictedCounter3 := 7 |} in
  emissions
    (snd (@BBoardAPI.feed Samples.contract Samples.api
            [ContractStateNext cs1; ContractStateNext cs2]
            BBoardAPI.subscribe)) = []
  /\ (exists ps,
        BBoardAPI.latestPrivate
          (fst (@BBoardAPI.feed Samples.contract Samples.api
                  [ContractStateNext cs1; PrivateStateSettled]
                  BBoardAPI.subscribe)) = Some (val ps)
        /\ snd (@BBoardAPI.feed Samples.contract Samples.api
                  [ContractStateNext cs2]
                  (fst (@BBoardAPI.feed Samples.contract Samples.api
                          [ContractStateNext cs1; PrivateStateSettled]
                          BBoardAPI.subscribe)))
           = [Next (counters l2)])
  /\ snd (@BBoardAPI.feed Samples.contract Samples.api
            [PrivateStateSettled; ContractStateNext cs1;
             ContractStateNext cs2]
            BBoardAPI.subscribe)
     = [Next (counters l1); Next (counters l2)]
  /\ snd (@BBoardAPI.feed Samples.contract Samples.api
            [ContractStateNext cs1; ContractStateNext cs2;
             PrivateStateSettled]
            BBoardAPI.subscribe)
     = [Next (counters l2)]
  /\ both_arrived
       (fst (@BBoardAPI.feed Samples.contract Samples.api
               [PrivateStateSettled; ContractStateNext cs1;
                ContractStateNext cs2]
               BBoardAPI.subscribe)).
Proof.
  intros cs1 cs2 l1 l2.
  destruct (@derived_state_needs_both_and_follows_the_ledger
              Samples.contract Samples.api) as (Hnone & Hfollow & Horder).
  assert (Hpk : returns (@public_key Samples.contract
                           (secretKey Samples.secret)))
    by (eexists; reflexivity).
  assert (Hnf : returns (@nullifier Samples.contract
                           (secretKey Samples.secret)))
    by (eexists; reflexivity).
  assert (Hdec : @decoded Samples.contract [cs1; cs2] [l1; l2])
    by (by repeat constructor).
  assert (Hnil : @decoded Samples.contract [] []) by constructor.
  split; [| split; [| split; [| split]]].
  - apply Hnone. intros [_ [Hin _]].
    apply elem_of_cons in Hin as [Hin|Hin]; [discriminate Hin |].
    apply elem_of_cons in Hin as [Hin|Hin]; [discriminate Hin |].
    by apply elem_of_nil in Hin.
  - destruct (Hfollow [ContractStateNext cs1; PrivateStateSettled]
                [cs2] [l2]) as (ps & Hps & _ & Hout & _).
    + repeat split; try reflexivity; by eexists.
    + repeat constructor.
    + exists ps. split; [exact Hps | exact Hout].
  - destruct (Horder Samples.secret [] [] [cs1; cs2] [l1; l2]
                eq_refl Hpk Hnf Hnil Hdec) as [Hout _].
    exact Hout.
  - destruct (Horder Samples.secret [cs1; cs2] [l1; l2] [] []
                eq_refl Hpk Hnf Hdec Hnil) as [Hout _].
    exact Hout.
  - destruct (Horder Samples.secret [] [] [cs1; cs2] [l1; l2]
                eq_refl Hpk Hnf Hnil Hdec) as [_ Hboth].
    apply Hboth. discriminate.
Defined.

(** At the menu of the voting driver, after a deployment, "8" is reported
    as an invalid choice and the menu stays. *)
Example voting_exit_choice_on_a_run :
  let st :=
    @VotingCli.mainLoop Samples.contract Samples.helpers
      [Driver.Line "1"; Driver.Line "8"] Samples.fresh in
  Driver.phase st = Driver.MainMenu
  /\ last (logged (Driver.world st))
     = Some {| level := error; message := "Invalid choice: 8" |}.
Proof. vm_compute. split; reflexivity. Qed.

Lemma absent_contract_reads_as_null_witness :
  let w := Samples.settled in
  let address := "0200dead" in
  indexer w address = Return null
  /\ not_nullish (null : nullable ContractState) = false
  /\ (@Driver.getBBoardLedgerState Ledger (@voting_ledger Samples.contract)
        address w
      = (w, Return null)
      /\ @VotingCli.displayLedgerState Samples.contract
           {| contractAddress := address |} w
         = (fst (logger.log info
                   ("There is no voting board contract deployed at "
                    +:+ address) w),
            Return tt)).
Proof.
  intros w address.
  split; [reflexivity |]. split; [reflexivity |].
  destruct (@absent_contract_reads_as_null Samples.contract w address null
              eq_refl eq_refl) as (Hread & Hshow & _).
  split; [exact Hread | exact Hshow].
Defined.

(** The same read at an address whose contract state has another layout
    throws, and at the address of the sample contract decodes. *)
Example malformed_contract_state_throws :
  snd (@Driver.getBBoardLedgerState Ledger (@voting_ledger Samples.contract)
         "0200bad" Samples.settled)
  = Throw (JsError "expected a cell layout of three counters")
  /\ snd (@Driver.getBBoardLedgerState Ledger
            (@voting_ledger Samples.contract) "0200c0ffee" Samples.settled)
     = Return (val {| authorizedCommitments := [];
                      authorizedNullifiers := [];
                      restrictedCounter1 := 1; restrictedCounter2 := 2;
                      restrictedCounter3 := 3 |}).
Proof. split; reflexivity. Qed.

Lemma leaving_the_loop_unsubscribes_witness :
  let script :=
    [Driver.Line "1";
     Driver.Source
       (ContractStateNext {| data := [Byte.x01; Byte.x02; Byte.x03] |});
     Driver.Source PrivateStateSettled;
     Driver.Line "2"] in
  let more :=
    [Driver.Source
       (ContractStateNext {| data := [Byte.x04; Byte.x00; Byte.x07] |});
     Driver.Line "5"] in
  let st :=
    @VotingCli.mainLoop Samples.contract Samples.flaky script Samples.fresh in
  Driver.phase st = Driver.Finished (Throw (JsError "CallRejected"))
  /\ ((forall s, Driver.session st = Some s ->
                 BBoardAPI.closed (Driver.subscription s) = true)
      /\ @VotingCli.mainLoop Samples.contract Samples.flaky
           (script ++ more) Samples.fresh = st
      /\ (forall s s',
            Driver.session st = Some s ->
            Driver.session
              (@VotingCli.mainLoop Samples.contract Samples.flaky
                 (script ++ more) Samples.fresh) = Some s' ->
            Driver.observed s' = Driver.observed s
            /\ Driver.currentState s' = Driver.currentState s)).
Proof.
  intros script more st.
  split; [reflexivity |].
  apply (@leaving_the_loop_unsubscribes Samples.contract Samples.flaky
           script more Samples.fresh (Throw (JsError "CallRejected"))).
  reflexivity.
Defined.

(** One derived state had reached the observer before that exit. *)
Example one_state_observed_before_the_exit :
  Driver.observed
  <$> Driver.session
        (@VotingCli.mainLoop Samples.contract Samples.flaky
           [Driver.Line "1";
            Driver.Source
              (ContractStateNext
                 {| data := [Byte.x01; Byte.x02; Byte.x03] |});
            Driver.Source PrivateStateSettled;
            Driver.Line "2";
            Driver.Source
              (ContractStateNext
                 {| data := [Byte.x04; Byte.x00; Byte.x07] |})]
           Samples.fresh)
  = Some [{| derivedCounter1 := 1; derivedCounter2 := 2;
             derivedCounter3 := 3 |}].
Proof. reflexivity. Qed.

(** A wallet whose first state is funded but reports no sync progress
    passes without any state close enough to the tip. *)
Lemma funded_unsynced_wallet_passes :
  ~ gate_precedes_session "native" "seed" (Samples.unsynced_state 5) [].
Proof.
  intros Hgate.
  destruct (Hgate 5%Z eq_refl) as (st & [-> | Hin] & Hclose & _).
  - vm_compute in Hclose. discriminate Hclose.
  - by apply elem_of_nil in Hin.
Qed.

Lemma funds_are_awaited_when_the_first_balance_is_empty_witness :
  let states :=
    [(0%Z, Samples.unsynced_state 5);
     (4000%Z, Samples.synced_state 7);
     (12000%Z, Samples.synced_state 9)] in
  Wallet.waitForFunds "native" states = Some 9%Z
  /\ Wallet.waitForFunds "native"
       (states ++ [(30000%Z, Samples.synced_state 11)]) = Some 9%Z
  /\ snd (Wallet.buildWalletAndWaitForFunds "native" "seed"
            (Samples.synced_state 0) states) = Some 9%Z
  /\ snd (Wallet.buildWalletAndWaitForFunds "native" "seed"
            (Samples.unsynced_state 5) states) = Some 5%Z.
Proof.
  intros states.
  destruct (funds_are_awaited_when_the_first_balance_is_empty
              "native" "seed" (Samples.synced_state 0) states)
    as (_ & _ & Hstable & Hbuild).
  destruct (funds_are_awaited_when_the_first_balance_is_empty
              "native" "seed" (Samples.unsynced_state 5) states)
    as (_ & _ & _ & Hbuild').
  split; [reflexivity |].
  split; [apply Hstable; reflexivity |].
  split; [rewrite Hbuild; reflexivity | rewrite Hbuild'; reflexivity].
Defined.

Lemma absent_sync_progress_never_passes_witness :
  let state := Samples.unsynced_state 5 in
  not_nullish (Wallet.syncProgress state) = false
  /\ (nullish (chain (Wallet.syncProgress state) Wallet.synced) 0%Z = 0%Z
      /\ nullish (chain (Wallet.syncProgress state) Wallet.total) 1000%Z
         = 1000%Z
      /\ Wallet.closeEnough state = false
      /\ Wallet.scanLog state
         = {| level := info;
              message := "Wallet scanned 0 blocks out of unknown number" |}
      /\ (forall states,
            Forall
              (fun x => not_nullish (Wallet.syncProgress (snd x)) = false)
              states ->
            Wallet.waitForFunds "native" states = None)).
Proof.
  intros state.
  split; [reflexivity |].
  apply (absent_sync_progress_never_passes "native" state). reflexivity.
Defined.

(** With every step completing normally, [run] acquires the input
    interface, the environment and the wallet, and releases the input
    interface, the wallet and the environment: not the reverse order. *)
Lemma teardown_is_not_the_reverse_of_acquisition :
  ~ reverse_acquisition_teardown Samples.smooth.
Proof.
  unfold reverse_acquisition_teardown. vm_compute. discriminate.
Qed.

Lemma teardown_runs_every_step_in_order_witness :
  let o := Samples.stormy in
  let t := fst (Top.run o) in
  (Top.dockerEnv o = true -> Top.up o = Return tt)
  /\ Top.buildWallet o = Return (val tt)
  /\ (Top.acquisitions t
      = [Top.InputInterface; Top.Environment; Top.WalletHandle]
      /\ Top.releases t
         = [Top.InputInterface; Top.WalletHandle; Top.Environment]
      /\ Top.completed_releases t = []
      /\ snd (Top.run o) = Top.Normal tt).
Proof.
  intros o t.
  split; [reflexivity |]. split; [reflexivity |].
  exact (teardown_runs_every_step_in_order o (val tt)
           (fun _ => eq_refl) eq_refl).
Defined.

(** ** The bulletin-board contract *)

Section ContractProperties.
Context `{BBoardContract.CompactRuntime}.
Import BBoardContract.

Implicit Types (l : LedgerState) (sk : list byte) (c : Call).

Lemma increment_below (amount counter : Z) :
  (counter + amount < 2 ^ 64)%Z ->
  increment amount counter = Done (counter + amount)%Z.
Proof.
  intros Hlt. unfold increment. by rewrite bool_decide_eq_true_2.
Qed.

(** X1.  On a vacant board whose counter can still be incremented, a
    message posted with a secret key and taken down with the same key
    comes back as the result of [take_down]; the board is vacant again
    with no message, the title as before and the instance counter one
    higher. *)
Theorem posted_message_comes_back sk (m : string) l :
  state l = BoardCli.vacant ->
  (instance l + 1 < 2 ^ 64)%Z ->
  exists l1,
    post sk m l = Done (l1, tt)
    /\ take_down sk l1
       = Done ({| state := BoardCli.vacant;
                  title := title l;
                  message := none;
                  instance := (instance l + 1)%Z;
                  poster := public_key sk (field_as_bytes (instance l)) |},
               m).
Proof.
  intros Hv Hlt. eexists. split.
  - unfold post. rewrite Hv. reflexivity.
  - unfold take_down. cbn [state poster instance message title].
    rewrite bool_decide_eq_true_2 by reflexivity.
    rewrite (increment_below 1 (instance l) Hlt). reflexivity.
Qed.

(** A board that holds a message rejects every post and stays as it
    is. *)
Lemma post_on_occupied sk (m : string) l :
  state l = BoardCli.occupied ->
  post sk m l = Fails "Attempted to post to an occupied board"
  /\ submit l (Post sk m) = l.
Proof.
  intros Ho. unfold submit, post. by rewrite Ho.
Qed.

(** A call that is rejected writes nothing. *)
Lemma rejected_call_writes_nothing l c :
  accepted l c = false -> submit l c = l.
Proof.
  unfold accepted, submit. destruct c as [sk m|sk].
  - by destruct (post sk m l) as [[l' []]|reason].
  - by destruct (take_down sk l) as [[l' former]|reason].
Qed.

(** While no take-down goes through, a board that holds a message rejects
    every call and stays as it is. *)
Lemma history_without_take_down l (calls : list Call) :
  state l = BoardCli.occupied ->
  taken_down calls l = 0 ->
  history calls l = l /\ Forall (fun c => accepted l c = false) calls.
Proof.
  intros Ho. unfold history.
  induction calls as [|c calls IH]; intros Hnone; [by split |].
  cbn [fold_left taken_down] in *.
  assert (Hrej : accepted l c = false).
  { destruct c as [sk m|sk].
    - unfold accepted. by rewrite (proj1 (post_on_occupied sk m l Ho)).
    - destruct (accepted l (TakeDown sk)); [lia | reflexivity]. }
  rewrite (rejected_call_writes_nothing l c Hrej) in *.
  destruct IH as [Hsame Hall].
  - destruct c; [| rewrite Hrej in Hnone]; lia.
  - split; [exact Hsame | by constructor].
Qed.

(** X2.  One message at a time: once a post on a vacant board has gone
    through, and for as long as no [take_down] goes through, the board
    stays as that post made it.  In any run of further calls among
    which no take-down is accepted, every call is rejected, the posts
    with whatever keys and messages as posts to an occupied board, and
    the message, the poster and the instance of the first post stay.
    (After an accepted take-down the board is vacant and takes a post
    again.) *)
Theorem first_post_stands sk (m : string) l (calls : list Call) :
  state l = BoardCli.vacant ->
  taken_down calls (history [Post sk m] l) = 0 ->
  history (Post sk m :: calls) l
  = {| state := BoardCli.occupied;
       title := title l;
       message := some m;
       instance := instance l;
       poster := public_key sk (field_as_bytes (instance l)) |}
  /\ Forall (fun c => accepted (history [Post sk m] l) c = false) calls
  /\ Forall
       (fun c =>
          forall sk' m',
            c = Post sk' m' ->
            post sk' m' (history [Post sk m] l)
            = Fails "Attempted to post to an occupied board")
       calls.
Proof.
  intros Hv Hnone.
  assert (Hfirst : submit l (Post sk m)
                   = {| state := BoardCli.occupied;
                        title := title l;
                        message := some m;
                        instance := instance l;
                        poster := public_key sk
                                    (field_as_bytes (instance l)) |}).
  { unfold submit, post. by rewrite Hv. }
  unfold history in *. cbn [fold_left] in *. rewrite Hfirst in *.
  match type of Hnone with taken_down _ ?x = _ => set (l1 := x) in * end.
  destruct (history_without_take_down l1 calls eq_refl Hnone)
    as [Hsame Hall].
  split; [exact Hsame |]. split; [exact Hall |].
  apply Forall_forall. intros c _ sk' m' ->.
  by apply post_on_occupied.
Qed.

(** X3.  Only the poster takes a message down.  On a board that holds a
    message and whose counter can still be incremented, [take_down] with
    a secret key goes through exactly when the public key of that secret
    at the current instance is the poster on the ledger; with any other
    key it fails as "not the current poster" and the ledger stays as it
    is.  On a vacant board it fails whatever the key. *)
Theorem take_down_needs_the_poster sk l :
  (instance l + 1 < 2 ^ 64)%Z ->
  match state l with
  | BoardCli.occupied =>
      (poster l = public_key sk (field_as_bytes (instance l)) ->
       take_down sk l
       = Done ({| state := BoardCli.vacant;
                  title := title l;
                  message := none;
                  instance := (instance l + 1)%Z;
                  poster := poster l |},
               BoardCli.value (message l)))
      /\ (poster l <> public_key sk (field_as_bytes (instance l)) ->
          take_down sk l
          = Fails "Attempted to take down post, but not the current poster"
          /\ submit l (TakeDown sk) = l)
  | BoardCli.vacant =>
      take_down sk l
      = Fails "Attempted to take down post from an empty board"
      /\ submit l (TakeDown sk) = l
  end.
Proof.
  intros Hlt. unfold submit, take_down.
  destruct (state l); [done |]. split.
  - intros Hp. rewrite bool_decide_eq_true_2 by exact Hp.
    by rewrite (increment_below 1 (instance l) Hlt).
  - intros Hp. by rewrite bool_decide_eq_false_2 by exact Hp.
Qed.

(** What every ledger reached from the constructor satisfies. *)
Lemma submit_invariant (t : string) l c :
  (instance l + 1 < 2 ^ 64)%Z ->
  well_formed t l ->
  well_formed t (submit l c)
  /\ instance (submit l c)
     = (instance l
        + match c with
          | TakeDown _ => if accepted l c then 1 else 0
          | Post _ _ => 0
          end)%Z.
Proof.
  intros Hlt Hwf. pose proof Hwf as (Ht & Hm & Hp & Hi).
  unfold submit, accepted.
  destruct c as [sk m|sk].
  - unfold post. destruct (state l) eqn:Hs; cbn.
    + split; [| lia]. repeat split; cbn; try done; eauto.
    + split; [exact Hwf | lia].
  - unfold take_down. destruct (state l) eqn:Hs; cbn.
    + split; [exact Hwf | lia].
    + destruct (bool_decide _) eqn:Hb; cbn.
      * rewrite (increment_below 1 (instance l) Hlt). cbn.
        split; [| lia]. repeat split; cbn; try done; lia.
      * split; [exact Hwf | lia].
Qed.

Lemma history_invariant (t : string) (calls : list Call) l :
  (instance l + Z.of_nat (length calls) < 2 ^ 64)%Z ->
  well_formed t l ->
  well_formed t (history calls l)
  /\ instance (history calls l)
     = (instance l + Z.of_nat (taken_down calls l))%Z.
Proof.
  revert l. induction calls as [|c calls IH]; intros l Hlt Hwf.
  - cbn. split; [exact Hwf | lia].
  - cbn [length] in Hlt. unfold history. cbn [fold_left taken_down].
    destruct (submit_invariant t l c) as [Hwf' Hi']; [lia | exact Hwf |].
    destruct (IH (submit l c)) as [Hwf'' Hi'']; [| exact Hwf' |].
    + rewrite Hi'. destruct c; [lia |]. destruct (accepted _ _); lia.
    + unfold history in *. split; [exact Hwf'' |].
      rewrite Hi'', Hi'. destruct c; [lia |].
      destruct (accepted _ _); lia.
Qed.

(** X4.  From the constructor on, through any run of calls of [post] and
    [take_down], accepted or rejected, with any keys: the title is the
    one the constructor was given; the board is vacant exactly when the
    ledger holds no message; while it is occupied the poster on the
    ledger is the public key of some secret at the current instance; and
    the instance counter is 1 plus the number of take-downs that went
    through. *)
Theorem ledger_stays_well_formed (t : string) (calls : list Call) :
  (1 + Z.of_nat (length calls) < 2 ^ 64)%Z ->
  exists l0,
    constructor t = Done l0
    /\ let l := history calls l0 in
       title l = t
       /\ (state l = BoardCli.vacant <-> BoardCli.is_some (message l) = false)
       /\ (state l = BoardCli.occupied ->
           exists sk, poster l = public_key sk (field_as_bytes (instance l)))
       /\ instance l = (1 + Z.of_nat (taken_down calls l0))%Z.
Proof.
  intros Hlt. eexists. split.
  - unfold constructor. rewrite increment_below; [reflexivity |].
    cbn. lia.
  - cbn zeta.
    match goal with |- context [history calls ?x] => set (l0 := x) end.
    destruct (history_invariant t calls l0) as [(Ht & Hm & Hp & Hi) Hinst].
    + cbn. lia.
    + by repeat split.
    + repeat split; tauto || exact Hinst.
Qed.

End ContractProperties.

(** ** Random bytes, hexadecimal strings and seeds *)

Section BytesAndSeeds.

Lemma with_logged_nil (w : World) : having_logged [] w = w.
Proof. unfold having_logged. rewrite app_nil_r. by destruct w. Qed.

Lemma having_logged_app (a b : list LogEntry) (w : World) :
  having_logged b (having_logged a w) = having_logged (a ++ b) w.
Proof. unfold having_logged, with_logged. cbn. by rewrite app_assoc. Qed.

Lemma hexDigit_in (n : nat) : hexDigit n ∈ hexDigits.
Proof.
  unfold hexDigits.
  do 16 (destruct n as [|n]; [cbn; set_solver |]). cbn. set_solver.
Qed.

Lemma toHex_cons (b : byte) (bytes : list byte) :
  toHex (b :: bytes)
  = String (hexDigit (Byte.to_nat b / 16))
      (String (hexDigit (Byte.to_nat b mod 16)) (toHex bytes)).
Proof. reflexivity. Qed.

(** [toHex] writes two digits per byte, all of them among
    [0123456789abcdef], and the string of a concatenation is the
    concatenation of the strings. *)
Lemma toHex_two_digits_per_byte (a b : list byte) :
  hex_string (2 * length a) (toHex a)
  /\ toHex (a ++ b) = toHex a +:+ toHex b.
Proof.
  split; [split |].
  - induction a as [|x a IH]; [reflexivity |].
    rewrite toHex_cons. cbn [String.length length]. rewrite IH. lia.
  - induction a as [|x a IH]; [constructor |].
    rewrite toHex_cons. cbn [list_ascii_of_string].
    constructor; [apply hexDigit_in |].
    constructor; [apply hexDigit_in | exact IH].
  - induction a as [|x a IH]; [reflexivity |].
    cbn [app]. rewrite !toHex_cons, IH. reflexivity.
Qed.

End BytesAndSeeds.

(** ** The wallet choice *)

Section WalletChoice.
Variable nativeToken : string.
Variable buildFromSeed :
  string -> completion (Wallet.WalletState * list (Z * Wallet.WalletState)).
Import Startup.

Lemma chooseWallet_invalid (choice : string) (rest : list string) (w : World) :
  choice ∉ ["1"; "2"; "3"] ->
  Startup.chooseWallet nativeToken buildFromSeed (choice :: rest) w
  = Startup.chooseWallet nativeToken buildFromSeed rest (having_logged (invalid_choices [choice]) w).
Proof.
  intros Hnot. cbn [Startup.chooseWallet].
  repeat case_match; try reflexivity; exfalso; apply Hnot; subst;
    set_solver.
Qed.

(** X5.  Outside the standalone configuration, answers to the wallet
    question that are none of 1, 2, 3 are each reported as an invalid
    choice and the question is asked again: they change nothing but the
    log, whatever follows them.  After any such run, answer 3 returns
    without a wallet, the store and the random source untouched, and with
    no further answer [buildWallet] is still waiting at its question. *)
Theorem invalid_wallet_choices_only_log
    (invalid rest : list string) (w : World) :
  Forall (fun choice => choice ∉ ["1"; "2"; "3"]) invalid ->
  let w' := having_logged (invalid_choices invalid) w in
  Startup.buildWallet nativeToken buildFromSeed false (invalid ++ rest) w = Startup.buildWallet nativeToken buildFromSeed false rest w'
  /\ Startup.buildWallet nativeToken buildFromSeed false invalid w = (w', Return (AwaitingAnswer WALLET_LOOP_QUESTION))
  /\ Startup.buildWallet nativeToken buildFromSeed false (invalid ++ "3" :: rest) w
     = (having_logged [{| level := info; message := "Exiting..." |}] w',
        Return NoWallet)
  /\ privateStates w' = privateStates w
  /\ drawn w' = drawn w.
Proof.
  intros Hall. cbn zeta.
  assert (Hskip : forall rest',
    Startup.chooseWallet nativeToken buildFromSeed (invalid ++ rest') w
    = Startup.chooseWallet nativeToken buildFromSeed rest' (having_logged (invalid_choices invalid) w)).
  { intros rest'. revert w.
    induction Hall as [|choice invalid Hc _ IH]; intros w.
    - by rewrite with_logged_nil.
    - cbn [app]. rewrite (chooseWallet_invalid choice _ w Hc), IH.
      by rewrite having_logged_app. }
  unfold Startup.buildWallet.
  split; [apply Hskip |]. split; [| split; [| by split]].
  - rewrite <- (app_nil_r invalid) at 1. by rewrite Hskip.
  - by rewrite Hskip.
Qed.

(** X6.  Answer 1 builds the wallet from a fresh seed: the 64 hexadecimal
    digits of the next 32 bytes of the random source, which are drawn and
    nothing else of the source.  When the wallet builds, the first thing
    logged is that seed, and the wallet [buildWallet] goes on with, or
    waits for funds on, is the one of that seed. *)
Theorem fresh_wallet_seed_is_32_random_bytes
    (rest : list string) (w : World) :
  let seed := toHex (map (entropy w) (seq (drawn w) 32)) in
  hex_string 64 seed
  /\ match buildFromSeed seed with
     | Throw e =>
         Startup.buildWallet nativeToken buildFromSeed false ("1" :: rest) w
         = (with_drawn (drawn w + 32) w, Throw e)
     | Return (state, states) =>
         exists lines built,
           Startup.buildWallet nativeToken buildFromSeed false ("1" :: rest) w
           = (having_logged
                ({| level := info;
                    message := "Your wallet seed is: " +:+ seed |} :: lines)
                (with_drawn (drawn w + 32) w),
              Return built)
           /\ (built = AwaitingFunds seed \/ exists b, built = Ready seed b)
     end.
Proof.
  cbn zeta. split.
  - destruct (toHex_two_digits_per_byte
                (map (entropy w) (seq (drawn w) 32)) []) as [Hhex _].
    by rewrite length_map, length_seq in Hhex.
  - unfold Startup.buildWallet. cbn [Startup.chooseWallet].
    unfold Startup.buildFreshWallet, mbind, M_bind.
    cbn [utils.randomBytes].
    unfold Startup.buildWalletAndWaitForFunds.
    destruct (buildFromSeed _) as [[state states]|e]; [| reflexivity].
    unfold Wallet.buildWalletAndWaitForFunds.
    destruct (Wallet.waitForFunds nativeToken states) as [b|];
      destruct (Wallet.balances state !! nativeToken) as [b0|];
      try destruct (bool_decide (b0 = 0)%Z);
      eexists _, _; (split; [reflexivity |]); eauto.
Qed.

End WalletChoice.

(** ** The port mapping *)

Section PortMapping.
Import Startup.

Lemma onlySlashes_slashes (s : string) :
  onlySlashes s = true -> s = slashes (String.length s).
Proof.
  induction s as [|c s IH]; [reflexivity |]. cbn.
  intros [Hc Hs]%andb_true_iff. apply bool_decide_eq_true in Hc as ->.
  by rewrite <- IH.
Qed.

Lemma slashes_only (k : nat) : onlySlashes (slashes k) = true.
Proof.
  induction k as [|k IH]; [reflexivity |]. cbn [slashes onlySlashes].
  by rewrite bool_decide_eq_true_2, IH.
Qed.

Lemma dropTrailingSlashes_spec (s : string) :
  exists k,
    s = dropTrailingSlashes s +:+ slashes k
    /\ lastChar (dropTrailingSlashes s) <> Some "/"%char.
Proof.
  induction s as [|c s (k & Hk & Hlast)]; [by exists 0 |].
  cbn [dropTrailingSlashes].
  destruct (onlySlashes (String c s)) eqn:Hall.
  - exists (String.length (String c s)). split; [| done].
    by apply onlySlashes_slashes.
  - exists k. split; [by rewrite Hk at 1 |].
    cbn [lastChar].
    destruct (dropTrailingSlashes s) as [|c' s'] eqn:Hd; [| exact Hlast].
    intros [= ->]. cbn in Hk. subst s.
    change (onlySlashes (slashes (S k)) = false) in Hall.
    by rewrite slashes_only in Hall.
Qed.

(** X7.  What [mapContainerPort] returns never ends in a slash: it is
    the text of the URL with the mapped port of the container, less the
    run of slashes at its end.  It throws what the URL parser or the
    container lookup throws, the parser first. *)
Theorem mapped_url_has_no_trailing_slash `{Host}
    (url containerName : string) :
  match new_URL url with
  | Throw e => mapContainerPort url containerName = Throw e
  | Return mappedUrl =>
      match getFirstMappedPort containerName with
      | Throw e => mapContainerPort url containerName = Throw e
      | Return port =>
          exists r k,
            mapContainerPort url containerName = Return r
            /\ URL_toString (set_port mappedUrl (pretty port))
               = r +:+ slashes k
            /\ lastChar r <> Some "/"%char
      end
  end.
Proof.
  unfold mapContainerPort, mbind, completion_bind.
  destruct (new_URL url) as [u|e]; [| reflexivity].
  destruct (getFirstMappedPort containerName) as [port|e]; [| reflexivity].
  destruct (dropTrailingSlashes_spec
              (URL_toString (set_port u (pretty port)))) as (k & Hk & Hlast).
  eexists _, k. split; [reflexivity |]. by split.
Qed.

End PortMapping.

(** ** Establishing a session *)

Section Establishing.
Context {D : Type} {P : ApiPackage D}.
Variable menu : string -> Api -> option D -> Driver.Prompted.
Import Driver.

Lemma deployOrJoin_invalid (choice : string) (w : World) :
  choice ∉ ["1"; "2"; "3"] ->
  deployOrJoin choice w
  = {| world := having_logged (invalid_choices [choice]) w;
       phase := DeployOrJoin; session := None |}.
Proof.
  intros Hnot. unfold deployOrJoin.
  repeat case_match; try reflexivity; exfalso; apply Hnot; subst;
    set_solver.
Qed.

(** X8.  At the question of [deployOrJoin], answers that are none of 1,
    2, 3 are each reported as an invalid choice and the question is asked
    again: no contract is deployed or joined, nothing is subscribed and
    only the log changes.  After any such run, answer 3 makes [mainLoop]
    return with no session. *)
Theorem invalid_deploy_or_join_choices_only_log
    (invalid : list string) (w : World) :
  Forall (fun choice => choice ∉ ["1"; "2"; "3"]) invalid ->
  let w' := having_logged (invalid_choices invalid) w in
  mainLoop menu (Line <$> invalid) w
  = {| world := w'; phase := DeployOrJoin; session := None |}
  /\ mainLoop menu ((Line <$> invalid) ++ [Line "3"]) w
     = {| world :=
            having_logged [{| level := info; message := "Exiting..." |}] w';
          phase := Finished (Return tt); session := None |}
  /\ privateStates w' = privateStates w
  /\ drawn w' = drawn w.
Proof.
  intros Hall. cbn zeta.
  assert (Hrun : mainLoop menu (Line <$> invalid) w
                 = {| world := having_logged (invalid_choices invalid) w;
                      phase := DeployOrJoin; session := None |}).
  { unfold mainLoop. revert w.
    induction Hall as [|choice invalid Hc _ IH]; intros w.
    - cbn. by rewrite with_logged_nil.
    - cbn [fmap list_fmap fold_left]. unfold mainLoop_step at 2.
      cbn [phase world]. rewrite (deployOrJoin_invalid choice w Hc).
      rewrite IH. by rewrite having_logged_app. }
  split; [exact Hrun |]. split; [| by split].
  unfold mainLoop in *. rewrite fold_left_app, Hrun. reflexivity.
Qed.

End Establishing.

Section VotingSession.
Context `{ContractPackage} `{ContractHelpers}.
#[local] Existing Instance votingApi.
Import Driver.

Lemma getPrivateState_retrieved (w : World) :
  BBoardAPI.getPrivateState w = (after_retrieval w, Return (retrieved w)).
Proof.
  unfold after_retrieval, retrieved.
  destruct (privateStates w !! "bboardPrivateState") as [ps|] eqn:Hps.
  - by apply getPrivateState_existing.
  - by apply getPrivateState_absent.
Qed.

Lemma deploy_by_cases (w : World) :
  let w0 :=
    after_retrieval
      (having_logged [{| level := info; message := "deployContract" |}] w) in
  BBoardAPI.deploy w
  = match
      deployContract
        {| deploy_privateStateKey := "bboardPrivateState";
           deploy_initialPrivateState := retrieved w |} w0
    with
    | (w1, Throw e) => (w1, Throw e)
    | (w1, Return dc) =>
        (having_logged
           [{| level := trace;
               message := "contractDeployed: " +:+ contractAddress dc |}] w1,
         Return {| BBoardAPI.deployedContract := dc;
                   BBoardAPI.deployedContractAddress := contractAddress dc;
                   BBoardAPI.privateRead := stored w1 |})
    end.
Proof.
  cbn zeta. unfold BBoardAPI.deploy.
  unfold mbind at 1, M_bind at 1. cbn [logger.log].
  unfold mbind at 1, M_bind at 1.
  change (with_logged _ w)
    with (having_logged [{| level := info; message := "deployContract" |}] w).
  rewrite getPrivateState_retrieved.
  change (retrieved (having_logged _ w)) with (retrieved w).
  unfold mbind at 1, M_bind at 1.
  destruct (deployContract _ _) as [w1 [dc|e]]; reflexivity.
Qed.

Lemma join_by_cases (address : ContractAddress) (w : World) :
  let w0 :=
    after_retrieval
      (having_logged
         [{| level := info; message := "joinContract: " +:+ address |}] w) in
  BBoardAPI.join address w
  = match
      findDeployedContract
        {| find_contractAddress := address;
           find_privateStateKey := "bboardPrivateState";
           find_initialPrivateState := retrieved w |} w0
    with
    | (w1, Throw e) => (w1, Throw e)
    | (w1, Return dc) =>
        (having_logged
           [{| level := trace;
               message := "contractJoined: " +:+ contractAddress dc |}] w1,
         Return {| BBoardAPI.deployedContract := dc;
                   BBoardAPI.deployedContractAddress := contractAddress dc;
                   BBoardAPI.privateRead := stored w1 |})
    end.
Proof.
  cbn zeta. unfold BBoardAPI.join.
  unfold mbind at 1, M_bind at 1. cbn [logger.log].
  unfold mbind at 1, M_bind at 1.
  change (with_logged _ w)
    with (having_logged
            [{| level := info; message := "joinContract: " +:+ address |}] w).
  rewrite getPrivateState_retrieved.
  change (retrieved (having_logged _ w)) with (retrieved w).
  unfold mbind at 1, M_bind at 1.
  destruct (findDeployedContract _ _) as [w1 [dc|e]]; reflexivity.
Qed.

(** X9.  [deploy] and [join], once the read of the store in
    [getPrivateState] has answered, stand and fall with their helper.
    With the private state [ps] that [getPrivateState] came back with:
    when the helper, given [ps], throws, [deploy] (or [join]) throws the
    same in the world the helper left, and [mainLoop] ends with that
    value and no session, nothing subscribed.  When the helper returns a
    contract, the API instance carries that contract and its address,
    its private read is what the store answers under
    ["bboardPrivateState"] at that moment (when it answers), and
    [mainLoop] is at its menu with a fresh subscription for it, the
    address logged. *)
Theorem session_is_established_when_the_helper_returns
    (address : ContractAddress) (w wd wj : World)
    (psd psj : BBoardPrivateState) :
  BBoardAPI.getPrivateState
    (having_logged [{| level := info; message := "deployContract" |}] w)
  = (wd, Return psd) ->
  BBoardAPI.getPrivateState
    (having_logged
       [{| level := info; message := "joinContract: " +:+ address |}] w)
  = (wj, Return psj) ->
  match
    deployContract
      {| deploy_privateStateKey := "bboardPrivateState";
         deploy_initialPrivateState := psd |} wd
  with
  | (w1, Throw e) =>
      BBoardAPI.deploy w = (w1, Throw e)
      /\ VotingCli.mainLoop [Line "1"] w
         = {| world := w1; phase := Finished (Throw e); session := None |}
  | (w1, Return dc) =>
      exists api w2,
        BBoardAPI.deploy w = (w2, Return api)
        /\ same_but_log w1 w2
        /\ BBoardAPI.deployedContract api = dc
        /\ BBoardAPI.deployedContractAddress api = contractAddress dc
        /\ (forall r,
              snd (privateStateProvider.get "bboardPrivateState" w2)
              = Return r ->
              BBoardAPI.privateRead api = r)
        /\ VotingCli.mainLoop [Line "1"] w
           = {| world :=
                  having_logged
                    [{| level := info;
                        message :=
                          "Deployed contract at address: "
                          +:+ contractAddress dc |}] w2;
                phase := MainMenu;
                session := Some (subscribed api) |}
  end
  /\ match
       findDeployedContract
         {| find_contractAddress := address;
            find_privateStateKey := "bboardPrivateState";
            find_initialPrivateState := psj |} wj
     with
     | (w1, Throw e) =>
         BBoardAPI.join address w = (w1, Throw e)
         /\ VotingCli.mainLoop [Line "2"; Line address] w
            = {| world := w1; phase := Finished (Throw e);
                 session := None |}
     | (w1, Return dc) =>
         exists api w2,
           BBoardAPI.join address w = (w2, Return api)
           /\ same_but_log w1 w2
           /\ BBoardAPI.deployedContract api = dc
           /\ BBoardAPI.deployedContractAddress api = contractAddress dc
           /\ (forall r,
                 snd (privateStateProvider.get "bboardPrivateState" w2)
                 = Return r ->
                 BBoardAPI.privateRead api = r)
           /\ VotingCli.mainLoop [Line "2"; Line address] w
              = {| world :=
                     having_logged
                       [{| level := info;
                           message :=
                             "Joined contract at address: "
                             +:+ contractAddress dc |}] w2;
                   phase := MainMenu;
                   session := Some (subscribed api) |}
     end.
Proof.
  intros Hgd Hgj.
  rewrite getPrivateState_retrieved in Hgd, Hgj.
  injection Hgd as <- <-. injection Hgj as <- <-.
  change (retrieved (having_logged _ w)) with (retrieved w).
  split.
  - pose proof (deploy_by_cases w) as Hd. cbn zeta in Hd.
    destruct (deployContract _ _) as [w1 [dc|e]].
    + eexists _, _. split; [exact Hd |].
      split; [by repeat split |]. split; [reflexivity |].
      split; [reflexivity |]. split.
      { intros r. unfold privateStateProvider.get, stored. cbn.
        by intros [= <-]. }
      unfold VotingCli.mainLoop, mainLoop. cbn [fold_left].
      unfold mainLoop_step. cbn [phase world deployOrJoin api_deploy votingApi].
      unfold established. rewrite Hd. reflexivity.
    + split; [exact Hd |].
      unfold VotingCli.mainLoop, mainLoop. cbn [fold_left].
      unfold mainLoop_step. cbn [phase world deployOrJoin api_deploy votingApi].
      unfold established. rewrite Hd. reflexivity.
  - pose proof (join_by_cases address w) as Hj. cbn zeta in Hj.
    destruct (findDeployedContract _ _) as [w1 [dc|e]].
    + eexists _, _. split; [exact Hj |].
      split; [by repeat split |]. split; [reflexivity |].
      split; [reflexivity |]. split.
      { intros r. unfold privateStateProvider.get, stored. cbn.
        by intros [= <-]. }
      unfold VotingCli.mainLoop, mainLoop. cbn [fold_left].
      unfold mainLoop_step at 2. cbn [phase world deployOrJoin].
      unfold mainLoop_step. cbn [phase world api_join votingApi].
      unfold established. rewrite Hj. reflexivity.
    + split; [exact Hj |].
      unfold VotingCli.mainLoop, mainLoop. cbn [fold_left].
      unfold mainLoop_step at 2. cbn [phase world deployOrJoin].
      unfold mainLoop_step. cbn [phase world api_join votingApi].
      unfold established. rewrite Hj. reflexivity.
Qed.

End VotingSession.

(** ** The menu of the voting driver *)

Section VotingMenu.
Context `{ContractPackage} `{ContractHelpers}.
#[local] Existing Instance votingApi.
Import Driver.

Implicit Types (st : Loop) (s : Session).

Lemma menu_step st s (choice : string) (body : M Control) :
  phase st = MainMenu ->
  session st = Some s ->
  VotingCli.menu choice (bboardApi s) (currentState s) = Now body ->
  VotingCli.mainLoop_step st (Line choice) = iteration body st.
Proof.
  intros Hp Hs Hm. unfold VotingCli.mainLoop_step, mainLoop_step.
  by rewrite Hp, Hs, Hm.
Qed.

Lemma iteration_then_continue (m : M unit) st :
  iteration (m;; mret Continue) st = after_iteration st (m (world st)).
Proof.
  unfold iteration, after_iteration, mbind, M_bind.
  by destruct (m (world st)) as [w [[]|e]].
Qed.

(** X10.  A vote is one call of its circuit, and a rejected call ends the
    session: at the menu, choices 2, 3 and 4 submit [increment1],
    [increment2] and [increment3] on the contract of the session; when
    the call returns the menu is shown again, and when it throws the loop
    is left with the thrown value, the subscription unsubscribed on the
    way out. *)
Theorem rejected_vote_ends_the_loop
    st s (choice : string) (call : CircuitCall) :
  phase st = MainMenu ->
  session st = Some s ->
  vote_of choice = Some call ->
  VotingCli.mainLoop_step st (Line choice)
  = after_iteration st
      (callTx (BBoardAPI.deployedContract (bboardApi s)) call (world st)).
Proof.
  intros Hp Hs Hv.
  assert (Hc : choice = "2" /\ call = call_increment1
               \/ choice = "3" /\ call = call_increment2
               \/ choice = "4" /\ call = call_increment3).
  { unfold vote_of in Hv. repeat case_match; simplify_eq; auto. }
  destruct Hc as [[-> ->]|[[-> ->]|[-> ->]]].
  - rewrite (menu_step st s "2" _ Hp Hs eq_refl).
    apply iteration_then_continue.
  - rewrite (menu_step st s "3" _ Hp Hs eq_refl).
    apply iteration_then_continue.
  - rewrite (menu_step st s "4" _ Hp Hs eq_refl).
    apply iteration_then_continue.
Qed.

(** X11.  Choice 1 authorizes the user's own key.  With a record in the
    store on whose secret key the [public_key] circuit returns [pk], one
    line goes to the console and the one call submitted is
    [add_authority(pk)].  With no record in the store, reading the secret
    key of [null] throws a [TypeError]: the loop is left with it and no
    call is submitted, the world unchanged.  When the circuit throws, the
    loop is left with what it threw, again without a call. *)
Theorem add_authority_uses_the_stored_key st s :
  phase st = MainMenu ->
  session st = Some s ->
  match privateStates (world st) !! "bboardPrivateState" with
  | None =>
      VotingCli.mainLoop_step st (Line "1")
      = after_iteration st
          (world st,
           Throw (JsError "TypeError: Cannot read properties of null"))
  | Some ps =>
      match public_key (secretKey ps) with
      | Throw e =>
          VotingCli.mainLoop_step st (Line "1")
          = after_iteration st (world st, Throw e)
      | Return pk =>
          exists line,
            level line = console
            /\ VotingCli.mainLoop_step st (Line "1")
               = after_iteration st
                   (callTx (BBoardAPI.deployedContract (bboardApi s))
                      (call_add_authority pk)
                      (having_logged [line] (world st)))
      end
  end.
Proof.
  intros Hp Hs. rewrite (menu_step st s "1" _ Hp Hs eq_refl).
  unfold iteration, after_iteration, mbind, M_bind,
    privateStateProvider.get, lift, BBoardAPI.add_authority.
  destruct (privateStates (world st) !! "bboardPrivateState") as [ps|];
    [| reflexivity].
  cbn [member]. destruct (public_key (secretKey ps)) as [pk|e];
    [| reflexivity].
  cbn [logger.log]. unfold having_logged.
  exists {| level := console;
            message :=
              "{ sk: " +:+ toHex (secretKey ps)
              +:+ ", pk: " +:+ toHex pk +:+ " }" |}.
  split; [reflexivity |].
  by destruct (callTx _ _ _) as [w [[]|e]].
Qed.

Lemma log_same (l : Level) (msg : string) (w : World) :
  same_but_log w (fst (logger.log l msg w)).
Proof. by repeat split. Qed.

Lemma same_but_log_trans (w1 w2 w3 : World) :
  same_but_log w1 w2 -> same_but_log w2 w3 -> same_but_log w1 w3.
Proof.
  intros (? & ? & ? & ? & ?) (? & ? & ? & ? & ?).
  repeat split; congruence.
Qed.

Lemma same_but_log_refl (w : World) : same_but_log w w.
Proof. by repeat split. Qed.

(** [displayPrivateState] shows the stored key and never fails. *)
Lemma displayPrivateState_shows_the_key (w : World) :
  VotingCli.displayPrivateState w
  = (having_logged
       [{| level := info;
           message :=
             match privateStates w !! "bboardPrivateState" with
             | Some ps => "Current secret key is: " +:+ toHex (secretKey ps)
             | None => "There is no existing voting board private state"
             end |}] w,
     Return tt).
Proof.
  unfold VotingCli.displayPrivateState, Driver.displayPrivateState,
    mbind, M_bind, privateStateProvider.get.
  by destruct (privateStates w !! "bboardPrivateState").
Qed.

Lemma displayLedgerState_reads_only (dc : DeployedBBoardContract) (w : World) :
  same_but_log w (fst (VotingCli.displayLedgerState dc w)).
Proof.
  unfold VotingCli.displayLedgerState, Driver.getBBoardLedgerState,
    publicDataProvider.queryContractState, mbind, M_bind, lift.
  destruct (indexer w (contractAddress dc)) as [[| |cs]|e]; cbn;
    try apply same_but_log_refl; try apply log_same.
  destruct (ledger (data cs)) as [l|e]; cbn; by repeat split.
Qed.

(** X12.  The two display choices read and log only.  Choice 6, when
    the read of the store answers with a record, logs its secret key as
    hexadecimal digits, and when it answers [null], logs that there is
    no private state; either way the menu is shown again.  Choice 5
    leaves the store, the random source and the network as they are,
    whether it goes back to the menu or leaves the loop on an error of
    the indexer or of the decoder. *)
Theorem display_choices_only_read st s :
  phase st = MainMenu ->
  session st = Some s ->
  (forall ps,
     snd (privateStateProvider.get "bboardPrivateState" (world st))
     = Return (val ps) ->
     VotingCli.mainLoop_step st (Line "6")
     = {| world :=
            having_logged
              [{| level := info;
                  message :=
                    "Current secret key is: " +:+ toHex (secretKey ps) |}]
              (world st);
          phase := MainMenu;
          session := session st |})
  /\ (snd (privateStateProvider.get "bboardPrivateState" (world st))
      = Return null ->
      VotingCli.mainLoop_step st (Line "6")
      = {| world :=
             having_logged
               [{| level := info;
                   message :=
                     "There is no existing voting board private state" |}]
               (world st);
           phase := MainMenu;
           session := session st |})
  /\ same_but_log (world st) (world (VotingCli.mainLoop_step st (Line "5")))
  /\ (phase (VotingCli.mainLoop_step st (Line "5")) = MainMenu
      \/ exists e,
           phase (VotingCli.mainLoop_step st (Line "5")) = Finished (Throw e)
           /\ (indexer (world st)
                 (contractAddress (BBoardAPI.deployedContract (bboardApi s)))
               = Throw e
               \/ exists cs,
                    indexer (world st)
                      (contractAddress
                         (BBoardAPI.deployedContract (bboardApi s)))
                    = Return (val cs)
                    /\ ledger (data cs) = Throw e)).
Proof.
  intros Hp Hs. split; [| split; [| split]].
  - intros ps Hread.
    rewrite (menu_step st s "6" _ Hp Hs eq_refl), iteration_then_continue.
    rewrite displayPrivateState_shows_the_key.
    unfold privateStateProvider.get in Hread. cbn in Hread.
    by destruct (privateStates (world st) !! "bboardPrivateState");
      simplify_eq.
  - intros Hread.
    rewrite (menu_step st s "6" _ Hp Hs eq_refl), iteration_then_continue.
    rewrite displayPrivateState_shows_the_key.
    unfold privateStateProvider.get in Hread. cbn in Hread.
    by destruct (privateStates (world st) !! "bboardPrivateState");
      simplify_eq.
  - rewrite (menu_step st s "5" _ Hp Hs eq_refl), iteration_then_continue.
    pose proof (displayLedgerState_reads_only
                  (BBoardAPI.deployedContract (bboardApi s)) (world st)) as Hr.
    by destruct (VotingCli.displayLedgerState _ _) as [w [[]|e]].
  - rewrite (menu_step st s "5" _ Hp Hs eq_refl), iteration_then_continue.
    unfold VotingCli.displayLedgerState, Driver.getBBoardLedgerState,
      publicDataProvider.queryContractState, mbind, M_bind, lift.
    destruct (indexer (world st) _) as [[| |cs]|e]; cbn; eauto.
    destruct (ledger (data cs)) as [l|e] eqn:Hl; cbn; [by left |].
    right. exists e. split; [done |]. right. exists cs. by split.
Qed.

End VotingMenu.

(** ** The state the driver shows *)

Section Tracking.
Context `{ContractPackage} `{ContractHelpers}.
#[local] Existing Instance votingApi.
Import Driver.
#[local] Open Scope list_scope.

Implicit Types (st : Loop) (s : Session) (script : list Input).

Variable menu : string -> Api -> option BBoardDerivedState -> Prompted.

Lemma fold_notify (out : list (Notification BBoardDerivedState)) s :
  currentState s = last (observed s) ->
  let s' := fold_left notify out s in
  bboardApi s' = bboardApi s
  /\ subscription s' = subscription s
  /\ observed s' = (observed s ++ emissions out)%list
  /\ currentState s' = last (observed s').
Proof.
  revert s. induction out as [|n out IH]; intros s Hcur; cbn zeta.
  - cbn. by rewrite app_nil_r.
  - cbn [fold_left]. destruct n as [d| |]; cbn [notify].
    + destruct (IH (stateObserver_next d s)) as (Ha & Hs & Ho & Hc).
      { cbn. by rewrite last_snoc. }
      rewrite Ha, Hs, Ho, Hc, Ho. cbn.
      by rewrite <- app_assoc.
    + by apply IH.
    + by apply IH.
Qed.

(** Every state [deliver] hands out is the view of the ledger it then
    holds, and that ledger is the one it held or the one just decoded. *)
Lemma deliver_provenance (api : BBoardAPI.t) (ev : SourceEvent)
    (sub : BBoardAPI.Subscription) :
  let sub' := fst (BBoardAPI.deliver api ev sub) in
  (forall l, BBoardAPI.latestLedger sub' = Some l ->
             BBoardAPI.latestLedger sub = Some l
             \/ exists cs, ev = ContractStateNext cs
                           /\ ledger (data cs) = Return l)
  /\ Forall (fun d => exists l, BBoardAPI.latestLedger sub' = Some l
                                /\ d = counters l)
       (emissions (snd (BBoardAPI.deliver api ev sub))).
Proof.
  cbn zeta. unfold BBoardAPI.deliver.
  destruct (BBoardAPI.closed sub) eqn:Hc; [split; [auto | constructor] |].
  destruct ev as [cs|e| |].
  - destruct (BBoardAPI.ledgerDone sub); [split; [auto | constructor] |].
    destruct (ledger (data cs)) as [l|e] eqn:Hl;
      [| split; [auto | constructor]].
    destruct (emit_spec (BBoardAPI.set_ledger l sub))
      as [(l' & p & d & Hl' & Hp' & Hd & ->)
         |[(l' & p & e & Hl' & Hp' & Hd & ->)|[Hnone ->]]]; cbn.
    + split; [intros ? [= <-]; eauto |].
      cbn in Hl'. injection Hl' as <-.
      apply stateProjection_value in Hd as ->.
      repeat constructor. eauto.
    + split; [intros ? [= <-]; eauto | constructor].
    + split; [intros ? [= <-]; eauto | constructor].
  - destruct (BBoardAPI.ledgerDone sub); split; auto; constructor.
  - destruct (BBoardAPI.ledgerDone sub); [split; [auto | constructor] |].
    destruct (settle_slots (BBoardAPI.finish_ledger sub))
      as (Hsl & _ & _ & Hem).
    rewrite Hsl, Hem. split; [auto | constructor].
  - destruct (BBoardAPI.privateDone sub); [split; [auto | constructor] |].
    destruct (BBoardAPI.emit (BBoardAPI.set_private _ sub))
      as [s1 out1] eqn:He.
    destruct (BBoardAPI.settle (BBoardAPI.finish_private s1))
      as [s2 out2] eqn:Hst.
    destruct (settle_slots (BBoardAPI.finish_private s1))
      as (Hsl & _ & _ & Hem).
    rewrite Hst in Hsl, Hem.
    cbn [fst snd BBoardAPI.latestLedger BBoardAPI.finish_private] in Hsl, Hem.
    cbn [fst snd]. rewrite emissions_app, Hem, app_nil_r, Hsl.
    destruct (emit_spec (BBoardAPI.set_private (BBoardAPI.privateRead api) sub))
      as [(l' & p & d & Hl' & Hp' & Hd & Heq)
         |[(l' & p & e & Hl' & Hp' & Hd & Heq)|[Hnone Heq]]];
      rewrite Heq in He; injection He as <- <-; cbn in *.
    + split; [auto |].
      apply stateProjection_value in Hd as ->.
      repeat constructor. eauto.
    + split; [auto | constructor].
    + split; [auto | constructor].
Qed.

Lemma delivered_in_more script (more : list Input) (d : BBoardDerivedState) :
  delivered_in script d -> delivered_in (script ++ more) d.
Proof.
  intros (cs & l & Hin & Hl & ->). exists cs, l.
  split; [| by split]. apply elem_of_app. by left.
Qed.

Lemma observe_tracked script (ev : SourceEvent) s :
  currentState s = last (observed s) ->
  Forall (delivered_in script) (observed s) ->
  (forall l, BBoardAPI.latestLedger (subscription s) = Some l ->
             exists cs, Source (ContractStateNext cs) ∈ script
                        /\ ledger (data cs) = Return l) ->
  let s' := observe ev s in
  bboardApi s' = bboardApi s
  /\ (exists new, observed s' = (observed s ++ new)%list)
  /\ currentState s' = last (observed s')
  /\ Forall (delivered_in (script ++ [Source ev])) (observed s')
  /\ forall l, BBoardAPI.latestLedger (subscription s') = Some l ->
               exists cs, Source (ContractStateNext cs) ∈ script ++ [Source ev]
                          /\ ledger (data cs) = Return l.
Proof.
  intros Hcur Hobs Hled. cbn zeta. unfold observe.
  cbn [api_deliver votingApi].
  destruct (deliver_provenance (bboardApi s) ev (subscription s))
    as [Hprov Hout].
  destruct (BBoardAPI.deliver (bboardApi s) ev (subscription s))
    as [sub out] eqn:Hd. cbn [fst snd] in Hprov, Hout.
  destruct (fold_notify out
              {| bboardApi := bboardApi s; subscription := sub;
                 currentState := currentState s; observed := observed s |})
    as (Ha & Hs & Ho & Hc); [exact Hcur |].
  cbn [bboardApi subscription observed] in Ha, Hs, Ho.
  assert (Hled' : forall l, BBoardAPI.latestLedger sub = Some l ->
            exists cs, Source (ContractStateNext cs) ∈ script ++ [Source ev]
                       /\ ledger (data cs) = Return l).
  { intros l Hl. destruct (Hprov l Hl) as [Hold|(cs & -> & Hdec)].
    - destruct (Hled l Hold) as (cs & Hin & Hdec). exists cs.
      split; [apply elem_of_app; by left | exact Hdec].
    - exists cs. split; [| exact Hdec].
      apply elem_of_app. right. apply list_elem_of_here. }
  split; [exact Ha |]. split; [eauto |]. split; [exact Hc |].
  split; [| by rewrite Hs].
  rewrite Ho. apply Forall_app. split.
  - eapply Forall_impl; [exact Hobs |]. intros d. apply delivered_in_more.
  - eapply Forall_impl; [exact Hout |]. intros d (l & Hl & ->).
    destruct (Hled' l Hl) as (cs & Hin & Hdec). by exists cs, l.
Qed.

Lemma tracked_more script (inp : Input) st :
  tracked script st -> tracked (script ++ [inp]) st.
Proof.
  intros [Hnone Hsess]. split; [exact Hnone |].
  intros s Hs. destruct (Hsess s Hs) as (Hc & Ho & Hl).
  split; [exact Hc |]. split.
  - eapply Forall_impl; [exact Ho |]. intros d. apply delivered_in_more.
  - intros l Hled. destruct (Hl l Hled) as (cs & Hin & Hdec).
    exists cs. split; [apply elem_of_app; by left | exact Hdec].
Qed.

Lemma established_tracked script (verb : string)
    (r : World * completion BBoardAPI.t) :
  tracked script (established verb r).
Proof.
  unfold established. destruct r as [w [a|e]]; split; cbn; try done.
  - by intros [?|?].
  - intros s [= <-]. cbn. by repeat split.
Qed.

Lemma finished_tracked script (w : World) (c : completion unit) st :
  tracked script st ->
  tracked script
    {| world := w; phase := Finished c;
       session := finally_unsubscribe <$> session st |}.
Proof.
  intros [_ Hsess]. split; cbn; [by intros [?|?] |].
  intros s Hs. destruct (session st) as [s0|]; cbn in Hs; [| done].
  injection Hs as <-. destruct (Hsess s0 eq_refl) as (Hc & Ho & Hl).
  by repeat split.
Qed.

Lemma iteration_tracked script (body : M Control) st :
  tracked script st -> tracked script (iteration body st).
Proof.
  intros Hst. unfold iteration.
  destruct (body (world st)) as [w [[|]|e]];
    try by apply finished_tracked.
  destruct Hst as [_ Hsess]. split; cbn; [by intros [?|?] | exact Hsess].
Qed.

Lemma step_tracked script (inp : Input) st :
  tracked script st ->
  tracked (script ++ [inp]) (mainLoop_step menu st inp).
Proof.
  intros Hst. pose proof Hst as [Hnone Hsess]. unfold mainLoop_step.
  destruct inp as [text|e|ev].
  - destruct (phase st) as [| | |q k|c] eqn:Hp.
    + unfold deployOrJoin.
      repeat case_match; try apply established_tracked;
        split; cbn; try done; by intros [?|?].
    + apply established_tracked.
    + destruct (session st) as [s0|] eqn:Hs0;
        [| by apply tracked_more].
      destruct (menu text (bboardApi s0) (currentState s0)).
      * apply iteration_tracked. by apply tracked_more.
      * apply tracked_more with (inp := Line text) in Hst.
        destruct Hst as [_ Hsess'].
        split; cbn; [by intros [?|?] |].
        intros s Hs. rewrite <- Hs0 in Hs. by apply Hsess'.
    + apply iteration_tracked. by apply tracked_more.
    + by apply tracked_more.
  - destruct (phase st) as [| | |q k|c] eqn:Hp.
    + split; cbn; done.
    + split; cbn; done.
    + apply finished_tracked. by apply tracked_more.
    + apply finished_tracked. by apply tracked_more.
    + by apply tracked_more.
  - split; cbn.
    + intros Hp. by rewrite (Hnone Hp).
    + intros s Hs. destruct (session st) as [s0|] eqn:Hs0; cbn in Hs;
        [| done].
      injection Hs as <-. destruct (Hsess s0 eq_refl) as (Hc & Ho & Hl).
      destruct (observe_tracked script ev s0 Hc Ho Hl)
        as (_ & _ & Hc' & Ho' & Hl'). by repeat split.
Qed.

Lemma mainLoop_snoc script (inp : Input) (w : World) :
  mainLoop menu (script ++ [inp]) w
  = mainLoop_step menu (mainLoop menu script w) inp.
Proof. unfold mainLoop. by rewrite fold_left_app. Qed.

Lemma mainLoop_tracked script (w : World) :
  tracked script (mainLoop menu script w).
Proof.
  induction script as [|inp script IH] using rev_ind.
  - split; cbn; done.
  - rewrite mainLoop_snoc. by apply step_tracked.
Qed.

(** A session, once there, stays, with its API instance, and what it has
    observed only grows. *)
Lemma step_keeps_session script (inp : Input) st s :
  tracked script st ->
  session st = Some s ->
  exists s',
    session (mainLoop_step menu st inp) = Some s'
    /\ bboardApi s' = bboardApi s
    /\ observed s `prefix_of` observed s'.
Proof.
  intros [Hnone Hsess] Hs. unfold mainLoop_step.
  destruct st as [w p sess]. cbn in Hnone, Hsess, Hs. subst sess.
  cbn [phase session world].
  assert (Hiter : forall body,
    exists s', session (iteration body
                          {| world := w; phase := p; session := Some s |})
               = Some s'
               /\ bboardApi s' = bboardApi s
               /\ observed s `prefix_of` observed s').
  { intros body. unfold iteration. cbn [world session].
    destruct (body w) as [w' [[|]|e]]; cbn;
      eexists; (split; [reflexivity |]); by split. }
  destruct inp as [text|e|ev].
  - destruct p as [| | |q k|c].
    + by specialize (Hnone (or_introl eq_refl)).
    + by specialize (Hnone (or_intror eq_refl)).
    + destruct (menu text (bboardApi s) (currentState s));
        [apply Hiter |].
      cbn. eexists. split; [reflexivity |]. by split.
    + apply Hiter.
    + cbn. eexists. split; [reflexivity |]. by split.
  - destruct p as [| | |q k|c].
    + by specialize (Hnone (or_introl eq_refl)).
    + by specialize (Hnone (or_intror eq_refl)).
    + cbn. eexists. split; [reflexivity |]. by split.
    + cbn. eexists. split; [reflexivity |]. by split.
    + cbn. eexists. split; [reflexivity |]. by split.
  - cbn. eexists. split; [reflexivity |].
    destruct (Hsess s eq_refl) as (Hc & Ho & Hl).
    destruct (observe_tracked script ev s Hc Ho Hl)
      as (Ha & [new Hnew] & _).
    split; [exact Ha |]. rewrite Hnew. by apply prefix_app_r.
Qed.

Lemma mainLoop_keeps_session script (more : list Input) (w : World) s :
  session (mainLoop menu script w) = Some s ->
  exists s',
    session (mainLoop menu (script ++ more) w) = Some s'
    /\ bboardApi s' = bboardApi s
    /\ observed s `prefix_of` observed s'.
Proof.
  intros Hs. induction more as [|inp more IH] using rev_ind.
  - rewrite app_nil_r. exists s. by repeat split.
  - destruct IH as (s1 & Hs1 & Ha1 & Hp1).
    rewrite app_assoc, mainLoop_snoc.
    destruct (step_keeps_session (script ++ more) inp _ s1
                (mainLoop_tracked _ w) Hs1) as (s2 & Hs2 & Ha2 & Hp2).
    exists s2. split; [exact Hs2 |]. split; [congruence |].
    by etrans.
Qed.

End Tracking.

Section TrackingVoting.
Context `{ContractPackage} `{ContractHelpers}.
#[local] Existing Instance votingApi.
Import Driver.
#[local] Open Scope list_scope.

(** X13.  Through any inputs, once the voting driver has a session: the
    current state it holds is the last state its observer was handed;
    every state handed to the observer is the three counters of a
    contract state that the chain-state source delivered before and the
    decoder accepted; and whatever comes next, the session keeps its API
    instance (and with it its contract address) and the observed states
    only grow. *)
Theorem session_state_follows_the_stream
    (script more : list Input) (w : World) (s : Session) :
  session (VotingCli.mainLoop script w) = Some s ->
  currentState s = last (observed s)
  /\ Forall (delivered_in script) (observed s)
  /\ exists s',
       session (VotingCli.mainLoop (script ++ more) w) = Some s'
       /\ bboardApi s' = bboardApi s
       /\ observed s `prefix_of` observed s'.
Proof.
  intros Hs.
  destruct (mainLoop_tracked VotingCli.menu script w) as [_ Hsess].
  destruct (Hsess s Hs) as (Hc & Ho & _).
  split; [exact Hc |]. split; [exact Ho |].
  by apply mainLoop_keeps_session.
Qed.

End TrackingVoting.

(** ** The stream of derived states, from the subscriber's side *)

Section Stream.
Context `{ContractPackage}.
Import BBoardAPI.
#[local] Open Scope list_scope.

Implicit Types (api : t) (s : Subscription) (evs : list SourceEvent).

Lemma feed_closed api evs s :
  closed s = true -> feed api evs s = (s, []).
Proof.
  intros Hc. induction evs as [|ev evs IH]; [done |].
  rewrite feed_cons.
  assert (Hd : deliver api ev s = (s, [])) by (unfold deliver; by rewrite Hc).
  rewrite Hd. cbn [fst snd]. by rewrite IH.
Qed.

(** One source event, on a live subscription: values only and the
    subscription stays live, or values, one end, and it is closed. *)
Lemma deliver_shape api ev s :
  closed s = false ->
  let r := deliver api ev s in
  (closed (fst r) = false /\ Forall (fun n => terminal n = false) (snd r))
  \/ (closed (fst r) = true
      /\ exists vs n, snd r = vs ++ [n]
                      /\ Forall (fun n => terminal n = false) vs
                      /\ terminal n = true).
Proof.
  intros Hc. cbn zeta. unfold deliver. rewrite Hc.
  assert (Hemit : forall s0, closed s0 = false ->
    (closed (fst (emit s0)) = false
     /\ Forall (fun n => terminal n = false) (snd (emit s0))
     /\ ledgerDone (fst (emit s0)) = ledgerDone s0
     /\ privateDone (fst (emit s0)) = privateDone s0)
    \/ (closed (fst (emit s0)) = true
        /\ exists e, snd (emit s0) = [Failed e])).
  { intros s0 Hc0.
    destruct (emit_spec s0)
      as [(l & p & d & _ & _ & _ & ->)
         |[(l & p & e & _ & _ & _ & ->)|[_ ->]]]; cbn.
    - left. repeat split; try done. by repeat constructor.
    - right. split; [done |]. by exists e.
    - left. repeat split; try done. }
  assert (Hsettle : forall s0, closed s0 = false ->
    (closed (fst (settle s0)) = false /\ snd (settle s0) = [])
    \/ (closed (fst (settle s0)) = true /\ snd (settle s0) = [Completed])).
  { intros s0 Hc0. unfold settle. rewrite Hc0.
    destruct (ledgerDone s0 && privateDone s0); cbn; auto. }
  destruct ev as [cs|e| |].
  - destruct (ledgerDone s); [left; by split |].
    destruct (ledger (data cs)) as [l|e].
    + destruct (Hemit (set_ledger l s) Hc) as [(Hc' & Hv & _)|(Hc' & e & He)].
      * left. by split.
      * right. split; [done |]. exists [], (Failed e). by rewrite He.
    + right. split; [done |]. by exists [], (Failed e).
  - destruct (ledgerDone s); [left; by split |].
    right. split; [done |]. by exists [], (Failed e).
  - destruct (ledgerDone s); [left; by split |].
    destruct (Hsettle (finish_ledger s) Hc) as [[Hc' Ho]|[Hc' Ho]].
    + left. rewrite Ho. by split.
    + right. split; [done |]. exists [], Completed. by rewrite Ho.
  - destruct (privateDone s); [left; by split |].
    destruct (Hemit (set_private (privateRead api) s) Hc)
      as [(Hc' & Hv & _)|(Hc' & e & He)];
      destruct (emit (set_private (privateRead api) s)) as [s1 out1];
      cbn [fst snd] in *.
    + destruct (Hsettle (finish_private s1) Hc') as [[Hc2 Ho]|[Hc2 Ho]];
        destruct (settle (finish_private s1)) as [s2 out2];
        cbn [fst snd] in *; subst out2.
      * left. rewrite app_nil_r. by split.
      * right. split; [done |]. by exists out1, Completed.
    + unfold settle. cbn [closed finish_private]. rewrite Hc'. cbn.
      right. split; [done |]. subst out1. by exists [], (Failed e).
Qed.

Lemma values_then_one_end_app {D} (vs out : list (Notification D)) :
  Forall (fun n => terminal n = false) vs ->
  values_then_one_end (vs ++ out) = values_then_one_end out.
Proof.
  induction 1 as [|n vs Hn _ IH]; [done |].
  cbn [app values_then_one_end]. by rewrite Hn.
Qed.

Lemma ended_app {D} (vs out : list (Notification D)) :
  Forall (fun n => terminal n = false) vs ->
  ended (vs ++ out) = ended out.
Proof.
  intros Hvs. unfold ended. destruct out as [|n out].
  - rewrite app_nil_r. cbn.
    destruct (last vs) as [n|] eqn:Hl; [| done].
    apply last_Some in Hl as [vs' ->].
    rewrite Forall_app, Forall_singleton in Hvs. by destruct Hvs.
  - by rewrite last_app_cons.
Qed.

Lemma feed_shape api evs s :
  closed s = false ->
  values_then_one_end (snd (feed api evs s)) = true
  /\ closed (fst (feed api evs s)) = ended (snd (feed api evs s)).
Proof.
  revert s. induction evs as [|ev evs IH]; intros s Hc; [by split |].
  rewrite feed_cons. cbn [fst snd].
  destruct (deliver_shape api ev s Hc)
    as [[Hc1 Hv]|(Hc1 & vs & n & Hout & Hv & Hn)].
  - destruct (IH _ Hc1) as [Hg He].
    rewrite values_then_one_end_app, ended_app by exact Hv.
    by split.
  - rewrite (feed_closed api evs _ Hc1). cbn [fst snd].
    rewrite app_nil_r, Hout, values_then_one_end_app, ended_app by done.
    cbn. unfold ended. cbn. by rewrite Hn, Hc1.
Qed.

(** X14.  What a subscriber of [state$] is told, whatever the two
    sources do, is a run of derived states followed by at most one
    error or completion.  The subscription is over exactly when that
    error or completion has been sent, and nothing the sources do
    afterwards reaches the subscriber. *)
Theorem state_stream_ends_at_most_once api evs more :
  let r := feed api evs subscribe in
  values_then_one_end (snd r) = true
  /\ closed (fst r) = ended (snd r)
  /\ (ended (snd r) = true -> snd (feed api (evs ++ more) subscribe) = snd r).
Proof.
  cbn zeta.
  destruct (feed_shape api evs subscribe eq_refl) as [Hg He].
  split; [exact Hg |]. split; [exact He |].
  intros Hend. rewrite feed_app. cbn [snd].
  rewrite (feed_closed api more (fst (feed api evs subscribe)))
    by (by rewrite He).
  cbn. by rewrite app_nil_r.
Qed.

(** X15.  When the private state provider has no record under
    'bboardPrivateState' at the time the API instance is made, [state$]
    never hands out a derived state; as soon as a contract state that
    decodes and the settled read have both arrived, in either order, the
    subscriber gets the [TypeError] of reading [secretKey] off the missing
    record, and the stream is over. *)
Theorem missing_private_state_fails_the_stream api :
  not_nullish (privateRead api) = false ->
  (forall evs, emissions (snd (feed api evs subscribe)) = [])
  /\ forall cs (l : Ledger),
       ledger (data cs) = Return l ->
       let failed :=
         [Failed (JsError "TypeError: Cannot read properties of null")] in
       snd (feed api [ContractStateNext cs; PrivateStateSettled] subscribe)
       = failed
       /\ snd (feed api [PrivateStateSettled; ContractStateNext cs] subscribe)
          = failed.
Proof.
  intros Hnull. split.
  - intros evs.
    destruct (emissions (snd (feed api evs subscribe))) as [|d ds] eqn:Hout;
      [reflexivity |].
    exfalso.
    assert (Hinv : forall evs s,
      consistent api s ->
      emissions (snd (feed api evs s)) <> [] ->
      exists ps, privateRead api = val ps).
    { clear. intros evs. induction evs as [|ev evs IH]; intros s Hs; [done |].
      rewrite feed_cons. cbn [snd]. rewrite emissions_app. intros Hne.
      pose proof (deliver_consistent api ev s Hs) as Hs1.
      destruct (deliver_slots api ev s) as (_ & _ & Hem).
      destruct (emissions (snd (deliver api ev s))) as [|d ds] eqn:Hd.
      - by apply (IH _ Hs1).
      - destruct Hem as (_ & _ & ps & [Hps|Hps]); [done | by eauto |].
        destruct Hs as [Hread _]. exists ps. symmetry. by apply Hread. }
    destruct (Hinv evs subscribe (subscribe_consistent api)) as [ps Hps].
    + by rewrite Hout.
    + by rewrite Hps in Hnull.
  - intros cs l Hl. cbn zeta.
    unfold feed, deliver, emit, settle, stateProjection. cbn.
    rewrite Hl. cbn.
    destruct (privateRead api) as [| |ps]; [| | done]; by split.
Qed.

End Stream.

(** ** The wait for funds, throttled *)

Section Throttled.
Import Wallet.
Variable nativeToken : string.
#[local] Open Scope list_scope.

Implicit Types (states pre rest : list (Z * WalletState)).

Lemma throttle_skips {A} (d : Z) (u : option Z) (pre rest : list (Z * A))
    (t0 t1 : Z) (a0 a1 : A) :
  Rx.throttle d u (pre ++ [(t0, a0)]) = Rx.throttle d u pre ++ [(t0, a0)] ->
  (t1 < t0 + d)%Z ->
  Rx.throttle d u (pre ++ (t0, a0) :: (t1, a1) :: rest)
  = Rx.throttle d u (pre ++ (t0, a0) :: rest).
Proof.
  intros Hpass Hin. revert u Hpass.
  induction pre as [|[t a] pre IH]; intros u Hpass.
  - cbn [app Rx.throttle] in *.
    destruct u as [u|]; [| by rewrite bool_decide_eq_true_2].
    destruct (bool_decide (t0 < u)%Z); [done |].
    by rewrite bool_decide_eq_true_2.
  - cbn [app Rx.throttle] in *.
    destruct u as [u|]; [destruct (bool_decide (t < u)%Z) |].
    + by apply IH.
    + f_equal. apply IH. by injection Hpass.
    + f_equal. apply IH. by injection Hpass.
Qed.

(** X16.  The wait looks at the wallet at most once in ten seconds.  A
    state that the wallet reports less than 10 000 ms after one the wait
    has looked at is dropped unseen: with or without it, the wait logs
    the same lines and resolves, or stays pending, the same way, even
    when the dropped state is synced and funded. *)
Theorem state_inside_the_throttle_window_is_skipped
    (seed : string) (first : WalletState) pre rest
    (t0 t1 : Z) (s0 s1 : WalletState) :
  Rx.throttleTime 10000 (pre ++ [(t0, s0)])
  = Rx.throttleTime 10000 pre ++ [(t0, s0)] ->
  (t1 < t0 + 10000)%Z ->
  buildWalletAndWaitForFunds nativeToken seed first
    (pre ++ (t0, s0) :: (t1, s1) :: rest)
  = buildWalletAndWaitForFunds nativeToken seed first
      (pre ++ (t0, s0) :: rest).
Proof.
  intros Hpass Hin.
  pose proof (throttle_skips 10000 None pre rest t0 t1 s0 s1 Hpass Hin)
    as Heq.
  unfold buildWalletAndWaitForFunds, waitForFunds, Rx.tap, Rx.throttleTime.
  by rewrite Heq.
Qed.

End Throttled.

(** ** What [run] leaves behind when it cannot start *)

Section StartupFailure.
Import Top.

(** X17.  [run] opens the input interface first and enters its [try]
    only after [buildWallet] has returned.  When [dockerEnv.up()] or the
    port mapping that follows it throws, or when [buildWallet] throws,
    [run] ends with the thrown value and sets out to release nothing,
    none of its [finally] blocks being entered: the input interface
    opened first is left open, and so is, when it was [buildWallet] that
    threw, the environment that is up. *)
Theorem startup_failure_releases_nothing (o : Steps) (e : thrown) :
  dockerEnv o = true /\ up o = Throw e
  \/ (dockerEnv o = true -> up o = Return tt) /\ buildWallet o = Throw e ->
  let t := fst (run o) in
  snd (run o) = Abrupt e
  /\ releases t = []
  /\ completed_releases t = []
  /\ head (acquisitions t) = Some InputInterface
  /\ (dockerEnv o = true ->
      up o = Return tt ->
      acquisitions t = [InputInterface; Environment]).
Proof.
  intros Hfail.
  destruct o as [env up0 bw cp ml rc rr wc ed]. cbn in Hfail.
  destruct Hfail as [[-> ->]|[Hup ->]].
  - cbn. repeat split. intros _ Hret. discriminate Hret.
  - destruct env; [rewrite (Hup eq_refl) |]; cbn; repeat split.
    intros Henv. discriminate Henv.
Qed.

End StartupFailure.

(** ** The menu of the board driver *)

Section BoardMenu.
Context `{LedgerDecoder BoardCli.BoardLedger}
  {P : ApiPackage BoardCli.BoardDerivedState}.
Variable post : Api -> string -> M unit.
Variable takeDown : Api -> M unit.
Import Driver.

Implicit Types (st : Loop) (s : Session).

(** X18.  Posting takes two inputs.  Choice 1 at the menu of the board
    driver does nothing yet but put the question for the message; the
    next line typed, whatever it is, is posted as it stands, in one call
    of [post] on the API of the session.  When the call returns the menu
    is shown again; when it throws the loop is left with the thrown
    value, the subscription unsubscribed on the way out. *)
Theorem post_sends_the_line_typed_next st s (message : string) :
  phase st = MainMenu ->
  session st = Some s ->
  let asking := BoardCli.mainLoop_step post takeDown st (Line "1") in
  BoardCli.asked asking = Some "What message do you want to post? "
  /\ world asking = world st
  /\ session asking = session st
  /\ BoardCli.mainLoop_step post takeDown asking (Line message)
     = after_iteration st (post (bboardApi s) message (world st)).
Proof.
  intros Hp Hs. cbn zeta.
  unfold BoardCli.mainLoop_step, mainLoop_step. rewrite Hp, Hs.
  cbn [BoardCli.menu phase world session].
  split; [reflexivity |]. split; [reflexivity |].
  split; [reflexivity |].
  unfold iteration, after_iteration, mbind, M_bind. cbn [world session].
  rewrite Hs.
  by destruct (post (bboardApi s) message (world st)) as [w [[]|e]].
Qed.

(** X19.  The board driver handles the exit on its menu: choice 6 logs
    'Exiting...', ends the loop normally and unsubscribes; nothing typed
    afterwards is read. *)
Theorem board_exit_ends_the_session st s (more : list Input) :
  phase st = MainMenu ->
  session st = Some s ->
  Forall (fun inp => typed inp = true) more ->
  let final := BoardCli.mainLoop_step post takeDown st (Line "6") in
  final
  = {| world := fst (logger.log info "Exiting..." (world st));
       phase := Finished (Return tt);
       session := Some (finally_unsubscribe s) |}
  /\ fold_left (BoardCli.mainLoop_step post takeDown) more final = final.
Proof.
  intros Hp Hs Htyped. cbn zeta.
  assert (Hfinal : BoardCli.mainLoop_step post takeDown st (Line "6")
    = {| world := fst (logger.log info "Exiting..." (world st));
         phase := Finished (Return tt);
         session := Some (finally_unsubscribe s) |}).
  { unfold BoardCli.mainLoop_step, mainLoop_step. rewrite Hp, Hs.
    cbn [BoardCli.menu]. unfold iteration. cbn. by rewrite Hs. }
  split; [exact Hfinal |]. rewrite Hfinal.
  induction Htyped as [|inp more Hinp _ IH]; [done |].
  cbn [fold_left]. unfold BoardCli.mainLoop_step at 2, mainLoop_step.
  destruct inp as [text|e|ev]; [exact IH | exact IH | done].
Qed.

End BoardMenu.

(** ** The further properties, on concrete runs *)

Lemma posted_message_comes_back_witness :
  let l := Scenarios.vacant_board in
  BBoardContract.state l = BoardCli.vacant
  /\ (BBoardContract.instance l + 1 < 2 ^ 64)%Z
  /\ exists l1,
       @BBoardContract.post Scenarios.runtime Scenarios.alice "hello" l
       = BBoardContract.Done (l1, tt)
       /\ @BBoardContract.take_down Scenarios.runtime Scenarios.alice l1
          = BBoardContract.Done
              ({| BBoardContract.state := BoardCli.vacant;
                  BBoardContract.title := "Notices";
                  BBoardContract.message := BBoardContract.none;
                  BBoardContract.instance := 2;
                  BBoardContract.poster :=
                    @BBoardContract.public_key Scenarios.runtime
                      Scenarios.alice [Byte.x01] |},
               "hello").
Proof.
  intros l. split; [reflexivity |]. split; [reflexivity |].
  apply (@posted_message_comes_back Scenarios.runtime Scenarios.alice
           "hello" l); reflexivity.
Defined.

Lemma first_post_stands_witness :
  let later :=
    [BBoardContract.Post Scenarios.bob "second";
     BBoardContract.TakeDown Scenarios.bob;
     BBoardContract.Post Scenarios.alice "third"] in
  BBoardContract.state Scenarios.vacant_board = BoardCli.vacant
  /\ @BBoardContract.taken_down Scenarios.runtime later
       Scenarios.occupied_board = 0
  /\ @BBoardContract.history Scenarios.runtime
       (BBoardContract.Post Scenarios.alice "hello" :: later)
       Scenarios.vacant_board
     = Scenarios.occupied_board
  /\ BBoardContract.message Scenarios.occupied_board
     = BBoardContract.some "hello".
Proof.
  intros later. split; [reflexivity |]. split; [reflexivity |].
  destruct (@first_post_stands Scenarios.runtime Scenarios.alice "hello"
              Scenarios.vacant_board later) as [Hstands _].
  - reflexivity.
  - reflexivity.
  - split; [exact Hstands | reflexivity].
Defined.

(** After the take-down of [alice], the board takes a post again. *)
Example post_after_take_down :
  BBoardContract.message
    (@BBoardContract.history Scenarios.runtime
       [BBoardContract.Post Scenarios.alice "hello";
        BBoardContract.Post Scenarios.bob "second";
        BBoardContract.TakeDown Scenarios.alice;
        BBoardContract.Post Scenarios.bob "third"]
       Scenarios.vacant_board)
  = BBoardContract.some "third".
Proof. reflexivity. Qed.

Lemma take_down_needs_the_poster_witness :
  let l := Scenarios.occupied_board in
  (BBoardContract.instance l + 1 < 2 ^ 64)%Z
  /\ @BBoardContract.take_down Scenarios.runtime Scenarios.bob l
     = BBoardContract.Fails
         "Attempted to take down post, but not the current poster"
  /\ @BBoardContract.submit Scenarios.runtime l
       (BBoardContract.TakeDown Scenarios.bob) = l
  /\ exists l',
       @BBoardContract.take_down Scenarios.runtime Scenarios.alice l
       = BBoardContract.Done (l', "hello").
Proof.
  intros l. split; [reflexivity |].
  pose proof (@take_down_needs_the_poster Scenarios.runtime Scenarios.bob l
                eq_refl) as Hbob.
  pose proof (@take_down_needs_the_poster Scenarios.runtime Scenarios.alice l
                eq_refl) as Halice.
  cbn [l Scenarios.occupied_board BBoardContract.submit BBoardContract.post
       BBoardContract.state Scenarios.vacant_board] in Hbob, Halice.
  destruct Hbob as [_ Hbob]. destruct Halice as [Halice _].
  destruct Hbob as [Hfails Hkept]; [by vm_compute |].
  split; [exact Hfails |]. split; [exact Hkept |].
  eexists. apply Halice. reflexivity.
Defined.

Lemma ledger_stays_well_formed_witness :
  let calls :=
    [BBoardContract.Post Scenarios.alice "hello";
     BBoardContract.TakeDown Scenarios.bob;
     BBoardContract.TakeDown Scenarios.alice;
     BBoardContract.Post Scenarios.bob "second";
     BBoardContract.Post Scenarios.alice "third"] in
  (1 + Z.of_nat (length calls) < 2 ^ 64)%Z
  /\ @BBoardContract.constructor Scenarios.runtime "Notices"
     = BBoardContract.Done Scenarios.vacant_board
  /\ @BBoardContract.taken_down Scenarios.runtime calls
       Scenarios.vacant_board = 1
  /\ BBoardContract.instance
       (@BBoardContract.history Scenarios.runtime calls
          Scenarios.vacant_board) = 2%Z
  /\ BBoardContract.message
       (@BBoardContract.history Scenarios.runtime calls
          Scenarios.vacant_board) = BBoardContract.some "second".
Proof.
  intros calls. split; [reflexivity |].
  destruct (@ledger_stays_well_formed Scenarios.runtime "Notices" calls)
    as (l0 & Hl0 & _ & _ & _ & Hinst); [reflexivity |].
  injection Hl0 as <-.
  split; [reflexivity |]. split; [reflexivity |].
  split; [exact Hinst | reflexivity].
Defined.

Lemma invalid_wallet_choices_only_log_witness :
  let invalid := ["4"; "yes"; ""] in
  Forall (fun choice => choice ∉ ["1"; "2"; "3"]) invalid
  /\ Startup.buildWallet "native" Scenarios.buildFromSeed false
       (invalid ++ ["3"; "1"]) Samples.fresh
     = (having_logged
          (invalid_choices invalid
           ++ [{| level := info; message := "Exiting..." |}])%list
          Samples.fresh,
        Return Startup.NoWallet).
Proof.
  intros invalid.
  assert (Hinvalid : Forall (fun choice => choice ∉ ["1"; "2"; "3"]) invalid).
  { repeat (constructor;
            [rewrite !not_elem_of_cons; repeat split; try discriminate;
             apply not_elem_of_nil |]).
    constructor. }
  split; [exact Hinvalid |].
  destruct (invalid_wallet_choices_only_log "native" Scenarios.buildFromSeed
              invalid ["1"] Samples.fresh Hinvalid) as (_ & _ & Hexit & _).
  rewrite Hexit. reflexivity.
Defined.

Lemma invalid_deploy_or_join_choices_only_log_witness :
  let invalid := ["4"; "deploy"] in
  Forall (fun choice => choice ∉ ["1"; "2"; "3"]) invalid
  /\ @VotingCli.mainLoop Samples.contract Samples.helpers
       (Driver.Line <$> invalid) Samples.settled
     = {| Driver.world :=
            having_logged (invalid_choices invalid) Samples.settled;
          Driver.phase := Driver.DeployOrJoin;
          Driver.session := None |}.
Proof.
  intros invalid.
  assert (Hinvalid : Forall (fun choice => choice ∉ ["1"; "2"; "3"]) invalid).
  { repeat (constructor;
            [rewrite !not_elem_of_cons; repeat split; try discriminate;
             apply not_elem_of_nil |]).
    constructor. }
  split; [exact Hinvalid |].
  by destruct (@invalid_deploy_or_join_choices_only_log _
                 (@votingApi Samples.contract Samples.helpers)
                 (@VotingCli.menu Samples.contract Samples.helpers)
                 invalid Samples.settled Hinvalid) as (Hrun & _).
Defined.

Lemma rejected_vote_ends_the_loop_witness :
  let st := Scenarios.voting_at_menu in
  Driver.phase st = Driver.MainMenu
  /\ vote_of "3" = Some call_increment2
  /\ Driver.phase
       (@VotingCli.mainLoop_step Samples.contract Samples.flaky st
          (Driver.Line "3"))
     = Driver.Finished (Throw (JsError "CallRejected"))
  /\ Driver.session
       (@VotingCli.mainLoop_step Samples.contract Samples.flaky st
          (Driver.Line "3"))
     = Driver.finally_unsubscribe <$> Driver.session st.
Proof.
  intros st. split; [reflexivity |]. split; [reflexivity |].
  rewrite (@rejected_vote_ends_the_loop Samples.contract Samples.flaky st
             _ "3" call_increment2 eq_refl eq_refl eq_refl).
  split; reflexivity.
Defined.

Lemma add_authority_uses_the_stored_key_witness :
  let st := Scenarios.voting_at_menu in
  Driver.phase st = Driver.MainMenu
  /\ Driver.phase
       (@VotingCli.mainLoop_step Samples.contract Samples.flaky st
          (Driver.Line "1"))
     = Driver.Finished (Throw (JsError "CallRejected"))
  /\ level
     <$> logged
           (Driver.world
              (@VotingCli.mainLoop_step Samples.contract Samples.flaky st
                 (Driver.Line "1")))
     = [console].
Proof.
  intros st. split; [reflexivity |].
  destruct (@add_authority_uses_the_stored_key Samples.contract Samples.flaky
              st _ eq_refl eq_refl) as (line & Hline & ->).
  split; [reflexivity |]. cbn. by rewrite Hline.
Defined.

Lemma display_choices_only_read_witness :
  let st := Scenarios.voting_at_menu in
  Driver.phase st = Driver.MainMenu
  /\ snd (privateStateProvider.get "bboardPrivateState" (Driver.world st))
     = Return (val Samples.secret)
  /\ message
     <$> logged
           (Driver.world
              (@VotingCli.mainLoop_step Samples.contract Samples.flaky st
                 (Driver.Line "6")))
     = ["Current secret key is: "
        +:+ "2a2a2a2a2a2a2a2a2a2a2a2a2a2a2a2a2a2a2a2a2a2a2a2a2a2a2a2a2a2a2a2a"]
  /\ same_but_log (Driver.world st)
       (Driver.world
          (@VotingCli.mainLoop_step Samples.contract Samples.flaky st
             (Driver.Line "5"))).
Proof.
  intros st. split; [reflexivity |]. split; [reflexivity |].
  destruct (@display_choices_only_read Samples.contract Samples.flaky
              st _ eq_refl eq_refl) as (Hsix & _ & Hfive & _).
  rewrite (Hsix Samples.secret eq_refl). split; [reflexivity | exact Hfive].
Defined.

Lemma session_state_follows_the_stream_witness :
  let script :=
    [Driver.Line "1";
     Driver.Source PrivateStateSettled;
     Driver.Source
       (ContractStateNext {| data := [Byte.x01; Byte.x02; Byte.x03] |});
     Driver.Line "5";
     Driver.Source (ContractStateNext {| data := [Byte.x01] |})] in
  let more :=
    [Driver.Source
       (ContractStateNext {| data := [Byte.x04; Byte.x00; Byte.x07] |})] in
  exists s,
    Driver.session
      (@VotingCli.mainLoop Samples.contract Samples.helpers script
         Samples.fresh) = Some s
    /\ Driver.currentState s
       = Some {| derivedCounter1 := 1; derivedCounter2 := 2;
                 derivedCounter3 := 3 |}
    /\ Driver.currentState s = last (Driver.observed s)
    /\ Forall (@delivered_in Samples.contract script)
         (Driver.observed s)
    /\ exists s',
         Driver.session
           (@VotingCli.mainLoop Samples.contract Samples.helpers
              (script ++ more) Samples.fresh) = Some s'
         /\ Driver.bboardApi s' = Driver.bboardApi s
         /\ Driver.observed s `prefix_of` Driver.observed s'.
Proof.
  intros script more. eexists. split; [reflexivity |].
  split; [reflexivity |].
  apply (@session_state_follows_the_stream Samples.contract Samples.helpers
           script more Samples.fresh).
  reflexivity.
Defined.

Lemma missing_private_state_fails_the_stream_witness :
  not_nullish (BBoardAPI.privateRead Scenarios.unkeyed) = false
  /\ snd (@BBoardAPI.feed Samples.contract Scenarios.unkeyed
            [ContractStateNext {| data := [Byte.x01; Byte.x02; Byte.x03] |};
             PrivateStateSettled;
             ContractStateNext {| data := [Byte.x04; Byte.x00; Byte.x07] |}]
            BBoardAPI.subscribe)
     = [Failed (JsError "TypeError: Cannot read properties of null")]
  /\ forall evs,
       emissions
         (snd (@BBoardAPI.feed Samples.contract Scenarios.unkeyed evs
                 BBoardAPI.subscribe)) = [].
Proof.
  split; [reflexivity |]. split; [reflexivity |].
  by destruct (@missing_private_state_fails_the_stream Samples.contract
                 Scenarios.unkeyed eq_refl) as [Hnone _].
Defined.

Lemma state_inside_the_throttle_window_is_skipped_witness :
  let pre :=
    [(0%Z, Samples.unsynced_state 0); (3000%Z, Samples.synced_state 0)] in
  let rest := [(25000%Z, Samples.synced_state 9)] in
  Rx.throttleTime 10000 (pre ++ [(10000%Z, Samples.synced_state 0)])
  = (Rx.throttleTime 10000 pre ++ [(10000%Z, Samples.synced_state 0)])%list
  /\ (19999 < 10000 + 10000)%Z
  /\ snd (Wallet.buildWalletAndWaitForFunds "native" "seed"
            (Samples.synced_state 0)
            (pre ++ (10000%Z, Samples.synced_state 0)
                 :: (19999%Z, Samples.synced_state 7) :: rest))
     = Some 9%Z.
Proof.
  intros pre rest. split; [reflexivity |]. split; [reflexivity |].
  rewrite (state_inside_the_throttle_window_is_skipped "native" "seed"
             (Samples.synced_state 0) pre rest 10000 19999
             (Samples.synced_state 0) (Samples.synced_state 7)
             eq_refl eq_refl).
  reflexivity.
Defined.

Lemma startup_failure_releases_nothing_witness :
  let o := Scenarios.walletless in
  ((Top.dockerEnv o = true -> Top.up o = Return tt)
   /\ Top.buildWallet o = Throw (JsError "invalid seed"))
  /\ snd (Top.run o) = Top.Abrupt (JsError "invalid seed")
  /\ Top.acquisitions (fst (Top.run o))
     = [Top.InputInterface; Top.Environment]
  /\ Top.releases (fst (Top.run o)) = [].
Proof.
  intros o. split; [by split |].
  destruct (startup_failure_releases_nothing o (JsError "invalid seed")
              (or_intror (conj (fun _ => eq_refl) eq_refl)))
    as (Hend & Hreleases & _ & _ & Henv).
  split; [exact Hend |]. split; [by apply Henv | exact Hreleases].
Defined.

Lemma post_sends_the_line_typed_next_witness :
  let st := Scenarios.board_at_menu in
  let asking :=
    @BoardCli.mainLoop_step Scenarios.boardDecoder Scenarios.boardApi
      Scenarios.post Scenarios.takeDown st (Driver.Line "1") in
  Driver.phase st = Driver.MainMenu
  /\ Driver.phase
       (@BoardCli.mainLoop_step Scenarios.boardDecoder Scenarios.boardApi
          Scenarios.post Scenarios.takeDown asking (Driver.Line "6"))
     = Driver.MainMenu
  /\ Driver.phase
       (@BoardCli.mainLoop_step Scenarios.boardDecoder Scenarios.boardApi
          Scenarios.post Scenarios.takeDown asking (Driver.Line ""))
     = Driver.Finished (Throw (JsError "CallRejected")).
Proof.
  intros st asking. split; [reflexivity |].
  destruct (@post_sends_the_line_typed_next Scenarios.boardDecoder
              Scenarios.boardApi Scenarios.post Scenarios.takeDown
              st _ "6" eq_refl eq_refl) as (_ & _ & _ & Hsix).
  destruct (@post_sends_the_line_typed_next Scenarios.boardDecoder
              Scenarios.boardApi Scenarios.post Scenarios.takeDown
              st _ "" eq_refl eq_refl) as (_ & _ & _ & Hempty).
  fold asking in Hsix, Hempty. rewrite Hsix, Hempty.
  split; reflexivity.
Defined.

Lemma board_exit_ends_the_session_witness :
  let st := Scenarios.board_at_menu in
  let more := [Driver.Line "1"; Driver.Line "hello"; Driver.Aborted (JsError "closed")] in
  Driver.phase st = Driver.MainMenu
  /\ Forall (fun inp => typed inp = true) more
  /\ fold_left
       (@BoardCli.mainLoop_step Scenarios.boardDecoder Scenarios.boardApi
          Scenarios.post Scenarios.takeDown)
       (Driver.Line "6" :: more) st
     = {| Driver.world :=
            having_logged [{| level := info; message := "Exiting..." |}]
              Samples.fresh;
          Driver.phase := Driver.Finished (Return tt);
          Driver.session :=
            Some (Driver.finally_unsubscribe
                    (@Driver.subscribed _ Scenarios.boardApi
                       {| contractAddress := "0200c0ffee" |})) |}.
Proof.
  intros st more. split; [reflexivity |].
  assert (Htyped : Forall (fun inp => typed inp = true) more)
    by (by repeat constructor).
  split; [exact Htyped |].
  destruct (@board_exit_ends_the_session Scenarios.boardDecoder
              Scenarios.boardApi Scenarios.post Scenarios.takeDown
              st _ more eq_refl eq_refl Htyped) as [Hfinal Hdeaf].
  cbn [fold_left]. rewrite Hdeaf, Hfinal. reflexivity.
Defined.

(** The URL of the node with its mapped port, and a container that is
    not there. *)
Example mapped_node_url :
  @Startup.mapContainerPort Scenarios.host "http://127.0.0.1:9944"
    "bboard-node"
  = Return "http://127.0.0.1:9944:32768"
  /\ @Startup.mapContainerPort Scenarios.host "http://127.0.0.1:8088"
       "bboard-indexer"
     = Throw (JsError "no such container").
Proof. split; reflexivity. Qed.

(** A fresh wallet on the first 32 bytes of the random source. *)
Example fresh_wallet_on_the_first_bytes :
  snd (Startup.buildWallet "native" Scenarios.buildFromSeed false
         ["0"; "1"] Samples.fresh)
  = Return
      (Startup.Ready
         "000102030405060708090a0b0c0d0e0f101112131415161718191a1b1c1d1e1f"
         5).
Proof. reflexivity. Qed.

Lemma state_stream_ends_at_most_once_witness :
  let evs :=
    [PrivateStateSettled;
     ContractStateNext {| data := [Byte.x01; Byte.x02; Byte.x03] |};
     ContractStateNext {| data := [Byte.x01] |}] in
  let more :=
    [ContractStateNext {| data := [Byte.x04; Byte.x00; Byte.x07] |};
     ContractStateComplete] in
  snd (@BBoardAPI.feed Samples.contract Samples.api evs BBoardAPI.subscribe)
  = [Next {| derivedCounter1 := 1; derivedCounter2 := 2;
             derivedCounter3 := 3 |};
     Failed (JsError "expected a cell layout of three counters")]
  /\ ended
       (snd (@BBoardAPI.feed Samples.contract Samples.api evs
               BBoardAPI.subscribe)) = true
  /\ snd (@BBoardAPI.feed Samples.contract Samples.api (evs ++ more)
            BBoardAPI.subscribe)
     = snd (@BBoardAPI.feed Samples.contract Samples.api evs
              BBoardAPI.subscribe).
Proof.
  intros evs more. split; [reflexivity |]. split; [reflexivity |].
  destruct (@state_stream_ends_at_most_once Samples.contract Samples.api
              evs more) as (_ & _ & Hdeaf).
  apply Hdeaf. reflexivity.
Defined.

Lemma session_is_established_when_the_helper_returns_witness :
  let w := Samples.fresh in
  snd (BBoardAPI.getPrivateState
         (having_logged [{| level := info; message := "deployContract" |}] w))
  = Return (freshSecret w)
  /\ exists api w2,
       @BBoardAPI.deploy Samples.helpers w = (w2, Return api)
       /\ BBoardAPI.deployedContractAddress api = "0200c0ffee"
       /\ BBoardAPI.privateRead api = val (freshSecret w)
       /\ Driver.phase
            (@VotingCli.mainLoop Samples.contract Samples.helpers
               [Driver.Line "1"] w) = Driver.MainMenu.
Proof.
  intros w. split; [reflexivity |].
  destruct (@session_is_established_when_the_helper_returns
              Samples.contract Samples.helpers "0200c0ffee" w
              _ _ _ _ eq_refl eq_refl) as [Hdeploy _].
  cbn [deployContract Samples.helpers] in Hdeploy.
  destruct Hdeploy as (api & w2 & Hd & _ & _ & Haddr & Hread & Hloop).
  exists api, w2. split; [exact Hd |]. split; [exact Haddr |].
  split; [| by rewrite Hloop].
  apply Hread.
  assert (Hw2 : w2 = fst (@BBoardAPI.deploy Samples.helpers w))
    by (by rewrite Hd).
  rewrite Hw2. reflexivity.
Defined.
